(** * URL shortener: identifier allocation, click recording, analytics, purge

    A shallow embedding of the request handlers of [src/swagger.ts] (the
    Hono application bound to a Cloudflare D1 database) and of the SQL
    statements they send, together with the properties of the handlers
    that the design document states.

    Layout: text and number helpers of the JavaScript runtime, the two
    tables of [schema.sql], the meaning of each SQL statement, a small
    reader/state/exception monad for a handler run, the five handlers,
    and then the lemmas. *)

From Stdlib Require Import String Ascii List ZArith NArith Bool Lia.
From Stdlib Require Import Permutation Sorting.Sorted OrderedTypeEx.
Import ListNotations.
Open Scope string_scope.

Set Implicit Arguments.

(* ===================================================================== *)
(** ** Text: the string operations the handlers and SQLite rely on       *)
(* ===================================================================== *)

Module Text.

(** SQLite compares TEXT values under the BINARY collation: byte by
    byte, a proper prefix being the smaller. [String.leb] is that
    order on a string seen as its bytes. *)
Definition le (a b : string) : bool := (a <=? b)%string.

Definition max (a b : string) : string := if le a b then b else a.
Definition min (a b : string) : string := if le a b then a else b.

(** [s.startsWith(p)] *)
Definition startsWith (p s : string) : bool := String.prefix p s.

(** [s.split(c)] for a one-character separator. *)
Fixpoint split (c : ascii) (s : string) : list string :=
  match s with
  | EmptyString => [EmptyString]
  | String a r =>
      if Ascii.eqb a c then EmptyString :: split c r
      else match split c r with
           | [] => [String a EmptyString]
           | h :: t => String a h :: t
           end
  end.

(** [s.toLowerCase()] on the ASCII letters. Outside ASCII the bytes
    are left alone; no character outside ASCII lowers to one of the
    letters a, s, c, which is all the one caller compares against. *)
Definition lower (a : ascii) : ascii :=
  let n := nat_of_ascii a in
  if (65 <=? n)%nat && (n <=? 90)%nat then ascii_of_nat (n + 32) else a.

Fixpoint toLowerCase (s : string) : string :=
  match s with
  | EmptyString => EmptyString
  | String a r => String (lower a) (toLowerCase r)
  end.

End Text.

(* ===================================================================== *)
(** ** Js: values as the handlers see them                               *)
(* ===================================================================== *)

Module Js.

(** A number as [parseInt], [Math.max]/[Math.min], [-] and [*] produce
    it here: NaN, an infinity, or a double whose value is an integer
    (no fraction arises from integers under these operations, and the
    sign of a zero is never observed). *)
Inductive Num : Type :=
| NaN
| Int (z : Z)
| Infinity (positive : bool).

(** [Number.MAX_SAFE_INTEGER], 2^53 - 1: up to it, in absolute value,
    every integer is a double. *)
Definition MAX_SAFE_INTEGER : Z := 9007199254740991.

(** The double nearest to the integer [z]: [z] itself when it is safe;
    beyond, [z] rounded to 53 significant bits, a tie going to the even
    significand, and an infinity from 2^1024 on. *)
Definition double (z : Z) : Num :=
  let a := Z.abs z in
  if (a <=? MAX_SAFE_INTEGER)%Z then Int z
  else
    let e := (Z.log2 a - 52)%Z in
    let q := Z.shiftr a e in
    let r := (a - Z.shiftl q e)%Z in
    let half := Z.shiftl 1 (e - 1) in
    let q' := if (half <? r)%Z || ((r =? half)%Z && Z.odd q) then (q + 1)%Z else q in
    let v := Z.shiftl q' e in
    if (Z.shiftl 1 1024 <=? v)%Z then Infinity (0 <? z)%Z
    else Int (Z.sgn z * v).

(** [Math.max(a, b)] *)
Definition max (a b : Num) : Num :=
  match a, b with
  | NaN, _ => NaN
  | _, NaN => NaN
  | Int x, Int y => Int (Z.max x y)
  | Infinity true, _ => Infinity true
  | _, Infinity true => Infinity true
  | Infinity false, x => x
  | x, Infinity false => x
  end.

(** [Math.min(a, b)] *)
Definition min (a b : Num) : Num :=
  match a, b with
  | NaN, _ => NaN
  | _, NaN => NaN
  | Int x, Int y => Int (Z.min x y)
  | Infinity false, _ => Infinity false
  | _, Infinity false => Infinity false
  | Infinity true, x => x
  | x, Infinity true => x
  end.

(** [a - b]: the exact difference, rounded to a double. *)
Definition sub (a b : Num) : Num :=
  match a, b with
  | Int x, Int y => double (x - y)
  | Infinity s, Int _ => Infinity s
  | Int _, Infinity s => Infinity (negb s)
  | Infinity s, Infinity t => if Bool.eqb s t then NaN else Infinity s
  | _, _ => NaN
  end.

(** [a * b]: the exact product, rounded to a double. *)
Definition mul (a b : Num) : Num :=
  match a, b with
  | Int x, Int y => double (x * y)
  | Infinity s, Int y => if (y =? 0)%Z then NaN else Infinity (Bool.eqb s (0 <? y)%Z)
  | Int x, Infinity s => if (x =? 0)%Z then NaN else Infinity (Bool.eqb s (0 <? x)%Z)
  | Infinity s, Infinity t => Infinity (Bool.eqb s t)
  | _, _ => NaN
  end.

(** A string that may be [undefined] is truthy when it is present and
    not empty. [truthy o] is the string when it is. *)
Definition truthy (o : option string) : option string :=
  match o with
  | Some s => if (s =? "")%string then None else Some s
  | None => None
  end.

(** [o || d] for a string that may be [undefined]. *)
Definition or (o : option string) (d : string) : string :=
  match truthy o with
  | Some s => s
  | None => d
  end.

End Js.

(** What the handlers take from the JavaScript runtime itself: whether
    [new URL(s)] succeeds, and [parseInt]. Both are the platform's; the
    handlers are verified for any runtime whose [parseInt] reads the two
    default literals they pass to it. *)
Class Runtime : Type := {
  url_parses : string -> bool;
  parseInt : string -> Js.Num;
  parseInt_1 : parseInt "1" = Js.Int 1;
  parseInt_50 : parseInt "50" = Js.Int 50
}.

(* ===================================================================== *)
(** ** The tables of schema.sql                                          *)
(* ===================================================================== *)

(** [urls(id TEXT PRIMARY KEY, original_url TEXT NOT NULL, created_at)] *)
Module Urls.
Record row : Type := {
  id : string;
  original_url : string;
  created_at : string
}.
End Urls.

(** [analytics(id INTEGER PRIMARY KEY AUTOINCREMENT, short_id TEXT NOT
    NULL, ip, user_agent, country_code, referrer, timestamp)]. The one
    INSERT of the application always binds a string to each of the four
    optional columns, so they are strings here. *)
Module Analytics.
Record row : Type := {
  id : N;
  short_id : string;
  ip : string;
  user_agent : string;
  country_code : string;
  referrer : string;
  timestamp : string
}.
End Analytics.

(** The database: both tables in rowid (insertion) order, and the
    largest id AUTOINCREMENT has handed out so far. *)
Record Store : Type := {
  urls : list Urls.row;
  analytics : list Analytics.row;
  analytics_seq : N
}.

Definition empty_store : Store :=
  {| urls := []; analytics := []; analytics_seq := 0 |}.

(* ===================================================================== *)
(** ** Sql: what each statement of the handlers computes                 *)
(* ===================================================================== *)

(** A row of the summary query of [GET /analytics]. The four aggregate
    columns are SQL values: [None] is NULL. *)
Module Summary.
Record row : Type := {
  short_id : string;
  original_url : string;
  click_count : nat;
  last_clicked : option string;
  first_clicked : option string;
  latest_referrer : option string;
  country_code : option string
}.
End Summary.

(** A row of the event query of [GET /analytics/:id]. *)
Module Click.
Record row : Type := {
  timestamp : string;
  ip : string;
  user_agent : string;
  referrer : string;
  country_code : string
}.
End Click.

Module Sql.

Inductive Order : Type := ASC | DESC.

Inductive Error : Type :=
| UniqueViolation     (* UNIQUE constraint failed: urls.id *)
| DatatypeMismatch    (* LIMIT or OFFSET bound to a value that is no integer *)
| TooManyParameters   (* more placeholders bound than D1 takes in a statement *)
| StorageFault        (* the store itself failed *)
| BodyUnreadable.     (* not the store's: the body of the request is no JSON object *)

(** SQLite's integers are signed and 64 bits wide. *)
Definition int64 (z : Z) : bool :=
  (-9223372036854775808 <=? z)%Z && (z <=? 9223372036854775807)%Z.

(** D1 refuses a statement that binds more than 100 parameters. *)
Definition MAX_BOUND_PARAMETERS : nat := 100.

(** *** Values, aggregates, ORDER BY, LIMIT *)

(** [a = b] on SQL values; a comparison with NULL is never true. *)
Definition eq (a b : option string) : bool :=
  match a, b with
  | Some x, Some y => (x =? y)%string
  | _, _ => false
  end.

(** The order ORDER BY sorts by: NULL first, then text. *)
Definition le (a b : option string) : bool :=
  match a, b with
  | None, _ => true
  | Some _, None => false
  | Some x, Some y => Text.le x y
  end.

Definition max2 (a b : option string) : option string :=
  match a, b with
  | None, x => x
  | x, None => x
  | Some x, Some y => Some (Text.max x y)
  end.

Definition min2 (a b : option string) : option string :=
  match a, b with
  | None, x => x
  | x, None => x
  | Some x, Some y => Some (Text.min x y)
  end.

(** [MAX(e)] and [MIN(e)] over a group: NULLs are skipped, and the
    result is NULL when nothing is left. *)
Definition MAX (l : list (option string)) : option string :=
  fold_right max2 None l.
Definition MIN (l : list (option string)) : option string :=
  fold_right min2 None l.

Section Sorting.
Context {A : Type} (leb : A -> A -> bool).

Fixpoint insert_by (x : A) (l : list A) : list A :=
  match l with
  | [] => [x]
  | y :: r => if leb x y then x :: l else y :: insert_by x r
  end.

Definition sort_by (l : list A) : list A := fold_right insert_by [] l.
End Sorting.

(** [ORDER BY key ASC|DESC]. SQL leaves the order of rows with equal
    keys open, and SQLite's depends on the plan it picks for the query;
    this sort keeps them in their order of arrival, which is one of the
    orders allowed and not a prediction of SQLite's. The lemmas speak
    of the result as a sorted arrangement of the rows, or assume that
    no two keys are equal. *)
Definition order_by {A : Type} (key : A -> option string) (o : Order)
    (l : list A) : list A :=
  match o with
  | ASC => sort_by (fun x y => le (key x) (key y)) l
  | DESC => sort_by (fun x y => le (key y) (key x)) l
  end.

(** [LIMIT limit OFFSET offset]: a negative limit is no limit, a
    negative offset is none. *)
Definition limit_offset {A : Type} (limit offset : Z) (l : list A) : list A :=
  let rest := skipn (Z.to_nat offset) l in
  if (limit <? 0)%Z then rest else firstn (Z.to_nat limit) rest.

(** *** urls *)

(** [SELECT .. FROM urls WHERE id = ?], first row. *)
Definition url_by_id (i : string) (s : Store) : option Urls.row :=
  find (fun u => (Urls.id u =? i)%string) (urls s).

(** [SELECT id FROM urls WHERE original_url = ?], first row. *)
Definition url_by_original_url (url : string) (s : Store) : option Urls.row :=
  find (fun u => (Urls.original_url u =? url)%string) (urls s).

(** [INSERT INTO urls (id, original_url) VALUES (?, ?)]: refused when
    the primary key is taken; [created_at] defaults to the clock. *)
Definition insert_url (i url now : string) (s : Store) : Error + Store :=
  if existsb (fun u => (Urls.id u =? i)%string) (urls s) then inl UniqueViolation
  else inr {| urls := urls s ++ [ {| Urls.id := i; Urls.original_url := url;
                                     Urls.created_at := now |} ];
              analytics := analytics s;
              analytics_seq := analytics_seq s |}.

Definition mem (x : string) (l : list string) : bool :=
  existsb (fun y => (y =? x)%string) l.

(** [DELETE FROM urls WHERE id IN (?, .., ?)] *)
Definition delete_urls (ids : list string) (s : Store) : Store :=
  {| urls := filter (fun u => negb (mem (Urls.id u) ids)) (urls s);
     analytics := analytics s;
     analytics_seq := analytics_seq s |}.

(** *** analytics *)

(** AUTOINCREMENT: one more than the largest id ever used. *)
Definition next_id (s : Store) : N :=
  N.succ (fold_right N.max (analytics_seq s) (map Analytics.id (analytics s))).

(** [INSERT INTO analytics (short_id, ip, user_agent, country_code,
    referrer) VALUES (?, ?, ?, ?, ?)]; [timestamp] defaults to the
    clock. *)
Definition insert_click (sid ip ua cc ref now : string) (s : Store) : Store :=
  {| urls := urls s;
     analytics := analytics s ++
       [ {| Analytics.id := next_id s; Analytics.short_id := sid;
            Analytics.ip := ip; Analytics.user_agent := ua;
            Analytics.country_code := cc; Analytics.referrer := ref;
            Analytics.timestamp := now |} ];
     analytics_seq := next_id s |}.

(** [DELETE FROM analytics WHERE short_id IN (?, .., ?)] *)
Definition delete_clicks (ids : list string) (s : Store) : Store :=
  {| urls := urls s;
     analytics := filter (fun a => negb (mem (Analytics.short_id a) ids)) (analytics s);
     analytics_seq := analytics_seq s |}.

(** The events of one identifier, oldest first. *)
Definition clicks_of (sid : string) (s : Store) : list Analytics.row :=
  filter (fun a => (Analytics.short_id a =? sid)%string) (analytics s).

(** [SELECT COUNT(DISTINCT short_id) AS total FROM analytics] *)
Definition count_distinct_short_id (s : Store) : nat :=
  length (nodup string_dec (map Analytics.short_id (analytics s))).

Definition to_click (a : Analytics.row) : Click.row :=
  {| Click.timestamp := Analytics.timestamp a; Click.ip := Analytics.ip a;
     Click.user_agent := Analytics.user_agent a;
     Click.referrer := Analytics.referrer a;
     Click.country_code := Analytics.country_code a |}.

(** [SELECT timestamp, ip, user_agent, referrer, country_code FROM
    analytics WHERE short_id = ? ORDER BY timestamp DESC LIMIT 1000] *)
Definition select_clicks (sid : string) (s : Store) : list Click.row :=
  limit_offset 1000 0
    (map to_click
       (order_by (fun a => Some (Analytics.timestamp a)) DESC (clicks_of sid s))).

(** *** The summary query *)

(** [FROM analytics AS a1 JOIN urls AS u ON a1.short_id = u.id] *)
Definition joined (s : Store) : list (Analytics.row * Urls.row) :=
  flat_map
    (fun a => map (pair a)
                (filter (fun u => (Urls.id u =? Analytics.short_id a)%string) (urls s)))
    (analytics s).

(** [GROUP BY a1.short_id, u.original_url] *)
Definition group_key (j : Analytics.row * Urls.row) : string * string :=
  (Analytics.short_id (fst j), Urls.original_url (snd j)).

Definition key_dec (k1 k2 : string * string) : {k1 = k2} + {k1 <> k2}.
Proof. decide equality; apply string_dec. Defined.

Definition key_eqb (k1 k2 : string * string) : bool :=
  if key_dec k1 k2 then true else false.

Definition group_keys (s : Store) : list (string * string) :=
  nodup key_dec (map group_key (joined s)).

Definition group (s : Store) (k : string * string) : list Analytics.row :=
  map fst (filter (fun j => key_eqb (group_key j) k) (joined s)).

(** [(SELECT MAX(timestamp) FROM analytics AS a2 WHERE a2.short_id =
    a1.short_id)] *)
Definition latest_timestamp (s : Store) (sid : string) : option string :=
  MAX (map (fun a => Some (Analytics.timestamp a)) (clicks_of sid s)).

(** [CASE WHEN timestamp = (SELECT MAX ..) THEN referrer ELSE NULL END] *)
Definition referrer_if_latest (s : Store) (a : Analytics.row) : option string :=
  if eq (Some (Analytics.timestamp a)) (latest_timestamp s (Analytics.short_id a))
  then Some (Analytics.referrer a) else None.

(** The select list, evaluated on one group. *)
Definition summarize (s : Store) (k : string * string) : Summary.row :=
  let g := group s k in
  {| Summary.short_id := fst k;
     Summary.original_url := snd k;
     Summary.click_count := length g;
     Summary.last_clicked := MAX (map (fun a => Some (Analytics.timestamp a)) g);
     Summary.first_clicked := MIN (map (fun a => Some (Analytics.timestamp a)) g);
     Summary.latest_referrer := MAX (map (referrer_if_latest s) g);
     Summary.country_code := MAX (map (fun a => Some (Analytics.country_code a)) g) |}.

(** The grouped rows, before ORDER BY and LIMIT. *)
Definition summary_rows (s : Store) : list Summary.row :=
  map (summarize s) (group_keys s).

(** The whole summary query with its two bound parameters. SQLite
    refuses a LIMIT or OFFSET that is not one of its integers: a NaN,
    an infinity, or a number outside 64 bits. *)
Definition select_summary (o : Order) (limit offset : Js.Num) (s : Store)
    : Error + list Summary.row :=
  match limit, offset with
  | Js.Int l, Js.Int f =>
      if int64 l && int64 f
      then inr (limit_offset l f (order_by Summary.last_clicked o (summary_rows s)))
      else inl DatatypeMismatch
  | _, _ => inl DatatypeMismatch
  end.

End Sql.

(* ===================================================================== *)
(** ** A handler run                                                     *)
(* ===================================================================== *)

(** The statements the handlers prepare, one constructor per SQL text,
    with the values bound to its placeholders. *)
Inductive Stmt : Type :=
| SelectIdById (id : string)
| SelectIdByOriginalUrl (url : string)
| SelectOriginalUrlById (id : string)
| InsertUrl (id url : string)
| InsertClick (short_id ip user_agent country_code referrer : string)
| CountDistinctShortId
| SelectSummary (sort : Sql.Order) (limit offset : Js.Num)
| SelectClicks (short_id : string)
| DeleteClicks (ids : list string)
| DeleteUrls (ids : list string).

(** What one request finds around it: the [API_KEY] binding, the
    store's clock, the identifier [nanoid()] draws if it is called, and
    which of the statements it sends (counted from 0) hit a failure of
    the store. *)
Record Env : Type := {
  API_KEY : string;
  now : string;
  nanoid : string;
  down : nat -> bool
}.

(** The database, and the statements sent to it so far, oldest first. *)
Record World : Type := {
  db : Store;
  sent : list Stmt
}.

(** What a handler can throw: an error of the store, or the failure to
    read the body of the request. An exception is only ever caught or
    passed on, never inspected, so the one type [Sql.Error] holds them
    all, [Sql.BodyUnreadable] being the one that is not the store's. *)
Inductive Outcome (A : Type) : Type :=
| Returned (a : A)
| Thrown (e : Sql.Error).
Arguments Returned {A} a.
Arguments Thrown {A} e.

Definition Run (A : Type) : Type := Env -> World -> Outcome A * World.

Definition ret {A : Type} (a : A) : Run A := fun _ w => (Returned a, w).

Definition bind {A B : Type} (m : Run A) (k : A -> Run B) : Run B :=
  fun env w =>
    match m env w with
    | (Returned a, w') => k a env w'
    | (Thrown e, w') => (Thrown e, w')
    end.

Definition ask : Run Env := fun env w => (Returned env, w).

Definition throw {A : Type} (e : Sql.Error) : Run A := fun _ w => (Thrown e, w).

(** [try { m } catch (err) { h err }] *)
Definition try_catch {A : Type} (m : Run A) (h : Sql.Error -> Run A) : Run A :=
  fun env w =>
    match m env w with
    | (Returned a, w') => (Returned a, w')
    | (Thrown e, w') => h e env w'
    end.

Declare Scope run_scope.
Delimit Scope run_scope with run.
Notation "x <- m ;; k" := (bind m (fun x => k))
  (at level 61, m at next level, right associativity) : run_scope.
Notation "m ;; k" := (bind m (fun _ => k))
  (at level 61, right associativity) : run_scope.
Open Scope run_scope.

(** What a statement does to the database when the store is up. The
    two DELETEs bind one parameter per id; every other statement binds
    at most five. *)
Definition effect (env : Env) (q : Stmt) (s : Store) : Sql.Error + Store :=
  match q with
  | InsertUrl i url => Sql.insert_url i url (now env) s
  | InsertClick sid ip ua cc ref => inr (Sql.insert_click sid ip ua cc ref (now env) s)
  | DeleteClicks ids =>
      if (length ids <=? Sql.MAX_BOUND_PARAMETERS)%nat
      then inr (Sql.delete_clicks ids s) else inl Sql.TooManyParameters
  | DeleteUrls ids =>
      if (length ids <=? Sql.MAX_BOUND_PARAMETERS)%nat
      then inr (Sql.delete_urls ids s) else inl Sql.TooManyParameters
  | SelectSummary o l f =>
      match Sql.select_summary o l f s with
      | inl e => inl e
      | inr _ => inr s
      end
  | _ => inr s
  end.

(** [await DB.prepare(q).bind(..).first()], [.all()] or [.run()]: one
    round trip; [result] reads the rows off the database. *)
Definition send {A : Type} (q : Stmt) (result : Store -> A) : Run A :=
  fun env w =>
    let sent' := (sent w ++ [q])%list in
    if down env (length (sent w)) then (Thrown Sql.StorageFault, {| db := db w; sent := sent' |})
    else match effect env q (db w) with
         | inl e => (Thrown e, {| db := db w; sent := sent' |})
         | inr s' => (Returned (result (db w)), {| db := s'; sent := sent' |})
         end.

(** The statements of a batch run in order inside one transaction. *)
Fixpoint transact (env : Env) (n : nat) (qs : list Stmt) (s : Store)
    : Sql.Error + Store :=
  match qs with
  | [] => inr s
  | q :: r =>
      if down env n then inl Sql.StorageFault
      else match effect env q s with
           | inl e => inl e
           | inr s' => transact env (S n) r s'
           end
  end.

(** [await DB.batch(qs)]: all of the statements take effect, or, when
    one fails, the transaction is rolled back and the call throws. *)
Definition batch (qs : list Stmt) : Run unit :=
  fun env w =>
    let sent' := (sent w ++ qs)%list in
    match transact env (length (sent w)) qs (db w) with
    | inl e => (Thrown e, {| db := db w; sent := sent' |})
    | inr s' => (Returned tt, {| db := s'; sent := sent' |})
    end.

(* ===================================================================== *)
(** ** Requests and responses                                            *)
(* ===================================================================== *)

Inductive Body : Type :=
| Text (text : string)
| ErrorJson (error : string)
| Created (short_url : string) (existing : bool)
| Page (page limit : Js.Num) (sort : Sql.Order) (total : nat)
       (data : list Summary.row)
| Purged (success : bool) (ids : list string)
| Detail (id : string) (original_url : option string) (click_count : nat)
         (analytics : list Click.row)
| Location (url : string).

Record Response : Type := {
  status : nat;
  body : Body
}.

Definition text (t : string) (code : nat) : Response :=
  {| status := code; body := Text t |}.
Definition json (b : Body) (code : nat) : Response :=
  {| status := code; body := b |}.
Definition redirect (url : string) (code : nat) : Response :=
  {| status := code; body := Location url |}.

(** The error kinds of the design, read off the status code. *)
Inductive ErrorKind : Type :=
| InvalidInput | Unauthorized | NotFound | Conflict | Internal.

Definition error_kind (r : Response) : option ErrorKind :=
  match status r with
  | 400 => Some InvalidInput
  | 401 => Some Unauthorized
  | 404 => Some NotFound
  | 409 => Some Conflict
  | 500 => Some Internal
  | _ => None
  end.

(** [POST /create], body [{url, custom_id}]; [origin] is
    [new URL(c.req.url).origin]. *)
Module CreateReq.
Record t : Type := {
  url : option string;
  custom_id : option string;
  origin : string
}.
End CreateReq.

(** What [await c.req.json()] leaves a handler to read the fields of
    the body from: the fields, or nothing. [json()] rejects when the
    body is empty or is no JSON text, and reading a field off [null]
    throws; every other JSON value has fields, absent ones being
    [undefined]. *)
Inductive Read (A : Type) : Type :=
| Unreadable
| Json (fields : A).
Arguments Unreadable {A}.
Arguments Json {A} fields.

(** [GET /analytics?page=&limit=&sort=] *)
Module ListReq.
Record t : Type := {
  authorization : option string;
  page : option string;
  limit : option string;
  sort : option string
}.
End ListReq.

(** [DELETE /analytics], body [{ids}]; [None] when [ids] is no array. *)
Module PurgeReq.
Record t : Type := {
  authorization : option string;
  ids : option (list string)
}.
End PurgeReq.

(** [GET /analytics/:id] *)
Module DetailReq.
Record t : Type := {
  authorization : option string;
  id : string
}.
End DetailReq.

(** [GET /:id] with the four headers the handler reads. *)
Module RedirectReq.
Record t : Type := {
  id : string;
  cf_connecting_ip : option string;
  user_agent : option string;
  cf_ipcountry : option string;
  referer : option string
}.
End RedirectReq.

(* ===================================================================== *)
(** ** The handlers                                                      *)
(* ===================================================================== *)

Section Handlers.
Context `{Runtime}.

(** [isValidUrl]: [new URL(url)] returns rather than throws. *)
Definition isValidUrl (url : string) : bool := url_parses url.

(** The credential check shared by the three analytics routes; the
    result is the rejection, if any. [key] is
    [authHeader.split(' ')[1]]. *)
Definition check_auth (api_key : string) (authHeader : option string)
    : option Response :=
  match Js.truthy authHeader with
  | None => Some (json (ErrorJson "Unauthorized: Missing or invalid token") 401)
  | Some h =>
      if negb (Text.startsWith "Bearer " h)
      then Some (json (ErrorJson "Unauthorized: Missing or invalid token") 401)
      else
        match nth_error (Text.split " " h) 1 with
        | Some key =>
            if (key =? api_key)%string then None else Some (text "Unauthorized" 401)
        | None => Some (text "Unauthorized" 401)
        end
  end.

(** *** POST /create *)

(** [custom_id || nanoid()] *)
Definition chosen_id (custom_id : option string) (env : Env) : string :=
  match Js.truthy custom_id with
  | Some c => c
  | None => nanoid env
  end.

(** From [const id = custom_id || nanoid()] to the end of the handler:
    the insert and its [try]/[catch] (whose [console.error] is left
    out). *)
Definition create_insert (origin url : string) (custom_id : option string)
    : Run Response :=
  env <- ask ;;
  let id := chosen_id custom_id env in
  try_catch
    (send (InsertUrl id url) (fun _ => tt) ;;
     ret (json (Created (origin ++ "/" ++ id) false) 200))
    (fun _ => ret (text "Internal Server Error" 500)).

Definition create (req : CreateReq.t) : Run Response :=
  match Js.truthy (CreateReq.url req) with
  | None => ret (text "Missing or invalid url" 400)
  | Some url =>
      if negb (isValidUrl url) then ret (text "Missing or invalid url" 400)
      else
        match Js.truthy (CreateReq.custom_id req) with
        | Some custom_id =>
            exists_ <- send (SelectIdById custom_id) (Sql.url_by_id custom_id) ;;
            match exists_ with
            | Some _ => ret (text "Custom ID already in use" 409)
            | None => create_insert (CreateReq.origin req) url (CreateReq.custom_id req)
            end
        | None =>
            existing <- send (SelectIdByOriginalUrl url) (Sql.url_by_original_url url) ;;
            match existing with
            | Some e =>
                ret (json (Created (CreateReq.origin req ++ "/" ++ Urls.id e) true) 200)
            | None => create_insert (CreateReq.origin req) url (CreateReq.custom_id req)
            end
        end
  end.

(** The handler from its first line, [const { url, custom_id } = await
    c.req.json()]: the body is read, and the exception of a body that
    cannot be is not caught. *)
Definition post_create (body : Read CreateReq.t) : Run Response :=
  match body with
  | Unreadable => throw Sql.BodyUnreadable
  | Json req => create req
  end.

(** *** GET /analytics *)

Definition effective_page (req : ListReq.t) : Js.Num :=
  Js.max (Js.Int 1) (parseInt (Js.or (ListReq.page req) "1")).

Definition effective_limit (req : ListReq.t) : Js.Num :=
  Js.max (Js.Int 1) (Js.min (parseInt (Js.or (ListReq.limit req) "50")) (Js.Int 500)).

Definition effective_sort (req : ListReq.t) : Sql.Order :=
  if (Text.toLowerCase (Js.or (ListReq.sort req) "desc") =? "asc")%string
  then Sql.ASC else Sql.DESC.

Definition effective_offset (req : ListReq.t) : Js.Num :=
  Js.mul (Js.sub (effective_page req) (Js.Int 1)) (effective_limit req).

Definition rows_or_none (r : Sql.Error + list Summary.row) : list Summary.row :=
  match r with
  | inr rows => rows
  | inl _ => []
  end.

Definition list_analytics (req : ListReq.t) : Run Response :=
  env <- ask ;;
  match check_auth (API_KEY env) (ListReq.authorization req) with
  | Some rejection => ret rejection
  | None =>
      let page := effective_page req in
      let limit := effective_limit req in
      let sort := effective_sort req in
      let offset := effective_offset req in
      total <- send CountDistinctShortId Sql.count_distinct_short_id ;;
      result <- send (SelectSummary sort limit offset)
                  (fun s => rows_or_none (Sql.select_summary sort limit offset s)) ;;
      ret (json (Page page limit sort total result) 200)
  end.

(** *** DELETE /analytics *)

Definition purge (req : PurgeReq.t) : Run Response :=
  env <- ask ;;
  match check_auth (API_KEY env) (PurgeReq.authorization req) with
  | Some rejection => ret rejection
  | None =>
      match PurgeReq.ids req with
      | None | Some [] => ret (text "Invalid request body" 400)
      | Some ids =>
          batch [DeleteClicks ids; DeleteUrls ids] ;;
          ret (json (Purged true ids) 200)
      end
  end.

(** The handler with the reading of its body, [const body = await
    c.req.json(); const ids = body.ids], which comes after the
    credential check. *)
Definition delete_analytics (authorization : option string)
    (body : Read (option (list string))) : Run Response :=
  match body with
  | Json ids =>
      purge {| PurgeReq.authorization := authorization; PurgeReq.ids := ids |}
  | Unreadable =>
      env <- ask ;;
      match check_auth (API_KEY env) authorization with
      | Some rejection => ret rejection
      | None => throw Sql.BodyUnreadable
      end
  end.

(** *** GET /analytics/:id *)

Definition detail (req : DetailReq.t) : Run Response :=
  env <- ask ;;
  match check_auth (API_KEY env) (DetailReq.authorization req) with
  | Some rejection => ret rejection
  | None =>
      let id := DetailReq.id req in
      urlResult <- send (SelectOriginalUrlById id) (Sql.url_by_id id) ;;
      result <- send (SelectClicks id) (Sql.select_clicks id) ;;
      ret (json (Detail id
                   (Js.truthy (option_map Urls.original_url urlResult))
                   (length result) result) 200)
  end.

(** *** GET /:id *)

(** From the answer of the lookup to the end of the handler. *)
Definition redirect_finish (req : RedirectReq.t) (result : option Urls.row)
    : Run Response :=
  match result with
  | None => ret (text "Not found" 404)
  | Some r =>
      let original_url := Urls.original_url r in
      send (InsertClick (RedirectReq.id req)
              (Js.or (RedirectReq.cf_connecting_ip req) "")
              (Js.or (RedirectReq.user_agent req) "")
              (Js.or (RedirectReq.cf_ipcountry req) "")
              (Js.or (RedirectReq.referer req) ""))
           (fun _ => tt) ;;
      ret (redirect original_url 302)
  end.

Definition redirect_to (req : RedirectReq.t) : Run Response :=
  let id := RedirectReq.id req in
  result <- send (SelectOriginalUrlById id) (Sql.url_by_id id) ;;
  redirect_finish req result.

(** *** Running a handler on a database *)

(** A handler that throws is answered by the framework's error
    handler. *)
Definition respond (o : Outcome Response) : Response :=
  match o with
  | Returned r => r
  | Thrown _ => text "Internal Server Error" 500
  end.

Definition start (s : Store) : World := {| db := s; sent := [] |}.

Definition response_of (h : Run Response) (env : Env) (s : Store) : Response :=
  respond (fst (h env (start s))).
Definition store_after (h : Run Response) (env : Env) (s : Store) : Store :=
  db (snd (h env (start s))).
Definition statements_of (h : Run Response) (env : Env) (s : Store) : list Stmt :=
  sent (snd (h env (start s))).

(** The store never fails during this request. *)
Definition healthy (env : Env) : Prop := forall n, down env n = false.

End Handlers.

(** The request carries the configured credential. *)
Definition authorized (env : Env) (authHeader : option string) : Prop :=
  check_auth (API_KEY env) authHeader = None.

(** The number of recorded clicks of an identifier. *)
Definition click_count (id : string) (s : Store) : nat :=
  length (Sql.clicks_of id s).

(** The UrlRecords stored for a destination. *)
Definition records_for (url : string) (s : Store) : list Urls.row :=
  filter (fun u => (Urls.original_url u =? url)%string) (urls s).

(** What the schema and the allocator guarantee of the [urls] table: the
    primary key is unique, and no stored destination is the empty
    string. The events are not tied to [urls] by any constraint. *)
Definition well_formed (s : Store) : Prop :=
  NoDup (map Urls.id (urls s)) /\
  Forall (fun u => Urls.original_url u <> "") (urls s).

(** The two deletions of the batch, both applied. *)
Definition both_deleted (ids : list string) (s : Store) : Store :=
  Sql.delete_urls ids (Sql.delete_clicks ids s).

(** The rows of a detail answer run from the newest event to the
    oldest. *)
Definition newest_first (rows : list Click.row) : Prop :=
  StronglySorted
    (fun a b => Text.le (Click.timestamp b) (Click.timestamp a) = true) rows.

(** The row [r] of a detail answer shows the event [e]: its five
    columns, each with the value stored for [e]. *)
Definition shows (r : Click.row) (e : Analytics.row) : Prop :=
  Click.timestamp r = Analytics.timestamp e /\
  Click.ip r = Analytics.ip e /\
  Click.user_agent r = Analytics.user_agent e /\
  Click.referrer r = Analytics.referrer e /\
  Click.country_code r = Analytics.country_code e.

(** Every event belongs to an identifier that has a UrlRecord. *)
Definition every_click_has_record (s : Store) : Prop :=
  forall e, In e (analytics s) ->
    exists u, In u (urls s) /\ Urls.id u = Analytics.short_id e.

(** A run that leaves a property of the database in place, however it
    ends. *)
Definition keeps {A : Type} (I : Store -> Prop) (m : Run A) : Prop :=
  forall env w, I (db w) -> I (db (snd (m env w))).

(** [t] is the largest (smallest) text of [l], and occurs in it. *)
Definition greatest (t : string) (l : list string) : Prop :=
  In t l /\ forall x, In x l -> Text.le x t = true.
Definition least (t : string) (l : list string) : Prop :=
  In t l /\ forall x, In x l -> Text.le t x = true.

(** [l] is in the order [ORDER BY key o] asks for: every row comes
    before all rows whose key is larger ([ASC]) or smaller ([DESC]). *)
Definition in_order {A : Type} (key : A -> option string) (o : Sql.Order)
    (x y : A) : Prop :=
  match o with
  | Sql.ASC => Sql.le (key x) (key y) = true
  | Sql.DESC => Sql.le (key y) (key x) = true
  end.

Definition ordered {A : Type} (key : A -> option string) (o : Sql.Order)
    (l : list A) : Prop :=
  StronglySorted (in_order key o) l.

(** One request served, and the databases the application can bring
    about from the empty one by serving requests one after the other. *)
Inductive served `{Runtime} : Store -> Store -> Prop :=
| served_create (req : CreateReq.t) (env : Env) (s : Store) :
    served s (store_after (create req) env s)
| served_list (req : ListReq.t) (env : Env) (s : Store) :
    served s (store_after (list_analytics req) env s)
| served_purge (req : PurgeReq.t) (env : Env) (s : Store) :
    served s (store_after (purge req) env s)
| served_detail (req : DetailReq.t) (env : Env) (s : Store) :
    served s (store_after (detail req) env s)
| served_redirect (req : RedirectReq.t) (env : Env) (s : Store) :
    served s (store_after (redirect_to req) env s).

Inductive reachable `{Runtime} : Store -> Prop :=
| reachable_empty : reachable empty_store
| reachable_served (s s' : Store) : reachable s -> served s s' -> reachable s'.

(* ===================================================================== *)
(** ** A runtime to run the handlers on concrete requests                *)
(* ===================================================================== *)

Module Sample.

Definition digit (a : ascii) : option Z :=
  let n := nat_of_ascii a in
  if (48 <=? n)%nat && (n <=? 57)%nat then Some (Z.of_nat (n - 48)) else None.

(** The longest run of decimal digits at the head of [s]. *)
Fixpoint digits (s : string) (acc : option Z) : option Z :=
  match s with
  | EmptyString => acc
  | String a r =>
      match digit a with
      | Some d => digits r (Some (10 * match acc with Some v => v | None => 0 end + d)%Z)
      | None => acc
      end
  end.

(** Decimal [parseInt]: an optional sign, then digits, read as the
    nearest double; NaN without a digit. *)
Definition parseInt (s : string) : Js.Num :=
  match s with
  | String "-" r => match digits r None with Some v => Js.double (- v) | None => Js.NaN end
  | String "+" r => match digits r None with Some v => Js.double v | None => Js.NaN end
  | _ => match digits s None with Some v => Js.double v | None => Js.NaN end
  end.

(** Accepts the http and https URLs that name a host. *)
Definition url_parses (s : string) : bool :=
  match s with
  | String "h" (String "t" (String "t" (String "p" r))) =>
      match r with
      | String ":" (String "/" (String "/" (String c _))) => negb (Ascii.eqb c "/")
      | String "s" (String ":" (String "/" (String "/" (String c _)))) =>
          negb (Ascii.eqb c "/")
      | _ => false
      end
  | _ => false
  end.

#[export] Instance runtime : Runtime :=
  Build_Runtime url_parses parseInt eq_refl eq_refl.

(** A request during which the store is up and [nanoid()] would draw
    [n]. *)
Definition drawing (n : string) : Env :=
  {| API_KEY := "secret"; now := "2025-05-01 10:00:00"; nanoid := n;
     down := fun _ => false |}.

Definition env : Env := drawing "abc1234".

(** The same, with the store failing from statement [k] on. *)
Definition failing_from (k : nat) : Env :=
  {| API_KEY := "secret"; now := "2025-05-01 10:00:00"; nanoid := "abc1234";
     down := fun n => (k <=? n)%nat |}.

Definition create_req (url : string) (custom_id : option string) : CreateReq.t :=
  {| CreateReq.url := Some url; CreateReq.custom_id := custom_id;
     CreateReq.origin := "https://s.example" |}.

Definition bearer : option string := Some "Bearer secret".

Definition click (n : N) (sid cc ref ts : string) : Analytics.row :=
  {| Analytics.id := n; Analytics.short_id := sid; Analytics.ip := "203.0.113.7";
     Analytics.user_agent := "curl/8"; Analytics.country_code := cc;
     Analytics.referrer := ref; Analytics.timestamp := ts |}.

Definition record (i url : string) : Urls.row :=
  {| Urls.id := i; Urls.original_url := url;
     Urls.created_at := "2025-04-01 09:00:00" |}.

(** Two shortened destinations with clicks, and one click whose
    identifier has no row in [urls]. *)
Definition store : Store :=
  {| urls := [ record "abc1234" "https://example.com";
               record "docs" "https://example.org/docs" ];
     analytics :=
       [ click 1 "abc1234" "US" "https://a.example" "2025-04-02 08:00:00";
         click 2 "docs" "DE" "" "2025-04-03 08:00:00";
         click 3 "abc1234" "FR" "https://b.example" "2025-04-04 08:00:00";
         click 4 "gone" "IN" "" "2025-04-05 08:00:00";
         click 5 "abc1234" "CA" "https://c.example" "2025-04-04 08:00:00" ];
     analytics_seq := 5 |}.

End Sample.

Unset Implicit Arguments.

(* ===================================================================== *)
(** ** The API description, and the earlier handlers kept in the file    *)
(* ===================================================================== *)

(** The [responses] of the description object [spec] that the
    application serves at [/]: per path and method, the documented
    status codes. *)
Definition spec : list (string * string * list nat) :=
  [ ("/create", "post", [200; 400; 409; 500]);
    ("/analytics", "get", [200; 401]);
    ("/analytics", "delete", [200; 400; 401]);
    ("/analytics/{id}", "get", [200; 401]) ]%nat.

(** The same of the exported [swaggerSpec], the one description that
    lists the redirect route. *)
Definition swaggerSpec : list (string * string * list nat) :=
  [ ("/create", "post", [200; 400; 409]);
    ("/analytics", "get", [200]);
    ("/:id", "get", [302; 404]);
    ("/analytics/{id}", "get", [200]) ]%nat.

(** [table.paths[path][method].responses], as its list of codes. *)
Definition documented (table : list (string * string * list nat))
    (path method : string) : list nat :=
  match find (fun e => (fst (fst e) =? path)%string && (snd (fst e) =? method)%string)
          table with
  | Some e => snd e
  | None => []
  end.

(** [s] has [p] as a substring. *)
Fixpoint contains (p s : string) : bool :=
  match s with
  | EmptyString => String.prefix p s
  | String _ r => String.prefix p s || contains p r
  end.

(** [isBot]: [/bot|crawl|spider|robot/i.test(userAgent)]. The flag [i]
    folds case on single characters and never maps a character outside
    ASCII onto an ASCII letter, so the test is the search for the four
    words in the ASCII-lowered user agent. *)
Definition isBot (userAgent : string) : bool :=
  let ua := Text.toLowerCase userAgent in
  contains "bot" ua || contains "crawl" ua || contains "spider" ua
  || contains "robot" ua.

(** The first version of [POST /create]: no lookup by id, and a [catch]
    that answers 409. Its answer for a new record is [{short_url}],
    without [existing]. *)
Module V1.

Inductive Body : Type :=
| Text (text : string)
| Short (short_url : string) (existing : option bool).

Record Response : Type := {
  status : nat;
  body : Body
}.

Section Handlers.
Context `{Runtime}.

Definition create_insert (origin url : string) (custom_id : option string)
    : Run Response :=
  env <- ask ;;
  let id := chosen_id custom_id env in
  try_catch
    (send (InsertUrl id url) (fun _ => tt) ;;
     ret {| status := 200; body := Short (origin ++ "/" ++ id) None |})
    (fun _ => ret {| status := 409; body := Text "Conflict or error" |}).

Definition create (req : CreateReq.t) : Run Response :=
  match Js.truthy (CreateReq.url req) with
  | None => ret {| status := 400; body := Text "Missing url" |}
  | Some url =>
      if negb (isValidUrl url) then ret {| status := 400; body := Text "Missing url" |}
      else
        match Js.truthy (CreateReq.custom_id req) with
        | None =>
            existing <- send (SelectIdByOriginalUrl url) (Sql.url_by_original_url url) ;;
            match existing with
            | Some e =>
                ret {| status := 200;
                       body := Short (CreateReq.origin req ++ "/" ++ Urls.id e)
                                 (Some true) |}
            | None => create_insert (CreateReq.origin req) url (CreateReq.custom_id req)
            end
        | Some _ => create_insert (CreateReq.origin req) url (CreateReq.custom_id req)
        end
  end.

End Handlers.
End V1.

(** The second version of [GET /analytics]: the credential is the
    [x-api-key] header, the summary is grouped over [analytics] alone
    (no join with [urls], no [original_url] column), and there is no
    [total]. Its one query does not change the database, so a run is
    its outcome. *)
Module V2.

Module Summary.
Record row : Type := {
  short_id : string;
  click_count : nat;
  last_clicked : option string;
  first_clicked : option string;
  latest_referrer : option string;
  country_code : option string
}.
End Summary.

(** [GROUP BY short_id] *)
Definition group_keys (s : Store) : list string :=
  nodup string_dec (map Analytics.short_id (analytics s)).

Definition summarize (s : Store) (sid : string) : Summary.row :=
  let g := Sql.clicks_of sid s in
  {| Summary.short_id := sid;
     Summary.click_count := length g;
     Summary.last_clicked := Sql.MAX (map (fun a => Some (Analytics.timestamp a)) g);
     Summary.first_clicked := Sql.MIN (map (fun a => Some (Analytics.timestamp a)) g);
     Summary.latest_referrer := Sql.MAX (map (Sql.referrer_if_latest s) g);
     Summary.country_code := Sql.MAX (map (fun a => Some (Analytics.country_code a)) g) |}.

Definition summary_rows (s : Store) : list Summary.row :=
  map (summarize s) (group_keys s).

Definition select_summary (o : Sql.Order) (limit offset : Js.Num) (s : Store)
    : Sql.Error + list Summary.row :=
  match limit, offset with
  | Js.Int l, Js.Int f =>
      if Sql.int64 l && Sql.int64 f
      then inr (Sql.limit_offset l f
                  (Sql.order_by Summary.last_clicked o (summary_rows s)))
      else inl Sql.DatatypeMismatch
  | _, _ => inl Sql.DatatypeMismatch
  end.

Module ListReq.
Record t : Type := {
  x_api_key : option string;
  page : option string;
  limit : option string;
  sort : option string
}.
End ListReq.

Inductive Answer : Type :=
| Unauthorized                       (* c.text('Unauthorized', 401) *)
| Page (page limit : Js.Num) (sort : Sql.Order) (data : list Summary.row).

Section Handlers.
Context `{Runtime}.

Definition list_analytics (req : ListReq.t) (env : Env) (s : Store)
    : Outcome Answer :=
  match ListReq.x_api_key req with
  | None => Returned Unauthorized
  | Some key =>
      if negb (key =? API_KEY env)%string then Returned Unauthorized
      else
        let page := Js.max (Js.Int 1) (parseInt (Js.or (ListReq.page req) "1")) in
        let limit :=
          Js.max (Js.Int 1)
            (Js.min (parseInt (Js.or (ListReq.limit req) "50")) (Js.Int 500)) in
        let sort :=
          if (Text.toLowerCase (Js.or (ListReq.sort req) "desc") =? "asc")%string
          then Sql.ASC else Sql.DESC in
        let offset := Js.mul (Js.sub page (Js.Int 1)) limit in
        if down env 0 then Thrown Sql.StorageFault
        else match select_summary sort limit offset s with
             | inl e => Thrown e
             | inr rows => Returned (Page page limit sort rows)
             end
  end.

End Handlers.
End V2.

(** The ids of the events grow along the table and stay within the
    AUTOINCREMENT counter. *)
Definition click_ids_in_order (s : Store) : Prop :=
  StronglySorted N.lt (map Analytics.id (analytics s)) /\
  Forall (fun e => (Analytics.id e <= analytics_seq s)%N) (analytics s).

(** [k] has no space in it. *)
Definition spaceless (k : string) : Prop :=
  ~ In " "%char (list_ascii_of_string k).


(* ===================================================================== *)
(** ** The order on text and on SQL values                               *)
(* ===================================================================== *)

Lemma text_le_refl (a : string) : Text.le a a = true.
Proof.
  destruct (String.leb_total a a) as [E | E]; exact E.
Qed.

Lemma text_le_total (a b : string) : Text.le a b = true \/ Text.le b a = true.
Proof. apply String.leb_total. Qed.

Lemma text_le_antisym (a b : string) :
  Text.le a b = true -> Text.le b a = true -> a = b.
Proof. apply String.leb_antisym. Qed.

Lemma text_le_cases (a b : string) :
  Text.le a b = true <-> a = b \/ String_as_OT.lt a b.
Proof.
  unfold Text.le, String.leb.
  destruct (String.compare a b) eqn:E.
  - apply String_as_OT.cmp_eq in E. tauto.
  - apply String_as_OT.cmp_lt in E. tauto.
  - split; [discriminate |].
    intros [-> | L].
    + assert (R : String.compare b b = Eq) by (apply String_as_OT.cmp_eq; reflexivity).
      rewrite R in E. discriminate.
    + apply String_as_OT.cmp_lt in L.
      unfold String_as_OT.cmp in L. rewrite L in E. discriminate.
Qed.

Lemma text_le_trans (a b c : string) :
  Text.le a b = true -> Text.le b c = true -> Text.le a c = true.
Proof.
  rewrite !text_le_cases.
  intros [-> | L1] [-> | L2]; auto.
  right. eapply String_as_OT.lt_trans; eassumption.
Qed.

Lemma text_max_ub_l (a b : string) : Text.le a (Text.max a b) = true.
Proof.
  unfold Text.max. destruct (Text.le a b) eqn:E; [exact E | apply text_le_refl].
Qed.

Lemma text_max_ub_r (a b : string) : Text.le b (Text.max a b) = true.
Proof.
  unfold Text.max. destruct (Text.le a b) eqn:E; [apply text_le_refl |].
  destruct (text_le_total a b) as [L | L]; congruence.
Qed.

Lemma text_max_either (a b : string) : Text.max a b = a \/ Text.max a b = b.
Proof. unfold Text.max. destruct (Text.le a b); auto. Qed.

Lemma text_min_lb_l (a b : string) : Text.le (Text.min a b) a = true.
Proof.
  unfold Text.min. destruct (Text.le a b) eqn:E; [apply text_le_refl |].
  destruct (text_le_total a b) as [L | L]; congruence.
Qed.

Lemma text_min_lb_r (a b : string) : Text.le (Text.min a b) b = true.
Proof.
  unfold Text.min. destruct (Text.le a b) eqn:E; [exact E | apply text_le_refl].
Qed.

Lemma text_min_either (a b : string) : Text.min a b = a \/ Text.min a b = b.
Proof. unfold Text.min. destruct (Text.le a b); auto. Qed.

Lemma sql_le_total (a b : option string) : Sql.le a b = true \/ Sql.le b a = true.
Proof.
  destruct a as [x |], b as [y |]; simpl; auto using text_le_total.
Qed.

Lemma sql_le_trans (a b c : option string) :
  Sql.le a b = true -> Sql.le b c = true -> Sql.le a c = true.
Proof.
  destruct a as [x |], b as [y |], c as [z |]; simpl; auto; try discriminate.
  apply text_le_trans.
Qed.

Lemma greatest_unique (l : list string) (a b : string) :
  greatest a l -> greatest b l -> a = b.
Proof.
  intros [Ia Ha] [Ib Hb]. apply text_le_antisym; auto.
Qed.

(** MAX over the present values of a column: NULL exactly when there is
    none, the greatest of them otherwise. *)
Lemma MAX_spec (l : list (option string)) :
  match Sql.MAX l with
  | None => forall x, ~ In (Some x) l
  | Some m => In (Some m) l /\ forall x, In (Some x) l -> Text.le x m = true
  end.
Proof.
  induction l as [| [a |] l IH]; simpl.
  - intros x [].
  - destruct (Sql.MAX l) as [m |]; simpl.
    + destruct IH as [Im Hm]. split.
      * destruct (text_max_either a m) as [-> | ->]; auto.
      * intros x [E | I].
        -- injection E as ->. apply text_max_ub_l.
        -- eapply text_le_trans; [apply Hm, I | apply text_max_ub_r].
    + split; [auto |].
      intros x [E | I]; [injection E as ->; apply text_le_refl | destruct (IH x I)].
  - destruct (Sql.MAX l) as [m |]; simpl.
    + destruct IH as [Im Hm]. split; [auto |].
      intros x [E | I]; [discriminate | auto].
    + intros x [E | I]; [discriminate | exact (IH x I)].
Qed.

Lemma MIN_spec (l : list (option string)) :
  match Sql.MIN l with
  | None => forall x, ~ In (Some x) l
  | Some m => In (Some m) l /\ forall x, In (Some x) l -> Text.le m x = true
  end.
Proof.
  induction l as [| [a |] l IH]; simpl.
  - intros x [].
  - destruct (Sql.MIN l) as [m |]; simpl.
    + destruct IH as [Im Hm]. split.
      * destruct (text_min_either a m) as [-> | ->]; auto.
      * intros x [E | I].
        -- injection E as ->. apply text_min_lb_l.
        -- eapply text_le_trans; [apply text_min_lb_r | apply Hm, I].
    + split; [auto |].
      intros x [E | I]; [injection E as ->; apply text_le_refl | destruct (IH x I)].
  - destruct (Sql.MIN l) as [m |]; simpl.
    + destruct IH as [Im Hm]. split; [auto |].
      intros x [E | I]; [discriminate | auto].
    + intros x [E | I]; [discriminate | exact (IH x I)].
Qed.

(** On a column without NULLs and a group that is not empty. *)
Lemma MAX_column {A : Type} (f : A -> string) (g : list A) :
  g <> [] ->
  exists m, Sql.MAX (map (fun a => Some (f a)) g) = Some m /\ greatest m (map f g).
Proof.
  intros NE.
  pose proof (MAX_spec (map (fun a => Some (f a)) g)) as S.
  destruct (Sql.MAX _) as [m |].
  - exists m. split; [reflexivity |]. destruct S as [Im Hm]. split.
    + apply in_map_iff in Im. destruct Im as (a & E & I). injection E as <-.
      apply in_map, I.
    + intros x I. apply Hm. apply in_map_iff in I. destruct I as (a & <- & I).
      apply in_map_iff. eauto.
  - destruct g as [| a g]; [congruence |].
    exfalso. apply (S (f a)). left. reflexivity.
Qed.

Lemma MIN_column {A : Type} (f : A -> string) (g : list A) :
  g <> [] ->
  exists m, Sql.MIN (map (fun a => Some (f a)) g) = Some m /\ least m (map f g).
Proof.
  intros NE.
  pose proof (MIN_spec (map (fun a => Some (f a)) g)) as S.
  destruct (Sql.MIN _) as [m |].
  - exists m. split; [reflexivity |]. destruct S as [Im Hm]. split.
    + apply in_map_iff in Im. destruct Im as (a & E & I). injection E as <-.
      apply in_map, I.
    + intros x I. apply Hm. apply in_map_iff in I. destruct I as (a & <- & I).
      apply in_map_iff. eauto.
  - destruct g as [| a g]; [congruence |].
    exfalso. apply (S (f a)). left. reflexivity.
Qed.

(* ===================================================================== *)
(** ** ORDER BY and LIMIT                                                *)
(* ===================================================================== *)

Section SortFacts.
Context {A : Type} (leb : A -> A -> bool).
Hypothesis leb_total : forall x y, leb x y = true \/ leb y x = true.
Hypothesis leb_trans : forall x y z, leb x y = true -> leb y z = true -> leb x z = true.

Let R (x y : A) : Prop := leb x y = true.

Lemma insert_by_perm (x : A) (l : list A) :
  Permutation (Sql.insert_by leb x l) (x :: l).
Proof.
  induction l as [| y l IH]; simpl.
  - apply Permutation_refl.
  - destruct (leb x y).
    + apply Permutation_refl.
    + eapply Permutation_trans; [apply perm_skip, IH | apply perm_swap].
Qed.

Lemma sort_by_perm (l : list A) : Permutation (Sql.sort_by leb l) l.
Proof.
  induction l as [| x l IH]; simpl.
  - apply perm_nil.
  - eapply Permutation_trans; [apply insert_by_perm | apply perm_skip, IH].
Qed.

Lemma insert_by_sorted (x : A) (l : list A) :
  StronglySorted R l -> StronglySorted R (Sql.insert_by leb x l).
Proof.
  induction 1 as [| y l S IH F]; simpl.
  - constructor; constructor.
  - destruct (leb x y) eqn:E.
    + constructor; [constructor; assumption |].
      constructor; [exact E |].
      eapply Forall_impl; [| exact F].
      intros z Hz. eapply leb_trans; eassumption.
    + constructor; [exact IH |].
      assert (L : leb y x = true) by (destruct (leb_total x y); congruence).
      eapply Permutation_Forall.
      * apply Permutation_sym, insert_by_perm.
      * constructor; assumption.
Qed.

Lemma sort_by_sorted (l : list A) : StronglySorted R (Sql.sort_by leb l).
Proof.
  induction l as [| x l IH]; simpl.
  - constructor.
  - apply insert_by_sorted, IH.
Qed.
End SortFacts.

Lemma order_by_perm {A : Type} (key : A -> option string) (o : Sql.Order)
    (l : list A) :
  Permutation (Sql.order_by key o l) l.
Proof.
  destruct o; apply sort_by_perm.
Qed.

Lemma order_by_ordered {A : Type} (key : A -> option string) (o : Sql.Order)
    (l : list A) :
  ordered key o (Sql.order_by key o l).
Proof.
  unfold ordered, in_order.
  destruct o; simpl; apply sort_by_sorted.
  - intros x y. apply sql_le_total.
  - intros x y z. apply sql_le_trans.
  - intros x y. apply sql_le_total.
  - intros x y z H1 H2. eapply sql_le_trans; eassumption.
Qed.

Lemma limit_offset_eq {A : Type} (limit offset : Z) (l : list A) :
  (0 <= limit)%Z ->
  Sql.limit_offset limit offset l
  = firstn (Z.to_nat limit) (skipn (Z.to_nat offset) l).
Proof.
  intros L. unfold Sql.limit_offset.
  destruct (Z.ltb_spec limit 0); [lia | reflexivity].
Qed.

Lemma limit_offset_length {A : Type} (limit offset : Z) (l : list A) :
  (0 <= limit)%Z ->
  (Z.of_nat (length (Sql.limit_offset limit offset l)) <= limit)%Z.
Proof.
  intros L. rewrite limit_offset_eq by assumption.
  pose proof (firstn_le_length (Z.to_nat limit) (skipn (Z.to_nat offset) l)).
  rewrite length_firstn. lia.
Qed.

(* ===================================================================== *)
(** ** Single statements                                                 *)
(* ===================================================================== *)

Lemma truthy_some (u : string) : u <> "" -> Js.truthy (Some u) = Some u.
Proof.
  intros NE. simpl. destruct (String.eqb_spec u ""); [contradiction | reflexivity].
Qed.

Lemma truthy_inv (o : option string) (u : string) :
  Js.truthy o = Some u -> o = Some u /\ u <> "".
Proof.
  destruct o as [v |]; simpl; [| discriminate].
  destruct (String.eqb_spec v ""); [discriminate |].
  intros E. injection E as <-. auto.
Qed.

(** A statement that reaches a store that is up. *)
Lemma send_up {A : Type} (q : Stmt) (result : Store -> A) (env : Env)
    (w : World) (s' : Store) :
  down env (length (sent w)) = false ->
  effect env q (db w) = inr s' ->
  send q result env w
  = (Returned (result (db w)), {| db := s'; sent := (sent w ++ [q])%list |}).
Proof.
  intros U E. unfold send. rewrite U, E. reflexivity.
Qed.

(** A statement that fails leaves the database as it was. *)
Lemma send_throws {A : Type} (q : Stmt) (result : Store -> A) (env : Env)
    (w : World) (e : Sql.Error) (w' : World) :
  send q result env w = (Thrown e, w') ->
  w' = {| db := db w; sent := (sent w ++ [q])%list |}.
Proof.
  unfold send.
  destruct (down env (length (sent w))); [intros E; injection E; auto |].
  destruct (effect env q (db w)); intros E; [injection E; auto | discriminate].
Qed.

Lemma url_by_id_some (i : string) (s : Store) (r : Urls.row) :
  Sql.url_by_id i s = Some r -> In r (urls s) /\ Urls.id r = i.
Proof.
  intros F. apply find_some in F. destruct F as [I E].
  apply String.eqb_eq in E. auto.
Qed.

Lemma url_by_id_none (i : string) (s : Store) :
  Sql.url_by_id i s = None <-> forall r, In r (urls s) -> Urls.id r <> i.
Proof.
  split.
  - intros F r I E. pose proof (find_none _ _ F r I) as N. simpl in N.
    apply String.eqb_neq in N. contradiction.
  - intros N. unfold Sql.url_by_id.
    destruct (find _ (urls s)) as [r |] eqn:F; [| reflexivity].
    apply find_some in F. destruct F as [I E]. apply String.eqb_eq in E.
    destruct (N r I E).
Qed.

Lemma url_by_id_found (i : string) (s : Store) (r : Urls.row) :
  In r (urls s) -> Urls.id r = i -> exists r', Sql.url_by_id i s = Some r'.
Proof.
  intros I E. destruct (Sql.url_by_id i s) as [r' |] eqn:F; [eauto |].
  rewrite url_by_id_none in F. destruct (F r I E).
Qed.

(** Under the primary key the row of an identifier is the only one. *)
Lemma url_by_id_unique (i : string) (s : Store) (r : Urls.row) :
  NoDup (map Urls.id (urls s)) ->
  In r (urls s) -> Urls.id r = i -> Sql.url_by_id i s = Some r.
Proof.
  unfold Sql.url_by_id. induction (urls s) as [| x l IH]; simpl; intros ND I E.
  - destruct I.
  - inversion ND as [| ? ? NI ND']; subst.
    destruct (String.eqb_spec (Urls.id x) (Urls.id r)) as [Q | Q].
    + destruct I as [-> | I]; [reflexivity |].
      exfalso. apply NI. rewrite Q. apply in_map, I.
    + destruct I as [-> | I]; [congruence | auto].
Qed.

Lemma url_by_original_url_some (u : string) (s : Store) (r : Urls.row) :
  Sql.url_by_original_url u s = Some r -> In r (urls s) /\ Urls.original_url r = u.
Proof.
  intros F. apply find_some in F. destruct F as [I E].
  apply String.eqb_eq in E. auto.
Qed.

Lemma url_by_original_url_none (u : string) (s : Store) :
  Sql.url_by_original_url u s = None <-> records_for u s = [].
Proof.
  unfold Sql.url_by_original_url, records_for.
  induction (urls s) as [| x l IH]; simpl; [tauto |].
  destruct (Urls.original_url x =? u)%string; [split; discriminate | exact IH].
Qed.

Lemma insert_url_taken (i u t : string) (s : Store) :
  (exists r, In r (urls s) /\ Urls.id r = i) <->
  Sql.insert_url i u t s = inl Sql.UniqueViolation.
Proof.
  unfold Sql.insert_url.
  destruct (existsb _ (urls s)) eqn:X.
  - apply existsb_exists in X. destruct X as (r & I & E).
    apply String.eqb_eq in E. split; eauto.
  - split; [| discriminate].
    intros (r & I & E). exfalso.
    assert (T : existsb (fun u0 => (Urls.id u0 =? i)%string) (urls s) = true).
    { apply existsb_exists. exists r. split; [exact I | apply String.eqb_eq, E]. }
    congruence.
Qed.

Lemma insert_url_free (i u t : string) (s : Store) :
  (forall r, In r (urls s) -> Urls.id r <> i) ->
  Sql.insert_url i u t s
  = inr {| urls := urls s ++ [ {| Urls.id := i; Urls.original_url := u;
                                  Urls.created_at := t |} ];
           analytics := analytics s;
           analytics_seq := analytics_seq s |}.
Proof.
  intros N. unfold Sql.insert_url.
  destruct (existsb _ (urls s)) eqn:X; [| reflexivity].
  apply existsb_exists in X. destruct X as (r & I & E).
  apply String.eqb_eq in E. destruct (N r I E).
Qed.

(* ===================================================================== *)
(** ** POST /create                                                      *)
(* ===================================================================== *)

Lemma chosen_id_custom (custom : option string) (env : Env) (c : string) :
  Js.truthy custom = Some c -> chosen_id custom env = c.
Proof. intros T. unfold chosen_id. rewrite T. reflexivity. Qed.

Lemma chosen_id_random (custom : option string) (env : Env) :
  Js.truthy custom = None -> chosen_id custom env = nanoid env.
Proof. intros T. unfold chosen_id. rewrite T. reflexivity. Qed.

Section CreateFacts.
Context `{Runtime}.

Variables (req : CreateReq.t) (url : string).
Hypothesis Hurl : CreateReq.url req = Some url.
Hypothesis Hnonempty : url <> "".
Hypothesis Hparses : url_parses url = true.

Let origin := CreateReq.origin req.

(** With a custom id that is free, and without one when the
    destination is new, the handler goes on to the insert. *)
Lemma create_reaches_insert_custom (env : Env) (s : Store) (c : string) :
  Js.truthy (CreateReq.custom_id req) = Some c ->
  down env 0 = false ->
  Sql.url_by_id c s = None ->
  create req env (start s)
  = create_insert origin url (CreateReq.custom_id req) env
      {| db := s; sent := [SelectIdById c] |}.
Proof.
  intros C U N. unfold create.
  rewrite Hurl, (truthy_some url Hnonempty). unfold isValidUrl. rewrite Hparses. simpl.
  rewrite C. unfold bind.
  rewrite (send_up _ _ env (start s) s) by (simpl; auto).
  simpl. rewrite N. reflexivity.
Qed.

Lemma create_reaches_insert_random (env : Env) (s : Store) :
  Js.truthy (CreateReq.custom_id req) = None ->
  down env 0 = false ->
  Sql.url_by_original_url url s = None ->
  create req env (start s)
  = create_insert origin url (CreateReq.custom_id req) env
      {| db := s; sent := [SelectIdByOriginalUrl url] |}.
Proof.
  intros C U N. unfold create.
  rewrite Hurl, (truthy_some url Hnonempty). unfold isValidUrl. rewrite Hparses. simpl.
  rewrite C. unfold bind.
  rewrite (send_up _ _ env (start s) s) by (simpl; auto).
  simpl. rewrite N. reflexivity.
Qed.

(** The dedup hit. *)
Lemma create_existing (env : Env) (s : Store) (r : Urls.row) :
  Js.truthy (CreateReq.custom_id req) = None ->
  down env 0 = false ->
  Sql.url_by_original_url url s = Some r ->
  create req env (start s)
  = (Returned (json (Created (origin ++ "/" ++ Urls.id r) true) 200),
     {| db := s; sent := [SelectIdByOriginalUrl url] |}).
Proof.
  intros C U F. unfold create.
  rewrite Hurl, (truthy_some url Hnonempty). unfold isValidUrl. rewrite Hparses. simpl.
  rewrite C. unfold bind.
  rewrite (send_up _ _ env (start s) s) by (simpl; auto).
  simpl. rewrite F. reflexivity.
Qed.

(** The custom id is taken. *)
Lemma create_conflict (env : Env) (s : Store) (c : string) (r : Urls.row) :
  Js.truthy (CreateReq.custom_id req) = Some c ->
  down env 0 = false ->
  Sql.url_by_id c s = Some r ->
  create req env (start s)
  = (Returned (text "Custom ID already in use" 409),
     {| db := s; sent := [SelectIdById c] |}).
Proof.
  intros C U F. unfold create.
  rewrite Hurl, (truthy_some url Hnonempty). unfold isValidUrl. rewrite Hparses. simpl.
  rewrite C. unfold bind.
  rewrite (send_up _ _ env (start s) s) by (simpl; auto).
  simpl. rewrite F. reflexivity.
Qed.

End CreateFacts.

(** The insert goes through. *)
Lemma create_insert_ok (origin url : string) (custom : option string)
    (env : Env) (w : World) :
  let id := chosen_id custom env in
  down env (length (sent w)) = false ->
  (forall r, In r (urls (db w)) -> Urls.id r <> id) ->
  create_insert origin url custom env w
  = (Returned (json (Created (origin ++ "/" ++ id) false) 200),
     {| db := {| urls := urls (db w) ++
                   [ {| Urls.id := id; Urls.original_url := url;
                        Urls.created_at := now env |} ];
                 analytics := analytics (db w);
                 analytics_seq := analytics_seq (db w) |};
        sent := (sent w ++ [InsertUrl id url])%list |}).
Proof.
  intros id U N. unfold create_insert, bind, ask, try_catch.
  fold id.
  rewrite (send_up _ _ env w ({| urls := urls (db w) ++
                   [ {| Urls.id := id; Urls.original_url := url;
                        Urls.created_at := now env |} ];
                 analytics := analytics (db w);
                 analytics_seq := analytics_seq (db w) |})).
  - reflexivity.
  - exact U.
  - simpl. apply insert_url_free, N.
Qed.

(** Whatever makes the insert throw, the [catch] answers 500 and the
    database is as it was. *)
Lemma create_insert_caught (origin url : string) (custom : option string)
    (env : Env) (w : World) :
  let id := chosen_id custom env in
  down env (length (sent w)) = true \/
  (exists r, In r (urls (db w)) /\ Urls.id r = id) ->
  create_insert origin url custom env w
  = (Returned (text "Internal Server Error" 500),
     {| db := db w; sent := (sent w ++ [InsertUrl id url])%list |}).
Proof.
  intros id C. unfold create_insert, bind, ask, try_catch. fold id.
  unfold send. destruct (down env (length (sent w))) eqn:D; [reflexivity |].
  destruct C as [C | C]; [discriminate |].
  simpl. apply (insert_url_taken id url (now env)) in C. rewrite C. reflexivity.
Qed.

Lemma url_by_original_url_found (u : string) (s : Store) (r0 : Urls.row) :
  In r0 (urls s) -> Urls.original_url r0 = u ->
  exists r, Sql.url_by_original_url u s = Some r.
Proof.
  intros I E. destruct (Sql.url_by_original_url u s) as [r |] eqn:F; [eauto |].
  apply url_by_original_url_none in F.
  assert (J : In r0 (records_for u s)).
  { apply filter_In. split; [exact I | apply String.eqb_eq, E]. }
  rewrite F in J. destruct J.
Qed.

Lemma run_parts (h : Run Response) (env : Env) (s : Store) (r : Response)
    (w : World) :
  h env (start s) = (Returned r, w) ->
  response_of h env s = r /\ store_after h env s = db w /\
  statements_of h env s = sent w.
Proof.
  intros E. unfold response_of, store_after, statements_of. rewrite E.
  simpl. auto.
Qed.

(** C9, as the code has it. A create request whose body is read, and
    whose [url] is missing, is the empty string, or does not parse as a
    URL, is answered 400, the status of InvalidInput, before the store
    is touched: no statement is sent, whatever the condition of the
    store, and the database is as it was. A request whose body cannot be
    read makes the handler throw on its first line: the answer is 500,
    the status of Internal, and the store is not touched either. *)
Theorem create_rejects_invalid_url `{Runtime} (body : Read CreateReq.t) (env : Env)
    (s : Store) :
  (forall req,
     body = Json req ->
     CreateReq.url req = None \/ CreateReq.url req = Some "" \/
     (exists u, CreateReq.url req = Some u /\ url_parses u = false) ->
     response_of (post_create body) env s = text "Missing or invalid url" 400 /\
     error_kind (response_of (post_create body) env s) = Some InvalidInput /\
     statements_of (post_create body) env s = [] /\
     store_after (post_create body) env s = s) /\
  (body = Unreadable ->
   fst (post_create body env (start s)) = Thrown Sql.BodyUnreadable /\
   response_of (post_create body) env s = text "Internal Server Error" 500 /\
   error_kind (response_of (post_create body) env s) = Some Internal /\
   statements_of (post_create body) env s = [] /\
   store_after (post_create body) env s = s).
Proof.
  split.
  - intros req -> Bad.
    assert (E : post_create (Json req) env (start s)
                = (Returned (text "Missing or invalid url" 400), start s)).
    { unfold post_create, create.
      destruct Bad as [-> | [-> | (u & -> & P)]]; try reflexivity.
      simpl. destruct (u =? "")%string; [reflexivity |].
      unfold isValidUrl. rewrite P. reflexivity. }
    destruct (run_parts _ _ _ _ _ E) as (R & S & T).
    rewrite R, S, T. auto.
  - intros ->. repeat split.
Qed.

(** C7. A create request with a custom id that a stored UrlRecord
    already carries is answered 409, the status of Conflict. The one
    statement sent is the lookup by id: the lookup by destination is
    skipped and nothing is inserted, so the database, and with it the
    record that holds the id, is as it was. *)
Theorem create_custom_id_in_use `{Runtime} (req : CreateReq.t) (env : Env)
    (s : Store) (u c : string) (r : Urls.row) :
  CreateReq.url req = Some u -> u <> "" -> url_parses u = true ->
  CreateReq.custom_id req = Some c -> c <> "" ->
  In r (urls s) -> Urls.id r = c ->
  healthy env ->
  response_of (create req) env s = text "Custom ID already in use" 409 /\
  error_kind (response_of (create req) env s) = Some Conflict /\
  statements_of (create req) env s = [SelectIdById c] /\
  store_after (create req) env s = s /\
  In r (urls (store_after (create req) env s)).
Proof.
  intros U NE P C CNE I Ir Up.
  destruct (url_by_id_found c s r I Ir) as (r' & F).
  assert (T : Js.truthy (CreateReq.custom_id req) = Some c)
    by (rewrite C; apply truthy_some, CNE).
  pose proof (create_conflict req u U NE P env s c r' T (Up 0%nat) F) as E.
  destruct (run_parts _ _ _ _ _ E) as (R & S & Q).
  rewrite R, S, Q. simpl. auto.
Qed.

(** C1, as the code has it. The insert step of [POST /create], in
    whatever state of the database the request reaches it: when the
    insert violates the uniqueness of [urls.id], the [catch] answers 500
    "Internal Server Error", the status of Internal and not that of
    Conflict, and no UrlRecord is added. *)
Theorem create_insert_unique_violation_is_internal (origin url : string)
    (custom : option string) (env : Env) (w : World) :
  let id := chosen_id custom env in
  Sql.insert_url id url (now env) (db w) = inl Sql.UniqueViolation ->
  exists r w',
    create_insert origin url custom env w = (Returned r, w') /\
    r = text "Internal Server Error" 500 /\
    error_kind r = Some Internal /\
    error_kind r <> Some Conflict /\
    db w' = db w.
Proof.
  intros id V.
  exists (text "Internal Server Error" 500),
         {| db := db w; sent := (sent w ++ [InsertUrl id url])%list |}.
  split.
  - apply create_insert_caught. right. apply (insert_url_taken id url (now env)), V.
  - simpl. repeat split. discriminate.
Qed.

(** The same through the whole handler: no custom id, a destination not
    yet stored, and [nanoid()] drawing an identifier that is taken. *)
Lemma create_random_collision `{Runtime} (req : CreateReq.t) (env : Env)
    (s : Store) (u : string) (r : Urls.row) :
  CreateReq.url req = Some u -> u <> "" -> url_parses u = true ->
  Js.truthy (CreateReq.custom_id req) = None ->
  down env 0 = false ->
  records_for u s = [] ->
  In r (urls s) -> Urls.id r = nanoid env ->
  create req env (start s)
  = (Returned (text "Internal Server Error" 500),
     {| db := s; sent := [SelectIdByOriginalUrl u; InsertUrl (nanoid env) u] |}).
Proof.
  intros U NE P C Up Fresh I Ir.
  rewrite (create_reaches_insert_random req u U NE P env s C Up)
    by (apply url_by_original_url_none, Fresh).
  rewrite (create_insert_caught (CreateReq.origin req) u (CreateReq.custom_id req) env).
  - rewrite (chosen_id_random _ env C). reflexivity.
  - right. rewrite (chosen_id_random _ env C). simpl. eauto.
Qed.

Lemma records_for_app (u : string) (s : Store) (r : Urls.row) :
  records_for u
    {| urls := urls s ++ [r]; analytics := analytics s;
       analytics_seq := analytics_seq s |}
  = (records_for u s ++ (if (Urls.original_url r =? u)%string then [r] else []))%list.
Proof.
  unfold records_for. simpl. rewrite filter_app. reflexivity.
Qed.

Lemma url_by_original_url_app (u : string) (s : Store) (r : Urls.row) :
  records_for u s = [] -> Urls.original_url r = u ->
  Sql.url_by_original_url u
    {| urls := urls s ++ [r]; analytics := analytics s;
       analytics_seq := analytics_seq s |} = Some r.
Proof.
  intros N E. apply url_by_original_url_none in N.
  unfold Sql.url_by_original_url in *. simpl.
  induction (urls s) as [| x l IH]; simpl in *.
  - rewrite E, String.eqb_refl. reflexivity.
  - destruct (Urls.original_url x =? u)%string; [discriminate | auto].
Qed.

(** C4, as the code has it. Creation without a custom id is idempotent
    per destination. When a UrlRecord with exactly the submitted
    destination is stored, the answer carries the identifier of such a
    record with [existing = true], and nothing is inserted. Hence, when
    a first such request succeeds, a second one returns the same short
    URL with [existing = true] and inserts nothing, and exactly one
    record is stored for the destination if none was before the first
    request. *)
Theorem create_without_custom_id_idempotent `{Runtime} (req : CreateReq.t)
    (env1 env2 : Env) (s : Store) (u : string) :
  CreateReq.url req = Some u -> u <> "" -> url_parses u = true ->
  Js.truthy (CreateReq.custom_id req) = None ->
  healthy env1 -> healthy env2 ->
  ((exists r0, In r0 (urls s) /\ Urls.original_url r0 = u) ->
   exists r, In r (urls s) /\ Urls.original_url r = u /\
     response_of (create req) env1 s
     = json (Created (CreateReq.origin req ++ "/" ++ Urls.id r) true) 200 /\
     store_after (create req) env1 s = s) /\
  (forall short_url existing,
     response_of (create req) env1 s = json (Created short_url existing) 200 ->
     let s1 := store_after (create req) env1 s in
     response_of (create req) env2 s1 = json (Created short_url true) 200 /\
     store_after (create req) env2 s1 = s1 /\
     (records_for u s = [] -> length (records_for u s1) = 1%nat)).
Proof.
  intros U NE P C Up1 Up2. split.
  - intros (r0 & I0 & E0).
    destruct (url_by_original_url_found u s r0 I0 E0) as (r & F).
    destruct (url_by_original_url_some u s r F) as [I E].
    pose proof (create_existing req u U NE P env1 s r C (Up1 0%nat) F) as X.
    destruct (run_parts _ _ _ _ _ X) as (R & S & _).
    exists r. rewrite R, S. auto.
  - intros short_url existing R1 s1.
    destruct (Sql.url_by_original_url u s) as [r |] eqn:F.
    + (* the destination was stored already *)
      pose proof (create_existing req u U NE P env1 s r C (Up1 0%nat) F) as X.
      destruct (run_parts _ _ _ _ _ X) as (R & S & _).
      assert (E1 : s1 = s) by exact S. rewrite E1.
      rewrite R in R1. injection R1 as <- <-.
      pose proof (create_existing req u U NE P env2 s r C (Up2 0%nat) F) as Y.
      destruct (run_parts _ _ _ _ _ Y) as (R2 & S2 & _).
      rewrite R2, S2. repeat split.
      intros N. apply url_by_original_url_none in N. congruence.
    + (* it was not: the first request inserts *)
      pose proof (create_reaches_insert_random req u U NE P env1 s C (Up1 0%nat) F) as X.
      destruct (Sql.url_by_id (nanoid env1) s) as [r |] eqn:T.
      * (* the drawn identifier is taken: the first request fails *)
        exfalso. apply url_by_id_some in T. destruct T as [I Ir].
        rewrite (create_insert_caught (CreateReq.origin req) u
                   (CreateReq.custom_id req) env1) in X
          by (right; rewrite (chosen_id_random _ env1 C); simpl; eauto).
        destruct (run_parts _ _ _ _ _ X) as (R & _). rewrite R in R1. discriminate.
      * rewrite (create_insert_ok (CreateReq.origin req) u
                   (CreateReq.custom_id req) env1) in X.
        2: apply Up1.
        2: rewrite (chosen_id_random _ env1 C); apply url_by_id_none, T.
        rewrite (chosen_id_random _ env1 C) in X.
        destruct (run_parts _ _ _ _ _ X) as (R & S & _). simpl in S.
        rewrite R in R1. injection R1 as <- <-.
        set (new := {| Urls.id := nanoid env1; Urls.original_url := u;
                       Urls.created_at := now env1 |}) in *.
        assert (E1 : s1 = {| urls := urls s ++ [new]; analytics := analytics s;
                             analytics_seq := analytics_seq s |}) by exact S.
        rewrite E1.
        assert (N : records_for u s = []) by (apply url_by_original_url_none, F).
        pose proof (url_by_original_url_app u s new N eq_refl) as F2.
        pose proof (create_existing req u U NE P env2 _ new C (Up2 0%nat) F2) as Y.
        destruct (run_parts _ _ _ _ _ Y) as (R2 & S2 & _).
        rewrite R2, S2. repeat split.
        intros _. rewrite records_for_app, N. simpl. rewrite String.eqb_refl.
        reflexivity.
Qed.

Lemma sample_healthy (n : string) : healthy (Sample.drawing n).
Proof. intros k. reflexivity. Qed.

Lemma create_rejects_invalid_url_witness :
  let body := Json (Sample.create_req "not a url" (Some "docs")) in
  response_of (@post_create Sample.runtime body) Sample.env Sample.store
  = text "Missing or invalid url" 400 /\
  error_kind (response_of (@post_create Sample.runtime body) Sample.env Sample.store)
  = Some InvalidInput /\
  statements_of (@post_create Sample.runtime body) Sample.env Sample.store = [] /\
  store_after (@post_create Sample.runtime body) Sample.env Sample.store = Sample.store.
Proof.
  intros body.
  destruct (@create_rejects_invalid_url Sample.runtime body Sample.env Sample.store)
    as [Bad _].
  apply (Bad (Sample.create_req "not a url" (Some "docs")) eq_refl).
  right; right. exists "not a url". split; reflexivity.
Defined.

(** C9, as stated, fails for a request without a body that can be read,
    the plainest case of a missing [url]: the answer is 500, the status
    of Internal and not that of InvalidInput. *)
Lemma create_without_readable_body_is_internal :
  let r := response_of (@post_create Sample.runtime Unreadable) Sample.env Sample.store in
  r = text "Internal Server Error" 500 /\
  error_kind r = Some Internal /\
  error_kind r <> Some InvalidInput.
Proof.
  intros r. split; [reflexivity |]. split; [reflexivity | discriminate].
Qed.

Lemma create_custom_id_in_use_witness :
  let req := Sample.create_req "https://example.net/x" (Some "docs") in
  response_of (@create Sample.runtime req) Sample.env Sample.store
  = text "Custom ID already in use" 409 /\
  statements_of (@create Sample.runtime req) Sample.env Sample.store
  = [SelectIdById "docs"] /\
  store_after (@create Sample.runtime req) Sample.env Sample.store = Sample.store.
Proof.
  intros req.
  destruct (@create_custom_id_in_use Sample.runtime req Sample.env Sample.store
              "https://example.net/x" "docs"
              (Sample.record "docs" "https://example.org/docs"))
    as (R & _ & T & S & _).
  - reflexivity.
  - discriminate.
  - reflexivity.
  - reflexivity.
  - discriminate.
  - simpl. auto.
  - reflexivity.
  - apply sample_healthy.
  - auto.
Defined.

Lemma create_insert_unique_violation_is_internal_witness :
  exists r w',
    create_insert "https://s.example" "https://example.net/x" None Sample.env
      (start Sample.store) = (Returned r, w') /\
    r = text "Internal Server Error" 500 /\
    error_kind r = Some Internal /\
    error_kind r <> Some Conflict /\
    db w' = Sample.store.
Proof.
  apply (create_insert_unique_violation_is_internal "https://s.example"
           "https://example.net/x" None Sample.env (start Sample.store)).
  reflexivity.
Defined.

(** C1, as stated, fails: a request without custom id for a destination
    not yet stored reaches the insert; [nanoid()] draws an identifier
    that is taken, the insert violates the primary key, and the answer
    is 500, which is Internal, not Conflict. *)
Lemma create_collision_is_not_conflict :
  let req := Sample.create_req "https://example.net/x" None in
  Sql.url_by_original_url "https://example.net/x" Sample.store = None /\
  Sql.insert_url (nanoid Sample.env) "https://example.net/x" (now Sample.env)
    Sample.store = inl Sql.UniqueViolation /\
  response_of (@create Sample.runtime req) Sample.env Sample.store
  = text "Internal Server Error" 500 /\
  error_kind (response_of (@create Sample.runtime req) Sample.env Sample.store)
  <> Some Conflict.
Proof.
  repeat split. vm_compute. discriminate.
Qed.

Lemma create_without_custom_id_idempotent_witness :
  let req := Sample.create_req "https://example.net/x" None in
  let env := Sample.drawing "k3x9q2m" in
  let s1 := store_after (@create Sample.runtime req) env Sample.store in
  response_of (@create Sample.runtime req) Sample.env s1
  = json (Created "https://s.example/k3x9q2m" true) 200 /\
  store_after (@create Sample.runtime req) Sample.env s1 = s1 /\
  length (records_for "https://example.net/x" s1) = 1%nat.
Proof.
  intros req env s1.
  destruct (@create_without_custom_id_idempotent Sample.runtime req env Sample.env
              Sample.store "https://example.net/x") as [_ T].
  - reflexivity.
  - discriminate.
  - reflexivity.
  - reflexivity.
  - apply sample_healthy.
  - apply sample_healthy.
  - destruct (T "https://s.example/k3x9q2m" false eq_refl) as (R & S & L).
    split; [exact R | split; [exact S | apply L; reflexivity]].
Defined.

(** C4, as stated, fails on its last clause: after two creations of one
    destination under custom ids, which skip the lookup by destination,
    two requests without custom id both return the first identifier, and
    two records remain stored for the destination, not one. *)
Lemma create_twice_leaves_two_records :
  let dest := "https://example.com" in
  let run req s := store_after (@create Sample.runtime req) Sample.env s in
  let answer req s := response_of (@create Sample.runtime req) Sample.env s in
  let s0 := run (Sample.create_req dest (Some "b"))
              (run (Sample.create_req dest (Some "a")) empty_store) in
  let plain := Sample.create_req dest None in
  answer plain s0 = json (Created "https://s.example/a" true) 200 /\
  answer plain (run plain s0) = json (Created "https://s.example/a" true) 200 /\
  length (records_for dest (run plain (run plain s0))) = 2%nat.
Proof.
  repeat split.
Qed.

(* ===================================================================== *)
(** ** GET /:id                                                          *)
(* ===================================================================== *)

(** No row of [urls] carries the identifier. *)
Lemma redirect_unknown (req : RedirectReq.t) (env : Env) (s : Store) :
  down env 0 = false ->
  Sql.url_by_id (RedirectReq.id req) s = None ->
  redirect_to req env (start s)
  = (Returned (text "Not found" 404),
     {| db := s; sent := [SelectOriginalUrlById (RedirectReq.id req)] |}).
Proof.
  intros U N. unfold redirect_to, bind.
  rewrite (send_up _ _ env (start s) s) by (simpl; auto).
  simpl. rewrite N. reflexivity.
Qed.

Lemma redirect_known (req : RedirectReq.t) (env : Env) (s : Store)
    (r : Urls.row) :
  healthy env ->
  Sql.url_by_id (RedirectReq.id req) s = Some r ->
  redirect_to req env (start s)
  = (Returned (redirect (Urls.original_url r) 302),
     {| db := Sql.insert_click (RedirectReq.id req)
                (Js.or (RedirectReq.cf_connecting_ip req) "")
                (Js.or (RedirectReq.user_agent req) "")
                (Js.or (RedirectReq.cf_ipcountry req) "")
                (Js.or (RedirectReq.referer req) "") (now env) s;
        sent := [SelectOriginalUrlById (RedirectReq.id req);
                 InsertClick (RedirectReq.id req)
                   (Js.or (RedirectReq.cf_connecting_ip req) "")
                   (Js.or (RedirectReq.user_agent req) "")
                   (Js.or (RedirectReq.cf_ipcountry req) "")
                   (Js.or (RedirectReq.referer req) "")] |}).
Proof.
  intros U F. unfold redirect_to, bind.
  rewrite (send_up _ _ env (start s) s) by (simpl; auto).
  simpl. rewrite F. unfold redirect_finish, bind.
  unfold send. simpl. rewrite (U 1%nat). reflexivity.
Qed.

(** A redirect is only ever answered after the event is in the table. *)
Lemma redirect_after_write (req : RedirectReq.t) (env : Env) (s : Store)
    (resp : Response) (w : World) :
  redirect_to req env (start s) = (Returned resp, w) ->
  status resp = 302%nat ->
  db w = Sql.insert_click (RedirectReq.id req)
           (Js.or (RedirectReq.cf_connecting_ip req) "")
           (Js.or (RedirectReq.user_agent req) "")
           (Js.or (RedirectReq.cf_ipcountry req) "")
           (Js.or (RedirectReq.referer req) "") (now env) s.
Proof.
  unfold redirect_to, redirect_finish, bind, send. simpl.
  destruct (down env 0); [discriminate |].
  destruct (Sql.url_by_id (RedirectReq.id req) s) as [r |].
  - simpl. destruct (down env 1); [discriminate |].
    intros E _. injection E as _ <-. reflexivity.
  - simpl. intros E S. injection E as <- _. discriminate.
Qed.

Lemma click_count_insert (id sid ip ua cc ref t : string) (s : Store) :
  click_count id (Sql.insert_click sid ip ua cc ref t s)
  = ((if (sid =? id)%string then 1 else 0) + click_count id s)%nat.
Proof.
  unfold click_count, Sql.clicks_of. simpl.
  rewrite filter_app, length_app. simpl.
  destruct (sid =? id)%string; simpl; lia.
Qed.

(** C6. A redirect request for an identifier without UrlRecord is
    answered 404, the status of NotFound, and writes no event: the
    database is as it was. For an identifier with a UrlRecord, exactly
    one ClickEvent is appended, for that identifier and with the ip,
    user agent, country code and referrer of the request (the empty
    string where a header is missing); the answer is a 302 redirect to
    the stored destination, and the identifier's click count is one
    more than before. Whatever the condition of the store, no redirect
    is answered unless the event has been written. *)
Theorem redirect_records_one_click (req : RedirectReq.t) (env : Env)
    (s : Store) :
  healthy env ->
  NoDup (map Urls.id (urls s)) ->
  let id := RedirectReq.id req in
  let s' := store_after (redirect_to req) env s in
  ((forall r, In r (urls s) -> Urls.id r <> id) ->
   response_of (redirect_to req) env s = text "Not found" 404 /\
   error_kind (response_of (redirect_to req) env s) = Some NotFound /\
   s' = s) /\
  (forall r, In r (urls s) -> Urls.id r = id ->
   response_of (redirect_to req) env s = redirect (Urls.original_url r) 302 /\
   urls s' = urls s /\
   (exists e,
      analytics s' = (analytics s ++ [e])%list /\
      Analytics.short_id e = id /\
      Analytics.ip e = Js.or (RedirectReq.cf_connecting_ip req) "" /\
      Analytics.user_agent e = Js.or (RedirectReq.user_agent req) "" /\
      Analytics.country_code e = Js.or (RedirectReq.cf_ipcountry req) "" /\
      Analytics.referrer e = Js.or (RedirectReq.referer req) "" /\
      Analytics.timestamp e = now env) /\
   click_count id s' = S (click_count id s)) /\
  (forall env' resp w,
     redirect_to req env' (start s) = (Returned resp, w) ->
     status resp = 302%nat ->
     click_count id (db w) = S (click_count id s)).
Proof.
  intros Up PK id s'. split; [| split].
  - intros N. apply url_by_id_none in N.
    pose proof (redirect_unknown req env s (Up 0%nat) N) as E.
    destruct (run_parts _ _ _ _ _ E) as (R & S & _).
    unfold s'. rewrite R, S. auto.
  - intros r I Ir.
    pose proof (url_by_id_unique id s r PK I Ir) as F.
    pose proof (redirect_known req env s r Up F) as E.
    destruct (run_parts _ _ _ _ _ E) as (R & S & _).
    unfold s'. rewrite R, S. simpl. repeat split.
    + eexists. split; [reflexivity |]. simpl. repeat split.
    + fold id. rewrite click_count_insert, String.eqb_refl. reflexivity.
  - intros env' resp w E S.
    rewrite (redirect_after_write req env' s resp w E S).
    fold id. rewrite click_count_insert, String.eqb_refl. reflexivity.
Qed.

Lemma redirect_records_one_click_witness :
  let req := {| RedirectReq.id := "docs";
                RedirectReq.cf_connecting_ip := Some "198.51.100.4";
                RedirectReq.user_agent := None;
                RedirectReq.cf_ipcountry := Some "NL";
                RedirectReq.referer := Some "" |} in
  let s' := store_after (redirect_to req) Sample.env Sample.store in
  response_of (redirect_to req) Sample.env Sample.store
  = redirect "https://example.org/docs" 302 /\
  click_count "docs" s' = 2%nat /\
  exists e, analytics s' = (analytics Sample.store ++ [e])%list /\
            Analytics.ip e = "198.51.100.4" /\ Analytics.user_agent e = "" /\
            Analytics.country_code e = "NL" /\ Analytics.referrer e = "".
Proof.
  intros req s'.
  destruct (redirect_records_one_click req Sample.env Sample.store)
    as (_ & K & _).
  - apply sample_healthy.
  - simpl. repeat constructor; simpl; intuition discriminate.
  - destruct (K (Sample.record "docs" "https://example.org/docs"))
      as (R & _ & (e & A & _ & Ip & Ua & Cc & Rf & _) & C).
    + simpl. auto.
    + reflexivity.
    + split; [exact R | split; [exact C |]].
      exists e. repeat split; assumption.
Defined.

(* ===================================================================== *)
(** ** DELETE /analytics                                                 *)
(* ===================================================================== *)

Lemma mem_In (x : string) (l : list string) : Sql.mem x l = true <-> In x l.
Proof.
  unfold Sql.mem. rewrite existsb_exists. split.
  - intros (y & I & E). apply String.eqb_eq in E. subst. exact I.
  - intros I. exists x. split; [exact I | apply String.eqb_refl].
Qed.

Lemma not_mem_In (x : string) (l : list string) :
  negb (Sql.mem x l) = true <-> ~ In x l.
Proof.
  rewrite negb_true_iff, <- mem_In. destruct (Sql.mem x l); split; congruence.
Qed.

Lemma filter_keeps_all {A : Type} (f : A -> bool) (l : list A) :
  (forall x, In x l -> f x = true) -> filter f l = l.
Proof.
  induction l as [| x l IH]; simpl; intros K; [reflexivity |].
  rewrite (K x) by auto. f_equal. apply IH. auto.
Qed.

(** The batch of a purge: refused as a whole when it binds too many
    ids, failing as a whole when the store does, and both deletions
    otherwise. *)
Lemma transact_purge (env : Env) (n : nat) (ids : list string) (s : Store) :
  transact env n [DeleteClicks ids; DeleteUrls ids] s
  = if down env n then inl Sql.StorageFault
    else if (length ids <=? Sql.MAX_BOUND_PARAMETERS)%nat
         then if down env (S n) then inl Sql.StorageFault
              else inr (both_deleted ids s)
         else inl Sql.TooManyParameters.
Proof.
  cbn [transact effect].
  destruct (down env n); [reflexivity |].
  destruct (length ids <=? Sql.MAX_BOUND_PARAMETERS)%nat; [| reflexivity].
  destruct (down env (S n)); reflexivity.
Qed.

Lemma transact_purge_cases (env : Env) (n : nat) (ids : list string) (s : Store) :
  transact env n [DeleteClicks ids; DeleteUrls ids] s = inr (both_deleted ids s) \/
  exists e, transact env n [DeleteClicks ids; DeleteUrls ids] s = inl e.
Proof.
  rewrite transact_purge.
  destruct (down env n); [right; eauto |].
  destruct (length ids <=? Sql.MAX_BOUND_PARAMETERS)%nat; [| right; eauto].
  destruct (down env (S n)); [right; eauto | left; reflexivity].
Qed.

Lemma transact_purge_up (env : Env) (n : nat) (ids : list string) (s : Store) :
  healthy env -> (length ids <= 100)%nat ->
  transact env n [DeleteClicks ids; DeleteUrls ids] s = inr (both_deleted ids s).
Proof.
  intros Up L. rewrite transact_purge, (Up n), (Up (S n)).
  apply Nat.leb_le in L. unfold Sql.MAX_BOUND_PARAMETERS. rewrite L. reflexivity.
Qed.

Lemma transact_purge_over (env : Env) (n : nat) (ids : list string) (s : Store) :
  (100 < length ids)%nat ->
  exists e, transact env n [DeleteClicks ids; DeleteUrls ids] s = inl e.
Proof.
  intros L. rewrite transact_purge.
  destruct (down env n); [eauto |].
  apply Nat.leb_gt in L. unfold Sql.MAX_BOUND_PARAMETERS. rewrite L. eauto.
Qed.

Lemma purge_run (req : PurgeReq.t) (env : Env) (s : Store) (ids : list string) :
  authorized env (PurgeReq.authorization req) ->
  PurgeReq.ids req = Some ids -> ids <> [] ->
  purge req env (start s)
  = match transact env 0 [DeleteClicks ids; DeleteUrls ids] s with
    | inl e => (Thrown e, {| db := s; sent := [DeleteClicks ids; DeleteUrls ids] |})
    | inr s' => (Returned (json (Purged true ids) 200),
                 {| db := s'; sent := [DeleteClicks ids; DeleteUrls ids] |})
    end.
Proof.
  intros A I NE. unfold purge, bind, ask. unfold authorized in A. rewrite A, I.
  destruct ids as [| i ids]; [congruence |].
  unfold batch. cbn [start db sent length app].
  destruct (transact env 0 [DeleteClicks (i :: ids); DeleteUrls (i :: ids)] s);
    reflexivity.
Qed.

(** C5. A purge request with the credential. Without ids (no array, or
    an empty one) it is answered 400, the status of InvalidInput, and
    nothing is sent to the store. Otherwise the two DELETEs go to the
    store as one batch, and either the call returns, the answer is
    success with the ids as given, and the database has lost exactly the
    events whose [short_id] and the records whose [id] is among them, or
    the call throws and the database is as it was: never one deletion
    without the other. With at most 100 ids and the store up it is the
    former, and ids that match no row change nothing. With more than 100
    ids it is the latter: the store refuses the statements, the answer
    is 500, the status of Internal, and nothing is deleted. *)
Theorem purge_all_or_nothing (req : PurgeReq.t) (env : Env) (s : Store) :
  authorized env (PurgeReq.authorization req) ->
  let s' := store_after (purge req) env s in
  (PurgeReq.ids req = None \/ PurgeReq.ids req = Some [] ->
   response_of (purge req) env s = text "Invalid request body" 400 /\
   error_kind (response_of (purge req) env s) = Some InvalidInput /\
   statements_of (purge req) env s = [] /\
   s' = s) /\
  (forall ids, PurgeReq.ids req = Some ids -> ids <> [] ->
   statements_of (purge req) env s = [DeleteClicks ids; DeleteUrls ids] /\
   ((fst (purge req env (start s)) = Returned (json (Purged true ids) 200) /\
     (forall e, In e (analytics s') <->
                In e (analytics s) /\ ~ In (Analytics.short_id e) ids) /\
     (forall u, In u (urls s') <->
                In u (urls s) /\ ~ In (Urls.id u) ids) /\
     analytics_seq s' = analytics_seq s)
    \/
    ((exists e, fst (purge req env (start s)) = Thrown e) /\
     error_kind (response_of (purge req) env s) = Some Internal /\
     s' = s)) /\
   (healthy env -> (length ids <= 100)%nat ->
    response_of (purge req) env s = json (Purged true ids) 200 /\
    s' = both_deleted ids s /\
    ((forall e, In e (analytics s) -> ~ In (Analytics.short_id e) ids) ->
     (forall u, In u (urls s) -> ~ In (Urls.id u) ids) ->
     s' = s)) /\
   ((100 < length ids)%nat ->
    response_of (purge req) env s = text "Internal Server Error" 500 /\
    error_kind (response_of (purge req) env s) = Some Internal /\
    s' = s)).
Proof.
  intros A s'. split.
  - intros E.
    assert (X : purge req env (start s)
                = (Returned (text "Invalid request body" 400), start s)).
    { unfold purge, bind, ask. unfold authorized in A. rewrite A.
      destruct E as [-> | ->]; reflexivity. }
    destruct (run_parts _ _ _ _ _ X) as (R & S & T).
    unfold s'. rewrite R, S, T. auto.
  - intros ids I NE.
    pose proof (purge_run req env s ids A I NE) as X.
    unfold s', statements_of, store_after, response_of.
    split; [| split; [| split]].
    + rewrite X.
      destruct (transact env 0 [DeleteClicks ids; DeleteUrls ids] s); reflexivity.
    + destruct (transact_purge_cases env 0 ids s) as [T | [e T]];
        rewrite X, T.
      * left. cbn [fst snd db]. split; [reflexivity |]. split; [| split].
        -- intros e. unfold both_deleted. simpl.
           rewrite filter_In, not_mem_In. tauto.
        -- intros u. unfold both_deleted. simpl.
           rewrite filter_In, not_mem_In. tauto.
        -- reflexivity.
      * right. cbn [fst snd db]. split; [eauto | split; reflexivity].
    + intros Up L. rewrite X, (transact_purge_up env 0 ids s Up L).
      cbn [fst snd db respond].
      split; [reflexivity |]. split; [reflexivity |].
      intros NA NU. unfold both_deleted, Sql.delete_urls, Sql.delete_clicks. simpl.
      rewrite !filter_keeps_all.
      * destruct s; reflexivity.
      * intros e Ie. apply not_mem_In, NA, Ie.
      * intros u Iu. apply not_mem_In, NU, Iu.
    + intros L. destruct (transact_purge_over env 0 ids s L) as [e T].
      rewrite X, T. cbn [fst snd db respond]. repeat split.
Qed.

Lemma authorized_sample (n : string) : authorized (Sample.drawing n) Sample.bearer.
Proof. reflexivity. Qed.

Lemma purge_all_or_nothing_witness :
  let req := {| PurgeReq.authorization := Sample.bearer;
                PurgeReq.ids := Some ["abc1234"; "nope"] |} in
  let s' := store_after (purge req) Sample.env Sample.store in
  response_of (purge req) Sample.env Sample.store
  = json (Purged true ["abc1234"; "nope"]) 200 /\
  s' = both_deleted ["abc1234"; "nope"] Sample.store /\
  map Urls.id (urls s') = ["docs"] /\
  map Analytics.short_id (analytics s') = ["docs"; "gone"].
Proof.
  intros req s'.
  destruct (purge_all_or_nothing req Sample.env Sample.store) as [_ K].
  - apply authorized_sample.
  - destruct (K ["abc1234"; "nope"] eq_refl) as (_ & _ & H & _).
    + discriminate.
    + destruct (H (sample_healthy _)) as (R & S & _).
      * simpl. lia.
      * split; [exact R | split; [exact S |]].
        unfold s'. rewrite S. split; reflexivity.
Defined.

(** A purge of 101 ids, the first of them known, with the credential
    and the store up: the answer is 500 and not success, and the record
    and the events of the first id are still there. *)
Lemma purge_of_101_ids_deletes_nothing :
  let ids := "abc1234" :: repeat "x" 100 in
  let req := {| PurgeReq.authorization := Sample.bearer;
                PurgeReq.ids := Some ids |} in
  authorized Sample.env (PurgeReq.authorization req) /\
  healthy Sample.env /\
  length ids = 101%nat /\
  response_of (purge req) Sample.env Sample.store = text "Internal Server Error" 500 /\
  response_of (purge req) Sample.env Sample.store <> json (Purged true ids) 200 /\
  store_after (purge req) Sample.env Sample.store = Sample.store /\
  Sql.url_by_id "abc1234" (store_after (purge req) Sample.env Sample.store)
  = Some (Sample.record "abc1234" "https://example.com") /\
  click_count "abc1234" (store_after (purge req) Sample.env Sample.store) = 3%nat.
Proof.
  intros ids req.
  assert (R : response_of (purge req) Sample.env Sample.store
              = text "Internal Server Error" 500) by reflexivity.
  assert (S : store_after (purge req) Sample.env Sample.store = Sample.store)
    by reflexivity.
  split; [reflexivity |]. split; [apply sample_healthy |].
  split; [reflexivity |]. split; [exact R |].
  split; [rewrite R; discriminate |]. split; [exact S |].
  rewrite S. split; reflexivity.
Qed.

(** The second DELETE fails: the first is rolled back with it. *)
Example purge_rolled_back :
  let req := {| PurgeReq.authorization := Sample.bearer;
                PurgeReq.ids := Some ["abc1234"] |} in
  purge req (Sample.failing_from 1) (start Sample.store)
  = (Thrown Sql.StorageFault,
     {| db := Sample.store; sent := [DeleteClicks ["abc1234"]; DeleteUrls ["abc1234"]] |}).
Proof. reflexivity. Qed.

(* ===================================================================== *)
(** ** GET /analytics/:id                                                *)
(* ===================================================================== *)

Lemma StronglySorted_app_inv {A : Type} (R : A -> A -> Prop) (l1 l2 : list A) :
  StronglySorted R (l1 ++ l2) ->
  StronglySorted R l1 /\ StronglySorted R l2 /\
  forall x y, In x l1 -> In y l2 -> R x y.
Proof.
  induction l1 as [| a l1 IH]; simpl; intros S.
  - repeat split; [constructor | exact S | intros x y []].
  - inversion S as [| ? ? S' F]; subst.
    destruct (IH S') as (S1 & S2 & C).
    apply Forall_app in F. destruct F as [F1 F2].
    repeat split; [constructor; assumption | exact S2 |].
    intros x y [<- | I] J; [| auto].
    rewrite Forall_forall in F2. auto.
Qed.

Lemma StronglySorted_map {A B : Type} (f : A -> B) (R : B -> B -> Prop)
    (l : list A) :
  StronglySorted (fun a b => R (f a) (f b)) l -> StronglySorted R (map f l).
Proof.
  induction 1 as [| a l S IH F]; simpl; constructor; [exact IH |].
  apply Forall_map. exact F.
Qed.

Lemma StronglySorted_slice {A : Type} (R : A -> A -> Prop) (n m : nat)
    (l : list A) :
  StronglySorted R l -> StronglySorted R (firstn n (skipn m l)).
Proof.
  intros S.
  rewrite <- (firstn_skipn m l) in S.
  apply StronglySorted_app_inv in S. destruct S as (_ & S & _).
  rewrite <- (firstn_skipn n (skipn m l)) in S.
  apply StronglySorted_app_inv in S. tauto.
Qed.

(** What the event query returns: the first 1000 of the events of the
    identifier, newest first. *)
Lemma select_clicks_spec (id : string) (s : Store) :
  let rows := Sql.select_clicks id s in
  length rows = Nat.min 1000 (click_count id s) /\
  newest_first rows /\
  exists rest,
    Permutation (map Sql.to_click (Sql.clicks_of id s)) (rows ++ rest) /\
    forall r d, In r rows -> In d rest ->
      Text.le (Click.timestamp d) (Click.timestamp r) = true.
Proof.
  intros rows. unfold rows, Sql.select_clicks.
  set (key := fun a : Analytics.row => Some (Analytics.timestamp a)).
  set (sorted := map Sql.to_click (Sql.order_by key Sql.DESC (Sql.clicks_of id s))).
  rewrite limit_offset_eq by lia.
  change (skipn (Z.to_nat 0) sorted) with sorted.
  assert (P : Permutation (map Sql.to_click (Sql.clicks_of id s)) sorted).
  { apply Permutation_sym, Permutation_map, order_by_perm. }
  assert (S : newest_first sorted).
  { apply StronglySorted_map with (f := Sql.to_click)
      (R := fun a b => Text.le (Click.timestamp b) (Click.timestamp a) = true).
    exact (order_by_ordered key Sql.DESC (Sql.clicks_of id s)). }
  split; [| split].
  - rewrite length_firstn. unfold click_count.
    rewrite <- (Permutation_length P), length_map. reflexivity.
  - unfold newest_first in *.
    apply (StronglySorted_slice _ (Z.to_nat 1000) 0 sorted S).
  - exists (skipn (Z.to_nat 1000) sorted). split.
    + rewrite firstn_skipn. exact P.
    + unfold newest_first in S.
      rewrite <- (firstn_skipn (Z.to_nat 1000) sorted) in S.
      apply StronglySorted_app_inv in S. destruct S as (_ & _ & C).
      intros r d Ir Id. exact (C r d Ir Id).
Qed.

Lemma detail_run (req : DetailReq.t) (env : Env) (s : Store) :
  authorized env (DetailReq.authorization req) ->
  healthy env ->
  detail req env (start s)
  = (Returned
       (json (Detail (DetailReq.id req)
                (Js.truthy (option_map Urls.original_url
                              (Sql.url_by_id (DetailReq.id req) s)))
                (length (Sql.select_clicks (DetailReq.id req) s))
                (Sql.select_clicks (DetailReq.id req) s)) 200),
     {| db := s;
        sent := [SelectOriginalUrlById (DetailReq.id req);
                 SelectClicks (DetailReq.id req)] |}).
Proof.
  intros A Up. unfold detail, bind, ask. unfold authorized in A. rewrite A.
  unfold send. simpl. rewrite (Up 0%nat). simpl. rewrite (Up 1%nat). reflexivity.
Qed.

Lemma shows_to_click (l : list Analytics.row) :
  Forall2 shows (map Sql.to_click l) l.
Proof.
  induction l as [| e l IH]; simpl; constructor; [| exact IH].
  repeat split.
Qed.

(** The rows of the event query against the events of the table: the
    rows show, one by one, the first 1000 of the events of the
    identifier in an arrangement that runs from the newest to the
    oldest. *)
Lemma select_clicks_events (id : string) (s : Store) :
  let events := filter (fun e => (Analytics.short_id e =? id)%string) (analytics s) in
  exists shown rest,
    Permutation events (shown ++ rest) /\
    Forall2 shows (Sql.select_clicks id s) shown /\
    length shown = Nat.min 1000 (length events) /\
    forall e d, In e shown -> In d rest ->
      Text.le (Analytics.timestamp d) (Analytics.timestamp e) = true.
Proof.
  intros events.
  set (key := fun a : Analytics.row => Some (Analytics.timestamp a)).
  set (sorted := Sql.order_by key Sql.DESC (Sql.clicks_of id s)).
  assert (P : Permutation events sorted)
    by (apply Permutation_sym, order_by_perm).
  assert (S : StronglySorted
                (fun a b => Text.le (Analytics.timestamp b) (Analytics.timestamp a) = true)
                sorted)
    by exact (order_by_ordered key Sql.DESC (Sql.clicks_of id s)).
  exists (firstn 1000 sorted), (skipn 1000 sorted).
  split; [rewrite firstn_skipn; exact P |]. split; [| split].
  - unfold Sql.select_clicks. fold key sorted.
    rewrite limit_offset_eq by lia.
    change (skipn (Z.to_nat 0) (map Sql.to_click sorted)) with (map Sql.to_click sorted).
    change (Z.to_nat 1000) with 1000%nat.
    rewrite firstn_map. apply shows_to_click.
  - rewrite length_firstn, (Permutation_length P). reflexivity.
  - rewrite <- (firstn_skipn 1000 sorted) in S.
    apply StronglySorted_app_inv in S. destruct S as (_ & _ & C).
    intros e d Ie Id. exact (C e d Ie Id).
Qed.

(** C8. A detail request with the credential is answered with at most
    the 1000 most recent events of the identifier, each shown with its
    timestamp, ip, user agent, referrer and country code as stored,
    newest first: no event left out is newer than one returned.
    [original_url] is the destination of the identifier's UrlRecord when
    there is one, and null when there is none, and [click_count] is the
    number of events returned, so the smaller of 1000 and the number
    recorded. *)
Theorem detail_newest_thousand (req : DetailReq.t) (env : Env) (s : Store) :
  authorized env (DetailReq.authorization req) ->
  healthy env ->
  well_formed s ->
  let id := DetailReq.id req in
  let events := filter (fun e => (Analytics.short_id e =? id)%string) (analytics s) in
  exists original_url rows shown rest,
    response_of (detail req) env s
    = json (Detail id original_url (length rows) rows) 200 /\
    store_after (detail req) env s = s /\
    (length rows <= 1000)%nat /\
    length rows = Nat.min 1000 (length events) /\
    Permutation events (shown ++ rest) /\
    Forall2 shows rows shown /\
    newest_first rows /\
    (forall e d, In e shown -> In d rest ->
       Text.le (Analytics.timestamp d) (Analytics.timestamp e) = true) /\
    (forall u, In u (urls s) -> Urls.id u = id ->
       original_url = Some (Urls.original_url u)) /\
    ((forall u, In u (urls s) -> Urls.id u <> id) -> original_url = None).
Proof.
  intros A Up [PK NE] id events.
  pose proof (detail_run req env s A Up) as E.
  destruct (run_parts _ _ _ _ _ E) as (R & S & _).
  destruct (select_clicks_spec id s) as (L & O & _).
  destruct (select_clicks_events id s) as (shown & rest & P & F & _ & Older).
  eexists. exists (Sql.select_clicks id s), shown, rest.
  split; [exact R |]. split; [exact S |].
  fold id. repeat split.
  - rewrite L. apply Nat.le_min_l.
  - exact L.
  - exact P.
  - exact F.
  - exact O.
  - exact Older.
  - intros u I Iu. rewrite (url_by_id_unique id s u PK I Iu). simpl.
    rewrite Forall_forall in NE.
    destruct (String.eqb_spec (Urls.original_url u) ""); [| reflexivity].
    destruct (NE u I). assumption.
  - intros N. apply url_by_id_none in N. rewrite N. reflexivity.
Qed.

Lemma sample_well_formed : well_formed Sample.store.
Proof.
  split.
  - simpl. repeat constructor; simpl; intuition discriminate.
  - repeat constructor; discriminate.
Qed.

Lemma detail_newest_thousand_witness :
  let req := {| DetailReq.authorization := Sample.bearer;
                DetailReq.id := "abc1234" |} in
  exists rows,
    response_of (detail req) Sample.env Sample.store
    = json (Detail "abc1234" (Some "https://example.com") 3 rows) 200 /\
    map Click.timestamp rows
    = ["2025-04-04 08:00:00"; "2025-04-04 08:00:00"; "2025-04-02 08:00:00"] /\
    map Click.ip rows = ["203.0.113.7"; "203.0.113.7"; "203.0.113.7"] /\
    map Click.user_agent rows = ["curl/8"; "curl/8"; "curl/8"] /\
    hd_error (rev (map Click.referrer rows)) = Some "https://a.example" /\
    hd_error (rev (map Click.country_code rows)) = Some "US".
Proof.
  intros req.
  destruct (detail_newest_thousand req Sample.env Sample.store
              (authorized_sample _) (sample_healthy _) sample_well_formed)
    as (o & rows & shown & rest & R & _).
  assert (C : response_of (detail req) Sample.env Sample.store
              = json (Detail "abc1234" (Some "https://example.com") 3
                        (Sql.select_clicks "abc1234" Sample.store)) 200)
    by reflexivity.
  rewrite C in R. unfold json in R. injection R as _ _ Er.
  exists rows. split; [rewrite C, Er; reflexivity |].
  rewrite <- Er. repeat split.
Defined.

(* ===================================================================== *)
(** ** The summary query                                                 *)
(* ===================================================================== *)

Lemma filter_drops_all {A : Type} (f : A -> bool) (l : list A) :
  (forall x, In x l -> f x = false) -> filter f l = [].
Proof.
  induction l as [| x l IH]; simpl; intros K; [reflexivity |].
  rewrite (K x) by auto. apply IH. auto.
Qed.

Section SummaryFacts.
Variable s : Store.
Hypothesis PK : NoDup (map Urls.id (urls s)).

Lemma id_determines_row (u1 u2 : Urls.row) :
  In u1 (urls s) -> In u2 (urls s) -> Urls.id u1 = Urls.id u2 -> u1 = u2.
Proof.
  intros I1 I2 E.
  pose proof (url_by_id_unique (Urls.id u1) s u1 PK I1 eq_refl) as F1.
  pose proof (url_by_id_unique (Urls.id u1) s u2 PK I2 (eq_sym E)) as F2.
  congruence.
Qed.

Lemma rows_with_id (u : Urls.row) :
  In u (urls s) ->
  filter (fun x => (Urls.id x =? Urls.id u)%string) (urls s) = [u].
Proof.
  intros I. revert PK I. induction (urls s) as [| x l IH]; simpl; intros ND I.
  - destruct I.
  - inversion ND as [| ? ? NI ND']; subst.
    destruct (String.eqb_spec (Urls.id x) (Urls.id u)) as [Q | Q].
    + destruct I as [-> | I].
      * f_equal. apply filter_drops_all.
        intros y Iy. apply String.eqb_neq. intros Ey.
        apply NI. rewrite <- Ey. apply in_map, Iy.
      * exfalso. apply NI. rewrite Q. apply in_map, I.
    + destruct I as [-> | I]; [congruence | auto].
Qed.

Lemma joined_In (a : Analytics.row) (u : Urls.row) :
  In (a, u) (Sql.joined s) <->
  In a (analytics s) /\ In u (urls s) /\ Urls.id u = Analytics.short_id a.
Proof.
  unfold Sql.joined. rewrite in_flat_map. split.
  - intros (a' & Ia & J). apply in_map_iff in J. destruct J as (u' & E & Iu).
    injection E as -> ->. apply filter_In in Iu. destruct Iu as [Iu Q].
    apply String.eqb_eq in Q. auto.
  - intros (Ia & Iu & Q). exists a. split; [exact Ia |].
    apply in_map, filter_In. split; [exact Iu | apply String.eqb_eq, Q].
Qed.

(** A group key is an identifier that has both events and a row in
    [urls], with the destination of that row. *)
Lemma group_keys_In (k : string * string) :
  In k (Sql.group_keys s) <->
  exists a u, In a (analytics s) /\ In u (urls s) /\
              Urls.id u = Analytics.short_id a /\
              k = (Urls.id u, Urls.original_url u).
Proof.
  unfold Sql.group_keys. rewrite nodup_In, in_map_iff. split.
  - intros ([a u] & E & J). apply joined_In in J. destruct J as (Ia & Iu & Q).
    exists a, u. unfold Sql.group_key in E. simpl in E. rewrite <- Q in E. auto.
  - intros (a & u & Ia & Iu & Q & ->). exists (a, u). split.
    + unfold Sql.group_key. simpl. rewrite Q. reflexivity.
    + apply joined_In. auto.
Qed.

Lemma key_eqb_eq (k1 k2 : string * string) : Sql.key_eqb k1 k2 = true <-> k1 = k2.
Proof.
  unfold Sql.key_eqb. destruct (Sql.key_dec k1 k2); split; congruence.
Qed.

(** Under the primary key, the group of an identifier is all of its
    events. *)
Lemma group_is_clicks (u : Urls.row) :
  In u (urls s) ->
  Sql.group s (Urls.id u, Urls.original_url u) = Sql.clicks_of (Urls.id u) s.
Proof.
  intros Iu. unfold Sql.group, Sql.joined, Sql.clicks_of.
  induction (analytics s) as [| a l IH]; simpl; [reflexivity |].
  rewrite filter_app, map_app, IH. clear IH.
  destruct (String.eqb_spec (Analytics.short_id a) (Urls.id u)) as [Q | Q].
  - rewrite Q, (rows_with_id u Iu). simpl.
    unfold Sql.group_key. simpl. rewrite Q.
    assert (T : Sql.key_eqb (Urls.id u, Urls.original_url u)
                  (Urls.id u, Urls.original_url u) = true)
      by (apply key_eqb_eq; reflexivity).
    rewrite T. reflexivity.
  - assert (E : filter
                  (fun j => Sql.key_eqb (Sql.group_key j)
                              (Urls.id u, Urls.original_url u))
                  (map (pair a)
                     (filter (fun x => (Urls.id x =? Analytics.short_id a)%string)
                        (urls s))) = []).
    { apply filter_drops_all. intros j Ij.
      apply in_map_iff in Ij. destruct Ij as (x & <- & _).
      destruct (Sql.key_eqb _ _) eqn:K; [| reflexivity].
      apply key_eqb_eq in K. unfold Sql.group_key in K. simpl in K. congruence. }
    rewrite E. reflexivity.
Qed.

Lemma summary_ids_NoDup : NoDup (map Summary.short_id (Sql.summary_rows s)).
Proof.
  unfold Sql.summary_rows. rewrite map_map. simpl.
  apply NoDup_map_NoDup_ForallPairs; [| apply NoDup_nodup].
  intros k1 k2 I1 I2 E.
  apply group_keys_In in I1. destruct I1 as (a1 & u1 & _ & J1 & _ & ->).
  apply group_keys_In in I2. destruct I2 as (a2 & u2 & _ & J2 & _ & ->).
  simpl in E. rewrite (id_determines_row u1 u2 J1 J2 E). reflexivity.
Qed.

Lemma summary_ids_In (sid : string) :
  In sid (map Summary.short_id (Sql.summary_rows s)) <->
  (exists e, In e (analytics s) /\ Analytics.short_id e = sid) /\
  (exists u, In u (urls s) /\ Urls.id u = sid).
Proof.
  unfold Sql.summary_rows. rewrite map_map. simpl. rewrite in_map_iff. split.
  - intros (k & <- & I). apply group_keys_In in I.
    destruct I as (a & u & Ia & Iu & Q & ->). simpl. split; eauto.
  - intros ((e & Ie & Ee) & (u & Iu & Eu)).
    exists (Urls.id u, Urls.original_url u). split; [exact Eu |].
    apply group_keys_In. exists e, u. repeat split; auto. congruence.
Qed.

(** The aggregates of one row. *)
Lemma summary_row_spec (row : Summary.row) :
  In row (Sql.summary_rows s) ->
  let evs := Sql.clicks_of (Summary.short_id row) s in
  evs <> [] /\
  Summary.click_count row = length evs /\
  (exists t,
     Summary.last_clicked row = Some t /\
     greatest t (map Analytics.timestamp evs) /\
     exists r,
       Summary.latest_referrer row = Some r /\
       greatest r
         (map Analytics.referrer
            (filter (fun e => (Analytics.timestamp e =? t)%string) evs))) /\
  (exists t,
     Summary.first_clicked row = Some t /\
     least t (map Analytics.timestamp evs)) /\
  (exists c,
     Summary.country_code row = Some c /\
     greatest c (map Analytics.country_code evs)) /\
  (exists u,
     In u (urls s) /\ Urls.id u = Summary.short_id row /\
     Summary.original_url row = Urls.original_url u).
Proof.
  intros I evs. unfold Sql.summary_rows in I. apply in_map_iff in I.
  destruct I as (k & <- & I). apply group_keys_In in I.
  destruct I as (a & u & Ia & Iu & Q & ->).
  unfold Sql.summarize in *. simpl in *.
  rewrite (group_is_clicks u Iu). fold evs.
  assert (NE : evs <> []).
  { assert (J : In a evs) by (apply filter_In; split;
                               [exact Ia | apply String.eqb_eq; congruence]).
    intros Z. rewrite Z in J. destruct J. }
  destruct (MAX_column Analytics.timestamp evs NE) as (t & Et & Gt).
  destruct (MIN_column Analytics.timestamp evs NE) as (t' & Et' & Lt').
  destruct (MAX_column Analytics.country_code evs NE) as (c & Ec & Gc).
  split; [exact NE |]. split; [reflexivity |].
  split; [| split; [eauto | split; eauto]].
  exists t. split; [exact Et |]. split; [exact Gt |].
  (* the referrer among the events at the latest timestamp *)
  assert (C : forall e, In e evs ->
                Sql.referrer_if_latest s e
                = if (Analytics.timestamp e =? t)%string
                  then Some (Analytics.referrer e) else None).
  { intros e Ie. unfold Sql.referrer_if_latest, Sql.latest_timestamp.
    apply filter_In in Ie. destruct Ie as [_ Ee]. apply String.eqb_eq in Ee.
    rewrite Ee. fold evs. rewrite Et. reflexivity. }
  assert (M : forall x,
                In (Some x) (map (Sql.referrer_if_latest s) evs) <->
                In x (map Analytics.referrer
                        (filter (fun e => (Analytics.timestamp e =? t)%string) evs))).
  { intros x. rewrite !in_map_iff. split.
    - intros (e & E & Ie). rewrite (C e Ie) in E.
      destruct (Analytics.timestamp e =? t)%string eqn:T; [| discriminate].
      injection E as <-. exists e. split; [reflexivity |].
      apply filter_In. auto.
    - intros (e & <- & Ie). apply filter_In in Ie. destruct Ie as [Ie T].
      exists e. split; [| exact Ie]. rewrite (C e Ie), T. reflexivity. }
  pose proof (MAX_spec (map (Sql.referrer_if_latest s) evs)) as S.
  destruct (Sql.MAX (map (Sql.referrer_if_latest s) evs)) as [r |].
  - exists r. split; [reflexivity |]. destruct S as [Ir Ur]. split.
    + apply M, Ir.
    + intros x Ix. apply Ur, M, Ix.
  - exfalso. destruct Gt as [It _]. apply in_map_iff in It.
    destruct It as (e & Ee & Ie).
    apply (S (Analytics.referrer e)). apply M. apply in_map, filter_In.
    split; [exact Ie | apply String.eqb_eq, Ee].
Qed.

End SummaryFacts.

Lemma slice_In {A : Type} (n m : nat) (l : list A) (x : A) :
  In x (firstn n (skipn m l)) -> In x l.
Proof.
  intros I.
  rewrite <- (firstn_skipn m l). apply in_or_app. right.
  rewrite <- (firstn_skipn n (skipn m l)). apply in_or_app. left. exact I.
Qed.

Lemma limit_offset_In {A : Type} (limit offset : Z) (l : list A) (x : A) :
  In x (Sql.limit_offset limit offset l) -> In x l.
Proof.
  unfold Sql.limit_offset. destruct (limit <? 0)%Z.
  - intros I. rewrite <- (firstn_skipn (Z.to_nat offset) l).
    apply in_or_app. right. exact I.
  - apply slice_In.
Qed.

(** C2, as the code has it. Before ORDER BY and LIMIT, the summary query
    of the list operation has exactly one row per distinct [short_id]
    that has at least one ClickEvent and whose UrlRecord is stored (the
    join with [urls] is an inner join: an identifier whose record is
    gone has no row). In that row [click_count] is the number of events
    of the identifier, [last_clicked] and [first_clicked] are the
    largest and smallest of their timestamps, [latest_referrer] is the
    largest referrer among the events whose timestamp is the largest,
    hence the referrer of such an event, [country_code] is the largest
    country code over all the events, whenever recorded, and
    [original_url] is the destination of the UrlRecord. Every row of
    every page is one of these rows. *)
Theorem summary_one_row_per_recorded_id (s : Store) :
  NoDup (map Urls.id (urls s)) ->
  NoDup (map Summary.short_id (Sql.summary_rows s)) /\
  (forall sid,
     In sid (map Summary.short_id (Sql.summary_rows s)) <->
     (exists e, In e (analytics s) /\ Analytics.short_id e = sid) /\
     (exists u, In u (urls s) /\ Urls.id u = sid)) /\
  (forall row, In row (Sql.summary_rows s) ->
     let evs := Sql.clicks_of (Summary.short_id row) s in
     evs <> [] /\
     Summary.click_count row = length evs /\
     (exists t,
        Summary.last_clicked row = Some t /\
        greatest t (map Analytics.timestamp evs) /\
        exists r,
          Summary.latest_referrer row = Some r /\
          greatest r
            (map Analytics.referrer
               (filter (fun e => (Analytics.timestamp e =? t)%string) evs))) /\
     (exists t,
        Summary.first_clicked row = Some t /\
        least t (map Analytics.timestamp evs)) /\
     (exists c,
        Summary.country_code row = Some c /\
        greatest c (map Analytics.country_code evs)) /\
     (exists u,
        In u (urls s) /\ Urls.id u = Summary.short_id row /\
        Summary.original_url row = Urls.original_url u)) /\
  (forall o limit offset page,
     Sql.select_summary o (Js.Int limit) (Js.Int offset) s = inr page ->
     forall row, In row page -> In row (Sql.summary_rows s)).
Proof.
  intros PK. split; [exact (summary_ids_NoDup s PK) |].
  split; [intros sid; exact (summary_ids_In s sid) |].
  split; [intros row I; exact (summary_row_spec s PK row I) |].
  intros o limit offset page E row I. unfold Sql.select_summary in E.
  destruct (Sql.int64 limit && Sql.int64 offset); [| discriminate E].
  injection E as <-.
  apply limit_offset_In in I. rename I into J.
  eapply Permutation_in; [apply order_by_perm | exact J].
Qed.

(* ===================================================================== *)
(** ** GET /analytics                                                    *)
(* ===================================================================== *)

(** The total counts every identifier that has an event, once. *)
Lemma count_distinct_spec (s : Store) (ids : list string) :
  NoDup ids ->
  (forall x, In x ids <->
             exists e, In e (analytics s) /\ Analytics.short_id e = x) ->
  Sql.count_distinct_short_id s = length ids.
Proof.
  intros ND M. unfold Sql.count_distinct_short_id.
  apply Permutation_length, NoDup_Permutation; [apply NoDup_nodup | exact ND |].
  intros x. rewrite nodup_In, in_map_iff, M. split.
  - intros (e & E & I). eauto.
  - intros (e & I & E). eauto.
Qed.

(** Up to [Number.MAX_SAFE_INTEGER] the arithmetic of doubles is the
    arithmetic of integers, and the result is one of SQLite's. *)
Lemma double_safe (z : Z) :
  (- Js.MAX_SAFE_INTEGER <= z <= Js.MAX_SAFE_INTEGER)%Z -> Js.double z = Js.Int z.
Proof.
  intros B. unfold Js.double.
  destruct (Z.leb_spec (Z.abs z) Js.MAX_SAFE_INTEGER) as [_ | L]; [reflexivity |].
  lia.
Qed.

Lemma int64_safe (z : Z) :
  (- Js.MAX_SAFE_INTEGER <= z <= Js.MAX_SAFE_INTEGER)%Z -> Sql.int64 z = true.
Proof.
  unfold Js.MAX_SAFE_INTEGER, Sql.int64. intros B.
  apply andb_true_iff. split; apply Z.leb_le; lia.
Qed.

(** What the summary query answers, when it answers. *)
Lemma select_summary_rows (o : Sql.Order) (limit offset : Js.Num) (s : Store)
    (rows : list Summary.row) :
  Sql.select_summary o limit offset s = inr rows ->
  exists l f,
    limit = Js.Int l /\ offset = Js.Int f /\
    rows = Sql.limit_offset l f
             (Sql.order_by Summary.last_clicked o (Sql.summary_rows s)).
Proof.
  unfold Sql.select_summary. intros E.
  destruct limit as [| l |]; try discriminate E.
  destruct offset as [| f |]; try discriminate E.
  destruct (Sql.int64 l && Sql.int64 f); [| discriminate E].
  injection E as <-. eauto.
Qed.

(** Whether it answers does not depend on the direction. *)
Lemma select_summary_any_direction (o o' : Sql.Order) (limit offset : Js.Num)
    (s : Store) :
  match Sql.select_summary o limit offset s, Sql.select_summary o' limit offset s with
  | inl e, inl e' => e = e'
  | inr _, inr _ => True
  | _, _ => False
  end.
Proof.
  unfold Sql.select_summary.
  destruct limit as [| l |]; try reflexivity.
  destruct offset as [| f |]; try reflexivity.
  destruct (Sql.int64 l && Sql.int64 f); [exact I | reflexivity].
Qed.

Lemma limit_offset_sorted {A : Type} (R : A -> A -> Prop) (limit offset : Z)
    (l : list A) :
  StronglySorted R l -> StronglySorted R (Sql.limit_offset limit offset l).
Proof.
  intros S. unfold Sql.limit_offset. destruct (limit <? 0)%Z.
  - rewrite <- (firstn_all (skipn (Z.to_nat offset) l)).
    apply StronglySorted_slice, S.
  - apply StronglySorted_slice, S.
Qed.

Section ListFacts.
Context `{Runtime}.

Variables (req : ListReq.t) (p l : Z).
Hypothesis Hpage : parseInt (Js.or (ListReq.page req) "1") = Js.Int p.
Hypothesis Hlimit : parseInt (Js.or (ListReq.limit req) "50") = Js.Int l.

Lemma effective_page_num : effective_page req = Js.Int (Z.max 1 p).
Proof. unfold effective_page. rewrite Hpage. reflexivity. Qed.

Lemma effective_limit_num : effective_limit req = Js.Int (Z.max 1 (Z.min l 500)).
Proof. unfold effective_limit. rewrite Hlimit. reflexivity. Qed.



(** The offset is a safe integer: neither the subtraction nor the
    multiplication rounds. *)
Hypothesis Hsafe :
  ((Z.max 1 p - 1) * Z.max 1 (Z.min l 500) <= Js.MAX_SAFE_INTEGER)%Z.

Lemma effective_offset_num :
  effective_offset req = Js.Int ((Z.max 1 p - 1) * Z.max 1 (Z.min l 500)).
Proof.
  unfold effective_offset. rewrite effective_page_num, effective_limit_num.
  unfold Js.sub, Js.mul.
  rewrite double_safe by (unfold Js.MAX_SAFE_INTEGER in *; nia).
  apply double_safe. unfold Js.MAX_SAFE_INTEGER in *. nia.
Qed.

Lemma list_run (env : Env) (s : Store) :
  authorized env (ListReq.authorization req) ->
  healthy env ->
  let page := Z.max 1 p in
  let limit := Z.max 1 (Z.min l 500) in
  list_analytics req env (start s)
  = (Returned
       (json (Page (Js.Int page) (Js.Int limit) (effective_sort req)
                (Sql.count_distinct_short_id s)
                (firstn (Z.to_nat limit)
                   (skipn (Z.to_nat ((page - 1) * limit))
                      (Sql.order_by Summary.last_clicked (effective_sort req)
                         (Sql.summary_rows s))))) 200),
     {| db := s;
        sent := [CountDistinctShortId;
                 SelectSummary (effective_sort req) (Js.Int limit)
                   (Js.Int ((page - 1) * limit))] |}).
Proof.
  intros A Up page limit. unfold list_analytics, bind, ask.
  unfold authorized in A. rewrite A.
  rewrite effective_page_num, effective_limit_num, effective_offset_num.
  fold page limit.
  assert (Q : Sql.select_summary (effective_sort req) (Js.Int limit)
                (Js.Int ((page - 1) * limit)) s
              = inr (firstn (Z.to_nat limit)
                       (skipn (Z.to_nat ((page - 1) * limit))
                          (Sql.order_by Summary.last_clicked (effective_sort req)
                             (Sql.summary_rows s))))).
  { unfold Sql.select_summary.
    rewrite !int64_safe
      by (unfold page, limit, Js.MAX_SAFE_INTEGER in *; nia).
    cbn [andb]. rewrite limit_offset_eq by (unfold limit; lia). reflexivity. }
  unfold send. cbn [start db sent length app effect].
  rewrite (Up 0%nat). cbn [db sent length app effect].
  rewrite (Up 1%nat), Q. reflexivity.
Qed.

End ListFacts.

Section ListAnswers.
Context `{Runtime}.

(** The status of a list answer, whatever the request. *)
Lemma list_status (req : ListReq.t) (env : Env) (s : Store) :
  status (response_of (list_analytics req) env s)
  = match check_auth (API_KEY env) (ListReq.authorization req) with
    | Some rejection => status rejection
    | None =>
        if down env 0 || down env 1 then 500%nat
        else match Sql.select_summary Sql.DESC (effective_limit req)
                     (effective_offset req) s with
             | inl _ => 500%nat
             | inr _ => 200%nat
             end
    end.
Proof.
  unfold response_of, list_analytics, bind, ask.
  destruct (check_auth (API_KEY env) (ListReq.authorization req)); [reflexivity |].
  unfold send. cbn [start db sent length app effect].
  destruct (down env 0); [reflexivity |]. cbn [db sent length app effect orb].
  destruct (down env 1); [reflexivity |].
  pose proof (select_summary_any_direction (effective_sort req) Sql.DESC
                (effective_limit req) (effective_offset req) s) as D.
  destruct (Sql.select_summary (effective_sort req) (effective_limit req)
              (effective_offset req) s),
           (Sql.select_summary Sql.DESC (effective_limit req)
              (effective_offset req) s); try contradiction; reflexivity.
Qed.

(** A list answer that is a page is the handler's last line. *)
Lemma list_page_inv (req : ListReq.t) (env : Env) (s : Store)
    (page limit : Js.Num) (sort : Sql.Order) (total : nat)
    (data : list Summary.row) :
  response_of (list_analytics req) env s = json (Page page limit sort total data) 200 ->
  page = effective_page req /\ limit = effective_limit req /\
  sort = effective_sort req /\ total = Sql.count_distinct_short_id s /\
  Sql.select_summary sort limit (effective_offset req) s = inr data.
Proof.
  unfold response_of, list_analytics, bind, ask.
  destruct (check_auth (API_KEY env) (ListReq.authorization req)) as [r |] eqn:C.
  - unfold ret. cbn [fst respond]. intros E. subst r. unfold check_auth in C.
    destruct (Js.truthy (ListReq.authorization req)); [| discriminate C].
    destruct (negb (Text.startsWith "Bearer " s0)); [discriminate C |].
    destruct (nth_error (Text.split " " s0) 1); [| discriminate C].
    destruct (s1 =? API_KEY env)%string; discriminate C.
  - unfold send. cbn [start db sent length app effect].
    destruct (down env 0); [discriminate |]. cbn [db sent length app effect].
    destruct (down env 1); [discriminate |].
    destruct (Sql.select_summary (effective_sort req) (effective_limit req)
                (effective_offset req) s) as [e | rows] eqn:Q; [discriminate |].
    cbn [fst respond rows_or_none]. unfold json. intros E.
    injection E as <- <- <- <- <-. repeat split; try reflexivity. exact Q.
Qed.

End ListAnswers.


(** C10. Whatever the [sort] parameter of a list request is, the request
    is not rejected for it: the status of the answer is the status the
    request has with any other [sort]. When the answer is a page, its
    rows are ordered ascending exactly when the lower-cased parameter is
    "asc", as for "ASC"; for every other value, as for "random", the
    empty string or no parameter at all, they are ordered descending.
    And the answer is a page whenever the request has the credential,
    the store is up, and [page] and [limit] read as integers with a safe
    offset. *)
Theorem list_sort_defaults_to_desc `{Runtime} (req : ListReq.t) (env : Env)
    (s : Store) :
  (forall req2,
     ListReq.authorization req2 = ListReq.authorization req ->
     ListReq.page req2 = ListReq.page req ->
     ListReq.limit req2 = ListReq.limit req ->
     status (response_of (list_analytics req2) env s)
     = status (response_of (list_analytics req) env s)) /\
  (forall page limit sort total data,
     response_of (list_analytics req) env s
     = json (Page page limit sort total data) 200 ->
     ordered Summary.last_clicked sort data /\
     (Text.toLowerCase (Js.or (ListReq.sort req) "desc") = "asc" -> sort = Sql.ASC) /\
     (Text.toLowerCase (Js.or (ListReq.sort req) "desc") <> "asc" -> sort = Sql.DESC) /\
     (ListReq.sort req = None \/ ListReq.sort req = Some "" \/
      ListReq.sort req = Some "random" \/ ListReq.sort req = Some "desc" ->
      sort = Sql.DESC) /\
     (ListReq.sort req = Some "ASC" \/ ListReq.sort req = Some "asc" \/
      ListReq.sort req = Some "Asc" ->
      sort = Sql.ASC)) /\
  (forall p l,
     authorized env (ListReq.authorization req) ->
     healthy env ->
     parseInt (Js.or (ListReq.page req) "1") = Js.Int p ->
     parseInt (Js.or (ListReq.limit req) "50") = Js.Int l ->
     ((Z.max 1 p - 1) * Z.max 1 (Z.min l 500) <= Js.MAX_SAFE_INTEGER)%Z ->
     exists page limit sort total data,
       response_of (list_analytics req) env s
       = json (Page page limit sort total data) 200).
Proof.
  split; [| split].
  - intros req2 Ea Ep El. rewrite !list_status.
    unfold effective_limit, effective_offset, effective_page, effective_limit.
    rewrite Ea, Ep, El. reflexivity.
  - intros page limit sort total data R.
    apply list_page_inv in R. destruct R as (_ & _ & -> & _ & Q).
    apply select_summary_rows in Q. destruct Q as (lz & fz & _ & _ & ->).
    split; [apply limit_offset_sorted, order_by_ordered |].
    unfold effective_sort.
    split; [intros ->; reflexivity |].
    split.
    + intros N. destruct (String.eqb_spec
                            (Text.toLowerCase (Js.or (ListReq.sort req) "desc")) "asc");
        [contradiction | reflexivity].
    + split.
      * intros [-> | [-> | [-> | ->]]]; reflexivity.
      * intros [-> | [-> | ->]]; reflexivity.
  - intros p l A Up Hp Hl Safe.
    pose proof (list_run req p l Hp Hl Safe env s A Up) as E.
    destruct (run_parts _ _ _ _ _ E) as (R & _).
    do 5 eexists. exact R.
Qed.

Lemma sample_primary_key : NoDup (map Urls.id (urls Sample.store)).
Proof. apply sample_well_formed. Qed.

Lemma summary_one_row_per_recorded_id_witness :
  NoDup (map Summary.short_id (Sql.summary_rows Sample.store)) /\
  In "abc1234" (map Summary.short_id (Sql.summary_rows Sample.store)) /\
  forall row, In row (Sql.summary_rows Sample.store) ->
    Summary.short_id row = "abc1234" ->
    Summary.click_count row = 3%nat /\
    Summary.country_code row = Some "US" /\
    Summary.latest_referrer row = Some "https://c.example".
Proof.
  destruct (summary_one_row_per_recorded_id Sample.store sample_primary_key)
    as (ND & M & _ & _).
  split; [exact ND |]. split.
  - apply M. split.
    + exists (Sample.click 1 "abc1234" "US" "https://a.example" "2025-04-02 08:00:00").
      simpl. auto.
    + exists (Sample.record "abc1234" "https://example.com"). simpl. auto.
  - intros row I. vm_compute in I.
    destruct I as [<- | [<- | []]]; simpl; intros E;
      first [discriminate E | repeat split].
Defined.

(** C2, as stated, fails: the identifier "gone" has a ClickEvent and no
    UrlRecord (the state a purge leaves when it runs between the lookup
    and the insert of a redirect). It is one of the three identifiers
    [total] counts, and the summary has no row for it. *)
Lemma click_without_record_has_no_row :
  let req := {| ListReq.authorization := Sample.bearer; ListReq.page := None;
                ListReq.limit := None; ListReq.sort := None |} in
  (exists e, In e (analytics Sample.store) /\ Analytics.short_id e = "gone") /\
  ~ In "gone" (map Summary.short_id (Sql.summary_rows Sample.store)) /\
  exists data,
    response_of (@list_analytics Sample.runtime req) Sample.env Sample.store
    = json (Page (Js.Int 1) (Js.Int 50) Sql.DESC 3 data) 200 /\
    map Summary.short_id data = ["abc1234"; "docs"].
Proof.
  intros req. split; [| split].
  - exists (Sample.click 4 "gone" "IN" "" "2025-04-05 08:00:00"). simpl. auto 10.
  - simpl. intros [E | [E | []]]; discriminate.
  - eexists. split; reflexivity.
Qed.



Lemma list_sort_defaults_to_desc_witness :
  let req := {| ListReq.authorization := Sample.bearer; ListReq.page := None;
                ListReq.limit := None; ListReq.sort := Some "ASC" |} in
  exists page limit total data,
    response_of (@list_analytics Sample.runtime req) Sample.env Sample.store
    = json (Page page limit Sql.ASC total data) 200.
Proof.
  intros req.
  destruct (@list_sort_defaults_to_desc Sample.runtime req Sample.env Sample.store)
    as (_ & D & P).
  destruct (P 1%Z 50%Z (authorized_sample _) (sample_healthy _) eq_refl eq_refl)
    as (page & limit & sort & total & data & R).
  - vm_compute. discriminate.
  - destruct (D page limit sort total data R) as (_ & _ & _ & _ & Asc).
    rewrite (Asc (or_introl eq_refl)) in R.
    exists page, limit, total, data. exact R.
Defined.

(* ===================================================================== *)
(** ** What every request leaves in place                                *)
(* ===================================================================== *)

Section Keeps.
Context {I : Store -> Prop}.

Lemma keeps_ret {A : Type} (a : A) : keeps I (ret a).
Proof. intros env w K. exact K. Qed.

Lemma keeps_ask : keeps I ask.
Proof. intros env w K. exact K. Qed.

Lemma keeps_bind {A B : Type} (m : Run A) (k : A -> Run B) :
  keeps I m -> (forall a, keeps I (k a)) -> keeps I (bind m k).
Proof.
  intros Km Kk env w K. unfold bind.
  specialize (Km env w K).
  destruct (m env w) as [[a | e] w']; simpl in *.
  - apply Kk, Km.
  - exact Km.
Qed.

Lemma keeps_try_catch {A : Type} (m : Run A) (h : Sql.Error -> Run A) :
  keeps I m -> (forall e, keeps I (h e)) -> keeps I (try_catch m h).
Proof.
  intros Km Kh env w K. unfold try_catch.
  specialize (Km env w K).
  destruct (m env w) as [[a | e] w']; simpl in *.
  - exact Km.
  - apply Kh, Km.
Qed.

Lemma keeps_send {A : Type} (q : Stmt) (result : Store -> A) :
  (forall env s s', effect env q s = inr s' -> I s -> I s') ->
  keeps I (send q result).
Proof.
  intros E env w K. unfold send.
  destruct (down env (length (sent w))); [exact K |].
  destruct (effect env q (db w)) as [e | s'] eqn:Q; simpl; [exact K |].
  exact (E env (db w) s' Q K).
Qed.

Lemma keeps_batch (qs : list Stmt) :
  (forall env n s s', transact env n qs s = inr s' -> I s -> I s') ->
  keeps I (batch qs).
Proof.
  intros E env w K. unfold batch.
  destruct (transact env (length (sent w)) qs (db w)) as [e | s'] eqn:Q;
    simpl; [exact K |].
  exact (E env _ (db w) s' Q K).
Qed.

End Keeps.

Lemma delete_urls_well_formed (ids : list string) (s : Store) :
  well_formed s -> well_formed (Sql.delete_urls ids s).
Proof.
  intros [PK U]. split; simpl.
  - clear U. induction (urls s) as [| x l IH]; simpl; [constructor |].
    inversion PK as [| ? ? NI PK']; subst.
    destruct (negb (Sql.mem (Urls.id x) ids)); simpl; [| auto].
    constructor; [| auto].
    intros J. apply NI. apply in_map_iff in J. destruct J as (y & Ey & Iy).
    apply filter_In in Iy. rewrite <- Ey. apply in_map, Iy.
  - rewrite Forall_forall in *. intros x Ix. apply filter_In in Ix. apply U, Ix.
Qed.

(** A statement other than an INSERT of an empty destination leaves the
    [urls] table well formed. *)
Lemma effect_well_formed (env : Env) (q : Stmt) (s s' : Store) :
  (forall i u, q = InsertUrl i u -> u <> "") ->
  effect env q s = inr s' -> well_formed s -> well_formed s'.
Proof.
  intros NE E W. destruct q; cbn [effect] in E;
    try (injection E as <-; destruct W; split; assumption).
  - (* InsertUrl *)
    destruct W as [PK U]. unfold Sql.insert_url in E.
    destruct (existsb _ (urls s)) eqn:X; [discriminate |].
    injection E as <-. split; simpl.
    + rewrite map_app. simpl.
      apply (Permutation_NoDup (Permutation_cons_append _ _)).
      constructor; [| exact PK].
      intros J. apply in_map_iff in J. destruct J as (r & Er & Ir).
      assert (T : existsb (fun u0 => (Urls.id u0 =? id)%string) (urls s) = true).
      { apply existsb_exists. exists r. split; [exact Ir | apply String.eqb_eq, Er]. }
      congruence.
    + apply Forall_app. split; [exact U |].
      constructor; [simpl; exact (NE id url eq_refl) | constructor].
  - (* SelectSummary *)
    destruct (Sql.select_summary sort limit offset s); [discriminate |].
    injection E as <-. exact W.
  - (* DeleteClicks *)
    destruct (length ids <=? Sql.MAX_BOUND_PARAMETERS)%nat; [| discriminate].
    injection E as <-. destruct W; split; assumption.
  - (* DeleteUrls *)
    destruct (length ids <=? Sql.MAX_BOUND_PARAMETERS)%nat; [| discriminate].
    injection E as <-. apply delete_urls_well_formed, W.
Qed.

(** A statement other than an INSERT into [analytics] or a DELETE from
    [urls] leaves every event with its record. *)
Lemma effect_keeps_records (env : Env) (q : Stmt) (s s' : Store) :
  (forall sid ip ua cc ref, q <> InsertClick sid ip ua cc ref) ->
  (forall ids, q <> DeleteUrls ids) ->
  effect env q s = inr s' ->
  every_click_has_record s -> every_click_has_record s'.
Proof.
  intros NI ND E K. destruct q; cbn [effect] in E;
    try (injection E as <-; exact K).
  - unfold Sql.insert_url in E.
    destruct (existsb _ (urls s)); [discriminate |].
    injection E as <-. intros e Ie. simpl in *.
    destruct (K e Ie) as (u & Iu & Eu). exists u. split; [| exact Eu].
    apply in_or_app. auto.
  - destruct (NI short_id ip user_agent country_code referrer eq_refl).
  - destruct (Sql.select_summary sort limit offset s); [discriminate |].
    injection E as <-. exact K.
  - destruct (length ids <=? Sql.MAX_BOUND_PARAMETERS)%nat; [| discriminate].
    injection E as <-. intros e Ie. simpl in *.
    apply filter_In in Ie. apply K, Ie.
  - destruct (ND ids eq_refl).
Qed.

Ltac keeps_step :=
  first [ apply keeps_ret | apply keeps_ask
        | apply keeps_bind; [| intro]
        | apply keeps_try_catch; [| intro] ].

Ltac keeps_select :=
  apply keeps_send; intros ? ? ? E ?;
  first [ eapply effect_well_formed; [| exact E | assumption];
          intros ? ? Q; discriminate Q
        | eapply effect_keeps_records; [| | exact E | assumption];
          intros; discriminate ].

Section HandlersKeep.
Context `{Runtime}.

Lemma create_keeps_well_formed (req : CreateReq.t) :
  keeps well_formed (create req).
Proof.
  unfold create.
  destruct (Js.truthy (CreateReq.url req)) as [url |] eqn:T; [| keeps_step].
  apply truthy_inv in T. destruct T as [_ NE].
  destruct (negb (isValidUrl url)); [keeps_step |].
  assert (K : forall c, keeps well_formed
                          (create_insert (CreateReq.origin req) url c)).
  { intros c. unfold create_insert. repeat keeps_step.
    apply keeps_send. intros env s s' E W.
    eapply effect_well_formed; [| exact E | exact W].
    intros i u Q. injection Q as _ <-. exact NE. }
  destruct (Js.truthy (CreateReq.custom_id req)); keeps_step;
    try keeps_select; destruct a; first [apply K | keeps_step].
Qed.

Lemma create_keeps_records (req : CreateReq.t) :
  keeps every_click_has_record (create req).
Proof.
  unfold create.
  destruct (Js.truthy (CreateReq.url req)) as [url |]; [| keeps_step].
  destruct (negb (isValidUrl url)); [keeps_step |].
  assert (K : forall c, keeps every_click_has_record
                          (create_insert (CreateReq.origin req) url c)).
  { intros c. unfold create_insert. repeat keeps_step. keeps_select. }
  destruct (Js.truthy (CreateReq.custom_id req)); keeps_step;
    try keeps_select; destruct a; first [apply K | keeps_step].
Qed.

Lemma list_keeps (I : Store -> Prop) (req : ListReq.t) :
  keeps I (list_analytics req).
Proof.
  unfold list_analytics. keeps_step; [keeps_step |].
  destruct (check_auth _ _); [keeps_step |].
  keeps_step; [| keeps_step; [| keeps_step]];
    apply keeps_send; intros env s s' E K; simpl in E.
  - injection E as <-. exact K.
  - destruct (Sql.select_summary _ _ _ s); [discriminate |].
    injection E as <-. exact K.
Qed.

End HandlersKeep.

Lemma detail_keeps (I : Store -> Prop) (req : DetailReq.t) :
  keeps I (detail req).
Proof.
  unfold detail. keeps_step; [keeps_step |].
  destruct (check_auth _ _); [keeps_step |].
  keeps_step; [| keeps_step; [| keeps_step]];
    apply keeps_send; intros env s s' E K; simpl in E;
    injection E as <-; exact K.
Qed.

Lemma both_deleted_well_formed (ids : list string) (s : Store) :
  well_formed s -> well_formed (both_deleted ids s).
Proof.
  intros [PK U]. apply delete_urls_well_formed. split; assumption.
Qed.

(** Purge removes the events together with the records, so no event is
    left behind without its record. *)
Lemma both_deleted_keeps_records (ids : list string) (s : Store) :
  every_click_has_record s -> every_click_has_record (both_deleted ids s).
Proof.
  intros K e Ie. unfold both_deleted in *. simpl in *.
  apply filter_In in Ie. destruct Ie as [Ie N].
  destruct (K e Ie) as (u & Iu & Eu). exists u. split; [| exact Eu].
  apply filter_In. split; [exact Iu |]. rewrite Eu. exact N.
Qed.

Lemma purge_keeps (I : Store -> Prop) (req : PurgeReq.t) :
  (forall ids s, I s -> I (both_deleted ids s)) ->
  keeps I (purge req).
Proof.
  intros D. unfold purge. keeps_step; [keeps_step |].
  destruct (check_auth _ _); [keeps_step |].
  destruct (PurgeReq.ids req) as [[| i ids] |]; try keeps_step.
  - apply keeps_batch. intros env n s s' E K.
    destruct (transact_purge_cases env n (i :: ids) s) as [T | [e T]];
      rewrite T in E; [| discriminate].
    injection E as <-. apply D, K.
  - keeps_step.
Qed.

Lemma redirect_keeps_well_formed (req : RedirectReq.t) :
  keeps well_formed (redirect_to req).
Proof.
  unfold redirect_to. keeps_step; [keeps_select |].
  unfold redirect_finish. destruct a; repeat keeps_step. keeps_select.
Qed.

(** The event is written for an identifier the lookup has just found. *)
Lemma redirect_keeps_records (req : RedirectReq.t) (env : Env) (s : Store) :
  every_click_has_record s ->
  every_click_has_record (store_after (redirect_to req) env s).
Proof.
  intros K. unfold store_after, redirect_to, redirect_finish, bind, send. simpl.
  destruct (down env 0); [exact K |].
  destruct (Sql.url_by_id (RedirectReq.id req) s) as [r |] eqn:F; simpl; [| exact K].
  destruct (down env 1); simpl; [exact K |].
  apply url_by_id_some in F. destruct F as [Ir Er].
  intros e Ie. apply in_app_or in Ie. destruct Ie as [Ie | [<- | []]].
  - apply K, Ie.
  - exists r. simpl. auto.
Qed.

Lemma keeps_store_after (I : Store -> Prop) (h : Run Response) (env : Env)
    (s : Store) :
  keeps I h -> I s -> I (store_after h env s).
Proof. intros K Hs. exact (K env (start s) Hs). Qed.

(** X8. The invariant of the data model: in every database the
    application reaches from the empty one by serving one request after
    the other, [urls.id] is unique, no destination is empty, and no
    event is without its record. *)
Theorem reachable_invariant `{Runtime} (s : Store) :
  reachable s -> well_formed s /\ every_click_has_record s.
Proof.
  induction 1 as [| s s' R [W K] S].
  - split; [split; constructor | intros e []].
  - destruct S; split.
    + apply keeps_store_after; [apply create_keeps_well_formed | exact W].
    + apply keeps_store_after; [apply create_keeps_records | exact K].
    + apply keeps_store_after; [apply list_keeps | exact W].
    + apply keeps_store_after; [apply list_keeps | exact K].
    + apply keeps_store_after; [| exact W].
      apply purge_keeps. intros ids s0. apply both_deleted_well_formed.
    + apply keeps_store_after; [| exact K].
      apply purge_keeps. intros ids s0. apply both_deleted_keeps_records.
    + apply keeps_store_after; [apply detail_keeps | exact W].
    + apply keeps_store_after; [apply detail_keeps | exact K].
    + apply keeps_store_after; [apply redirect_keeps_well_formed | exact W].
    + apply redirect_keeps_records, K.
Qed.

(** Where no event is without its record, the summary has a row for
    every identifier with an event, and [total] is the number of rows. *)
Lemma summary_covers_clicked_ids (s : Store) :
  NoDup (map Urls.id (urls s)) ->
  every_click_has_record s ->
  (forall sid,
     In sid (map Summary.short_id (Sql.summary_rows s)) <->
     exists e, In e (analytics s) /\ Analytics.short_id e = sid) /\
  Sql.count_distinct_short_id s = length (Sql.summary_rows s).
Proof.
  intros PK K.
  assert (M : forall sid,
            In sid (map Summary.short_id (Sql.summary_rows s)) <->
            exists e, In e (analytics s) /\ Analytics.short_id e = sid).
  { intros sid. rewrite summary_ids_In. split; [tauto |].
    intros (e & Ie & Ee). split; [eauto |].
    destruct (K e Ie) as (u & Iu & Eu). exists u. split; congruence. }
  split; [exact M |].
  rewrite <- (length_map Summary.short_id).
  apply count_distinct_spec; [apply summary_ids_NoDup, PK | exact M].
Qed.

(** A purge served between the lookup and the insert of a redirect: the
    redirect is answered, and its event is left without a record. *)
Example purge_inside_redirect :
  let req := {| RedirectReq.id := "docs"; RedirectReq.cf_connecting_ip := None;
                RedirectReq.user_agent := None; RedirectReq.cf_ipcountry := None;
                RedirectReq.referer := None |} in
  let other := {| PurgeReq.authorization := Sample.bearer;
                  PurgeReq.ids := Some ["docs"] |} in
  let run := (result <- send (SelectOriginalUrlById "docs") (Sql.url_by_id "docs") ;;
              purge other ;;
              redirect_finish req result) in
  let s := {| urls := [Sample.record "docs" "https://example.org/docs"];
              analytics := []; analytics_seq := 0 |} in
  every_click_has_record s /\
  response_of run Sample.env s = redirect "https://example.org/docs" 302 /\
  urls (store_after run Sample.env s) = [] /\
  map Analytics.short_id (analytics (store_after run Sample.env s)) = ["docs"].
Proof.
  repeat split. intros e [].
Qed.

(** Two creations racing for one custom id: the second finds the id free
    at its lookup, the first inserts, and the insert of the second is
    answered 500. *)
Example custom_id_race :
  let first := Sample.create_req "https://example.com/a" (Some "promo") in
  let s := store_after (@create Sample.runtime first) Sample.env empty_store in
  Sql.url_by_id "promo" empty_store = None /\
  create_insert "https://s.example" "https://example.com/b" (Some "promo")
    Sample.env {| db := s; sent := [SelectIdById "promo"] |}
  = (Returned (text "Internal Server Error" 500),
     {| db := s;
        sent := [SelectIdById "promo"; InsertUrl "promo" "https://example.com/b"] |}).
Proof.
  split; reflexivity.
Qed.

(* ===================================================================== *)
(** ** Concrete runs                                                     *)
(* ===================================================================== *)

Example split_authorization :
  Text.split " " "Bearer secret extra" = ["Bearer"; "secret"; "extra"].
Proof. reflexivity. Qed.

Example lower_mixed_case : Text.toLowerCase "AsC" = "asc".
Proof. reflexivity. Qed.

Example wrong_key_is_rejected :
  check_auth "secret" (Some "Bearer guess") = Some (text "Unauthorized" 401).
Proof. reflexivity. Qed.

Example no_bearer_is_rejected :
  check_auth "secret" (Some "secret")
  = Some (json (ErrorJson "Unauthorized: Missing or invalid token") 401).
Proof. reflexivity. Qed.

(** The empty custom id is no custom id. *)
Example empty_custom_id_is_none :
  response_of (@create Sample.runtime (Sample.create_req "https://example.com" (Some "")))
    Sample.env Sample.store
  = json (Created "https://s.example/abc1234" true) 200.
Proof. reflexivity. Qed.

Example first_creation :
  @create Sample.runtime (Sample.create_req "https://example.com" None)
    Sample.env (start empty_store)
  = (Returned (json (Created "https://s.example/abc1234" false) 200),
     {| db := {| urls := [ {| Urls.id := "abc1234";
                              Urls.original_url := "https://example.com";
                              Urls.created_at := "2025-05-01 10:00:00" |} ];
                 analytics := []; analytics_seq := 0 |};
        sent := [SelectIdByOriginalUrl "https://example.com";
                 InsertUrl "abc1234" "https://example.com"] |}).
Proof. reflexivity. Qed.

(** A limit that is no number reaches the store as such, and the query
    fails. *)
Example limit_not_a_number :
  let req := {| ListReq.authorization := Sample.bearer; ListReq.page := None;
                ListReq.limit := Some "many"; ListReq.sort := None |} in
  @effective_limit Sample.runtime req = Js.NaN /\
  fst (@list_analytics Sample.runtime req Sample.env (start Sample.store))
  = Thrown Sql.DatatypeMismatch.
Proof. split; reflexivity. Qed.

(** The second page of one row, oldest first. *)
Example second_page_ascending :
  let req := {| ListReq.authorization := Sample.bearer; ListReq.page := Some "2";
                ListReq.limit := Some "1"; ListReq.sort := Some "asc" |} in
  exists data,
    response_of (@list_analytics Sample.runtime req) Sample.env Sample.store
    = json (Page (Js.Int 2) (Js.Int 1) Sql.ASC 3 data) 200 /\
    map Summary.short_id data = ["abc1234"] /\
    map Summary.country_code data = [Some "US"] /\
    map Summary.latest_referrer data = [Some "https://c.example"].
Proof. eexists. repeat split. Qed.

Example unknown_identifier :
  let req := {| RedirectReq.id := "nope"; RedirectReq.cf_connecting_ip := None;
                RedirectReq.user_agent := None; RedirectReq.cf_ipcountry := None;
                RedirectReq.referer := None |} in
  redirect_to req Sample.env (start Sample.store)
  = (Returned (text "Not found" 404),
     {| db := Sample.store; sent := [SelectOriginalUrlById "nope"] |}).
Proof. reflexivity. Qed.

(* ===================================================================== *)
(** ** The credential check                                              *)
(* ===================================================================== *)

Lemma append_assoc (a b c : string) : ((a ++ b) ++ c = a ++ (b ++ c))%string.
Proof. induction a as [| x a IH]; simpl; [reflexivity | rewrite IH; reflexivity]. Qed.

Lemma append_empty_r (a : string) : (a ++ "" = a)%string.
Proof. induction a as [| x a IH]; simpl; [reflexivity | rewrite IH; reflexivity]. Qed.

Lemma prefix_app (p s : string) :
  String.prefix p s = true <-> exists t, s = (p ++ t)%string.
Proof.
  revert s. induction p as [| a p IH]; intros s.
  - split; [intros _; exists s; reflexivity | destruct s; reflexivity].
  - destruct s as [| b s]; simpl;
      [split; [discriminate | intros (t & E); discriminate] |].
    destruct (Ascii.ascii_dec a b) as [-> | N].
    + rewrite IH. split; intros (t & E); exists t; congruence.
    + split; [discriminate |]. intros (t & E). congruence.
Qed.

(** The first piece of a split has no separator in it, and the string
    is that piece, alone or followed by a separator and the rest. *)
Lemma split_first (c : ascii) (s : string) :
  exists h t,
    Text.split c s = h :: t /\
    ~ In c (list_ascii_of_string h) /\
    (s = h \/ exists r, s = (h ++ String c r)%string).
Proof.
  induction s as [| a s (h & t & E & N & S)]; simpl.
  - exists "", []. repeat split; auto.
  - destruct (Ascii.eqb_spec a c) as [-> | Q].
    + exists "", (Text.split c s). repeat split; [intros [] |].
      right. exists s. reflexivity.
    + rewrite E. exists (String a h), t. repeat split.
      * simpl. intros [K | K]; [congruence | contradiction].
      * destruct S as [-> | (r & ->)]; [left | right; exists r]; reflexivity.
Qed.

Lemma split_alone (c : ascii) (k : string) :
  ~ In c (list_ascii_of_string k) -> Text.split c k = [k].
Proof.
  induction k as [| a k IH]; simpl; intros N; [reflexivity |].
  destruct (Ascii.eqb_spec a c) as [-> | Q]; [destruct N; auto |].
  rewrite IH by tauto. reflexivity.
Qed.

Lemma split_at_separator (c : ascii) (k r : string) :
  ~ In c (list_ascii_of_string k) ->
  Text.split c (k ++ String c r) = k :: Text.split c r.
Proof.
  induction k as [| a k IH]; simpl; intros N.
  - rewrite Ascii.eqb_refl. reflexivity.
  - destruct (Ascii.eqb_spec a c) as [-> | Q]; [destruct N; auto |].
    rewrite IH by tauto. reflexivity.
Qed.

Lemma split_bearer (t : string) :
  Text.split " " ("Bearer " ++ t) = "Bearer" :: Text.split " " t.
Proof. exact (split_at_separator " " "Bearer" t ltac:(simpl; intuition discriminate)). Qed.

(** X1. A request to one of the three analytics routes whose
    [authorization] header the credential check rejects is answered
    with that rejection, status 401, before anything else happens: no
    statement is sent and the database is as it was, whatever the
    request asks for and whatever the condition of the store. *)
Theorem unauthorized_sends_nothing `{Runtime} (env : Env) (hdr : option string)
    (rejection : Response) :
  check_auth (API_KEY env) hdr = Some rejection ->
  status rejection = 401%nat /\
  error_kind rejection = Some Unauthorized /\
  (forall req w, ListReq.authorization req = hdr ->
     list_analytics req env w = (Returned rejection, w)) /\
  (forall req w, PurgeReq.authorization req = hdr ->
     purge req env w = (Returned rejection, w)) /\
  (forall req w, DetailReq.authorization req = hdr ->
     detail req env w = (Returned rejection, w)).
Proof.
  intros R.
  assert (S : status rejection = 401%nat).
  { unfold check_auth in R.
    destruct (Js.truthy hdr) as [h |]; [| injection R as <-; reflexivity].
    destruct (negb (Text.startsWith "Bearer " h)); [injection R as <-; reflexivity |].
    destruct (nth_error (Text.split " " h) 1) as [k |];
      [| injection R as <-; reflexivity].
    destruct (k =? API_KEY env)%string; [discriminate | injection R as <-; reflexivity]. }
  split; [exact S |]. split; [unfold error_kind; rewrite S; reflexivity |].
  repeat split; intros req w E.
  - unfold list_analytics, bind, ask. rewrite E, R. reflexivity.
  - unfold purge, bind, ask. rewrite E, R. reflexivity.
  - unfold detail, bind, ask. rewrite E, R. reflexivity.
Qed.

Lemma unauthorized_sends_nothing_witness :
  let req := {| PurgeReq.authorization := Some "Bearer guess";
                PurgeReq.ids := Some ["abc1234"] |} in
  purge req Sample.env (start Sample.store)
  = (Returned (text "Unauthorized" 401), start Sample.store).
Proof.
  intros req.
  destruct (@unauthorized_sends_nothing Sample.runtime Sample.env
              (Some "Bearer guess") (text "Unauthorized" 401) eq_refl)
    as (_ & _ & _ & P & _).
  apply P. reflexivity.
Defined.

Lemma check_auth_bearer (key t : string) :
  check_auth key (Some ("Bearer " ++ t))
  = match Text.split " " t with
    | k :: _ => if (k =? key)%string then None else Some (text "Unauthorized" 401)
    | [] => Some (text "Unauthorized" 401)
    end.
Proof.
  assert (P : Text.startsWith "Bearer " ("Bearer " ++ t) = true)
    by (apply prefix_app; eauto).
  unfold check_auth.
  replace (Js.truthy (Some ("Bearer " ++ t))) with (Some ("Bearer " ++ t))
    by reflexivity.
  cbv beta iota. rewrite P, split_bearer. simpl.
  destruct (Text.split " " t); reflexivity.
Qed.

(** X2. The credential check accepts a header exactly when it is
    [Bearer], one space, the configured key, and then either nothing or
    a space followed by anything, and the key has no space in it: what
    follows a second space is ignored, and a configured key that
    contains a space is matched by no header at all. *)
Theorem bearer_token_accepted (key : string) (hdr : option string) :
  check_auth key hdr = None <->
  spaceless key /\
  exists rest,
    hdr = Some ("Bearer " ++ key ++ rest) /\
    (rest = "" \/ exists r, rest = String " " r).
Proof.
  split.
  - intros A.
    assert (B : exists t, hdr = Some ("Bearer " ++ t)).
    { unfold check_auth in A.
      destruct (Js.truthy hdr) as [h |] eqn:T; [| discriminate].
      apply truthy_inv in T. destruct T as [-> _].
      destruct (Text.startsWith "Bearer " h) eqn:P; simpl in A; [| discriminate].
      apply prefix_app in P. destruct P as (t & ->). eauto. }
    destruct B as (t & ->). rewrite check_auth_bearer in A.
    destruct (split_first " " t) as (h0 & tl & E & N & S). rewrite E in A.
    destruct (String.eqb_spec h0 key) as [Q | Q]; [| discriminate].
    rewrite Q in *. split; [exact N |].
    destruct S as [-> | (r & ->)].
    + exists "". rewrite append_empty_r. auto.
    + exists (String " " r). eauto.
  - intros (N & rest & -> & S). rewrite check_auth_bearer.
    destruct S as [-> | (r & ->)].
    + rewrite append_empty_r, (split_alone " " key N), String.eqb_refl. reflexivity.
    + rewrite (split_at_separator " " key r N), String.eqb_refl. reflexivity.
Qed.

(* ===================================================================== *)
(** ** More of POST /create                                              *)
(* ===================================================================== *)

Lemma url_by_id_app (i : string) (s : Store) (r : Urls.row) :
  (forall x, In x (urls s) -> Urls.id x <> i) -> Urls.id r = i ->
  Sql.url_by_id i
    {| urls := urls s ++ [r]; analytics := analytics s;
       analytics_seq := analytics_seq s |} = Some r.
Proof.
  intros N E. unfold Sql.url_by_id. simpl.
  induction (urls s) as [| x l IH]; simpl.
  - rewrite E, String.eqb_refl. reflexivity.
  - destruct (String.eqb_spec (Urls.id x) i) as [Q | Q].
    + destruct (N x (or_introl eq_refl) Q).
    + apply IH. intros y Iy. apply N. right. exact Iy.
Qed.

(** The insert of a request that got past the lookup, on a store that
    is up and with the identifier free. *)
Lemma create_new_record `{Runtime} (req : CreateReq.t) (env : Env) (s : Store)
    (u : string) :
  CreateReq.url req = Some u -> u <> "" -> url_parses u = true ->
  healthy env ->
  (Js.truthy (CreateReq.custom_id req) = None -> records_for u s = []) ->
  (forall r, In r (urls s) -> Urls.id r <> chosen_id (CreateReq.custom_id req) env) ->
  exists lookup,
    create req env (start s)
    = (Returned (json (Created (CreateReq.origin req ++ "/"
                                  ++ chosen_id (CreateReq.custom_id req) env) false) 200),
       {| db := {| urls := urls s ++
                     [ {| Urls.id := chosen_id (CreateReq.custom_id req) env;
                          Urls.original_url := u;
                          Urls.created_at := now env |} ];
                   analytics := analytics s;
                   analytics_seq := analytics_seq s |};
          sent := [lookup; InsertUrl (chosen_id (CreateReq.custom_id req) env) u] |}).
Proof.
  intros U NE P Up Fresh Free.
  destruct (Js.truthy (CreateReq.custom_id req)) as [c |] eqn:T.
  - exists (SelectIdById c).
    rewrite (create_reaches_insert_custom req u U NE P env s c T (Up 0%nat)).
    + rewrite (create_insert_ok (CreateReq.origin req) u (CreateReq.custom_id req) env)
        by (simpl; auto).
      rewrite (chosen_id_custom _ env c T). reflexivity.
    + apply url_by_id_none. rewrite (chosen_id_custom _ env c T) in Free. exact Free.
  - exists (SelectIdByOriginalUrl u).
    rewrite (create_reaches_insert_random req u U NE P env s T (Up 0%nat))
      by (apply url_by_original_url_none, Fresh; reflexivity).
    rewrite (create_insert_ok (CreateReq.origin req) u (CreateReq.custom_id req) env)
      by (simpl; auto).
    reflexivity.
Qed.

(** X3. A create request with a valid URL whose identifier, the custom
    id or else the one [nanoid()] draws, is free, and whose destination,
    when no custom id is given, is not stored yet: the answer is 200
    with [existing = false] and the short URL origin/identifier; exactly
    one record is appended to [urls], with that identifier, the
    submitted destination and the clock as [created_at]; the events are
    untouched; and a lookup of the identifier now finds the record. With
    a custom id this holds also when the destination is stored already
    under other identifiers. *)
Theorem create_stores_new_record `{Runtime} (req : CreateReq.t) (env : Env)
    (s : Store) (u : string) :
  CreateReq.url req = Some u -> u <> "" -> url_parses u = true ->
  healthy env ->
  (Js.truthy (CreateReq.custom_id req) = None -> records_for u s = []) ->
  (forall r, In r (urls s) -> Urls.id r <> chosen_id (CreateReq.custom_id req) env) ->
  let id := chosen_id (CreateReq.custom_id req) env in
  let s' := store_after (create req) env s in
  let new := {| Urls.id := id; Urls.original_url := u; Urls.created_at := now env |} in
  response_of (create req) env s
  = json (Created (CreateReq.origin req ++ "/" ++ id) false) 200 /\
  urls s' = (urls s ++ [new])%list /\
  analytics s' = analytics s /\
  analytics_seq s' = analytics_seq s /\
  Sql.url_by_id id s' = Some new /\
  length (records_for u s') = S (length (records_for u s)).
Proof.
  intros U NE P Up Fresh Free id s' new.
  destruct (create_new_record req env s u U NE P Up Fresh Free) as (q & E).
  destruct (run_parts _ _ _ _ _ E) as (R & S & _).
  unfold s'. rewrite R, S. simpl. repeat split.
  - apply (url_by_id_app id s new Free eq_refl).
  - fold id new. rewrite (records_for_app u s new). simpl.
    rewrite String.eqb_refl, length_app. simpl. lia.
Qed.

Lemma create_stores_new_record_witness :
  let req := Sample.create_req "https://example.com" (Some "promo") in
  let s' := store_after (@create Sample.runtime req) Sample.env Sample.store in
  response_of (@create Sample.runtime req) Sample.env Sample.store
  = json (Created "https://s.example/promo" false) 200 /\
  map Urls.id (urls s') = ["abc1234"; "docs"; "promo"] /\
  length (records_for "https://example.com" s') = 2%nat.
Proof.
  intros req s'.
  destruct (@create_stores_new_record Sample.runtime req Sample.env Sample.store
              "https://example.com")
    as (R & U & _ & _ & _ & L).
  - reflexivity.
  - discriminate.
  - reflexivity.
  - apply sample_healthy.
  - discriminate.
  - simpl. intros r [<- | [<- | []]]; discriminate.
  - split; [exact R |]. split; [unfold s'; rewrite U; reflexivity | exact L].
Defined.

(** X4. Creation and redirection round trip: whenever a create request
    is answered 200, be the record new or a stored one returned, the
    short URL is origin/identifier for an identifier that a redirect
    request, served next on a store that is up, answers with a 302 to
    the submitted destination. *)
Theorem create_then_redirect `{Runtime} (req : CreateReq.t) (env env2 : Env)
    (s : Store) (u : string) :
  CreateReq.url req = Some u -> u <> "" -> url_parses u = true ->
  healthy env -> healthy env2 ->
  NoDup (map Urls.id (urls s)) ->
  status (response_of (create req) env s) = 200%nat ->
  exists id existing,
    response_of (create req) env s
    = json (Created (CreateReq.origin req ++ "/" ++ id) existing) 200 /\
    forall visit, RedirectReq.id visit = id ->
      response_of (redirect_to visit) env2 (store_after (create req) env s)
      = redirect u 302.
Proof.
  intros U NE P Up Up2 PK OK.
  assert (Go : forall s1 r visit,
            Sql.url_by_id (RedirectReq.id visit) s1 = Some r ->
            Urls.original_url r = u ->
            response_of (redirect_to visit) env2 s1 = redirect u 302).
  { intros s1 r visit F E.
    pose proof (redirect_known visit env2 s1 r Up2 F) as X.
    destruct (run_parts _ _ _ _ _ X) as (R & _). rewrite R, E. reflexivity. }
  assert (New : (Js.truthy (CreateReq.custom_id req) = None -> records_for u s = []) ->
                (forall r, In r (urls s) ->
                   Urls.id r <> chosen_id (CreateReq.custom_id req) env) ->
                exists id existing,
                  response_of (create req) env s
                  = json (Created (CreateReq.origin req ++ "/" ++ id) existing) 200 /\
                  forall visit, RedirectReq.id visit = id ->
                    response_of (redirect_to visit) env2 (store_after (create req) env s)
                    = redirect u 302).
  { intros Fresh Free.
    destruct (create_new_record req env s u U NE P Up Fresh Free) as (q & E).
    destruct (run_parts _ _ _ _ _ E) as (R & S & _).
    exists (chosen_id (CreateReq.custom_id req) env), false.
    split; [exact R |]. intros visit V. rewrite S. simpl.
    eapply Go; [rewrite V; apply url_by_id_app; [exact Free | reflexivity] |].
    reflexivity. }
  destruct (Js.truthy (CreateReq.custom_id req)) as [c |] eqn:T.
  - destruct (Sql.url_by_id c s) as [r |] eqn:F.
    + pose proof (create_conflict req u U NE P env s c r T (Up 0%nat) F) as X.
      destruct (run_parts _ _ _ _ _ X) as (R & _). rewrite R in OK. discriminate.
    + apply New; [discriminate |].
      rewrite (chosen_id_custom _ env c T). apply url_by_id_none, F.
  - destruct (Sql.url_by_original_url u s) as [r |] eqn:F.
    + pose proof (create_existing req u U NE P env s r T (Up 0%nat) F) as X.
      destruct (run_parts _ _ _ _ _ X) as (R & S & _).
      destruct (url_by_original_url_some u s r F) as [I E].
      exists (Urls.id r), true. split; [exact R |].
      intros visit V. rewrite S.
      apply (Go s r visit); [| exact E].
      rewrite V. apply url_by_id_unique; auto.
    + destruct (Sql.url_by_id (nanoid env) s) as [r |] eqn:K.
      * apply url_by_id_some in K. destruct K as [I Ir].
        pose proof (create_random_collision req env s u r U NE P T (Up 0%nat)
                      (proj1 (url_by_original_url_none u s) F) I Ir) as X.
        destruct (run_parts _ _ _ _ _ X) as (R & _). rewrite R in OK. discriminate.
      * apply New; [intros _; apply url_by_original_url_none, F |].
        rewrite (chosen_id_random _ env T). apply url_by_id_none, K.
Qed.

Lemma create_then_redirect_witness :
  let req := Sample.create_req "https://example.net/x" None in
  let env := Sample.drawing "k3x9q2m" in
  let visit := {| RedirectReq.id := "k3x9q2m"; RedirectReq.cf_connecting_ip := None;
                  RedirectReq.user_agent := None; RedirectReq.cf_ipcountry := None;
                  RedirectReq.referer := None |} in
  response_of (redirect_to visit) Sample.env
    (store_after (@create Sample.runtime req) env Sample.store)
  = redirect "https://example.net/x" 302.
Proof.
  intros req env visit.
  destruct (@create_then_redirect Sample.runtime req env Sample.env Sample.store
              "https://example.net/x")
    as (id & existing & R & Go).
  - reflexivity.
  - discriminate.
  - reflexivity.
  - apply sample_healthy.
  - apply sample_healthy.
  - apply sample_primary_key.
  - reflexivity.
  - apply Go.
    assert (C : response_of (@create Sample.runtime req) env Sample.store
                = json (Created "https://s.example/k3x9q2m" false) 200) by reflexivity.
    rewrite C in R. unfold json in R. simpl in R. simpl. congruence.
Defined.

(* ===================================================================== *)
(** ** What a request can touch                                          *)
(* ===================================================================== *)

Lemma create_insert_footprint (origin url : string) (custom : option string)
    (env : Env) (w : World) :
  let s' := db (snd (create_insert origin url custom env w)) in
  s' = db w \/
  ((forall x, In x (urls (db w)) -> Urls.id x <> chosen_id custom env) /\
   s' = {| urls := urls (db w) ++
             [ {| Urls.id := chosen_id custom env; Urls.original_url := url;
                  Urls.created_at := now env |} ];
           analytics := analytics (db w);
           analytics_seq := analytics_seq (db w) |}).
Proof.
  unfold create_insert, bind, ask, try_catch, send. simpl.
  destruct (down env (length (sent w))); simpl; [auto |].
  unfold Sql.insert_url.
  destruct (existsb _ (urls (db w))) eqn:X; simpl; [auto |].
  right. split; [| reflexivity].
  intros x Ix E.
  assert (T : existsb (fun u0 => (Urls.id u0 =? chosen_id custom env)%string)
                (urls (db w)) = true).
  { apply existsb_exists. exists x. split; [exact Ix | apply String.eqb_eq, E]. }
  congruence.
Qed.

(** X5. Whatever a create request carries and whatever the condition of
    the store, the request never touches the events and never removes
    or alters a stored UrlRecord: the [urls] table afterwards is the one
    before, or the one before with a single record appended whose
    identifier was not in use and whose destination is the submitted
    URL. *)
Theorem create_only_appends `{Runtime} (req : CreateReq.t) (env : Env) (w : World) :
  let s := db w in
  let s' := db (snd (create req env w)) in
  analytics s' = analytics s /\
  analytics_seq s' = analytics_seq s /\
  (urls s' = urls s \/
   exists r,
     urls s' = (urls s ++ [r])%list /\
     (forall x, In x (urls s) -> Urls.id x <> Urls.id r) /\
     Js.truthy (CreateReq.url req) = Some (Urls.original_url r) /\
     url_parses (Urls.original_url r) = true).
Proof.
  intros s s'.
  assert (Same : s' = s -> analytics s' = analytics s /\
                           analytics_seq s' = analytics_seq s /\
                           (urls s' = urls s \/
                            exists r,
                              urls s' = (urls s ++ [r])%list /\
                              (forall x, In x (urls s) -> Urls.id x <> Urls.id r) /\
                              Js.truthy (CreateReq.url req) = Some (Urls.original_url r) /\
                              url_parses (Urls.original_url r) = true))
    by (intros ->; auto).
  unfold s', s in *. clear s s'. unfold create in *.
  destruct (Js.truthy (CreateReq.url req)) as [u |] eqn:T; [| apply Same; reflexivity].
  unfold isValidUrl in *.
  destruct (url_parses u) eqn:P; simpl in *; [| apply Same; reflexivity].
  assert (Ins : forall w1, db w1 = db w ->
            let s1 := db (snd (create_insert (CreateReq.origin req) u
                                 (CreateReq.custom_id req) env w1)) in
            analytics s1 = analytics (db w) /\
            analytics_seq s1 = analytics_seq (db w) /\
            (urls s1 = urls (db w) \/
             exists r,
               urls s1 = (urls (db w) ++ [r])%list /\
               (forall x, In x (urls (db w)) -> Urls.id x <> Urls.id r) /\
               Some u = Some (Urls.original_url r) /\
               url_parses (Urls.original_url r) = true)).
  { intros w1 E1 s1.
    destruct (create_insert_footprint (CreateReq.origin req) u
                (CreateReq.custom_id req) env w1) as [K | [F K]];
      unfold s1; rewrite K, ?E1 in *; simpl; [auto |].
    repeat split. right. eexists. split; [reflexivity |]. simpl. auto. }
  destruct (Js.truthy (CreateReq.custom_id req)) as [c |];
    unfold bind, send in *; destruct (down env (length (sent w)));
    simpl in *; try (apply Same; reflexivity).
  - destruct (Sql.url_by_id c (db w)); [apply Same; reflexivity |].
    apply Ins. reflexivity.
  - destruct (Sql.url_by_original_url u (db w)); [apply Same; reflexivity |].
    apply Ins. reflexivity.
Qed.

(** X6. The list and the detail operation only read: after either of
    them the database is exactly the one before, for every request,
    with or without the credential, and whatever the condition of the
    store. *)
Theorem list_and_detail_only_read `{Runtime} (env : Env) (w : World) :
  (forall req, db (snd (list_analytics req env w)) = db w) /\
  (forall req, db (snd (detail req env w)) = db w).
Proof.
  split; intros req.
  - exact (list_keeps (fun s => s = db w) req env w eq_refl).
  - exact (detail_keeps (fun s => s = db w) req env w eq_refl).
Qed.

(** X7. Whatever the condition of the store, a redirect request never
    touches [urls], and it writes to [analytics] only by appending one
    event, for the requested identifier and with an id above every id
    handed out before, and only when a record with that identifier is
    stored: for an unknown identifier the database is as it was. *)
Theorem redirect_only_appends (req : RedirectReq.t) (env : Env) (w : World) :
  let s := db w in
  let s' := db (snd (redirect_to req env w)) in
  urls s' = urls s /\
  (s' = s \/
   exists e,
     analytics s' = (analytics s ++ [e])%list /\
     Analytics.short_id e = RedirectReq.id req /\
     (analytics_seq s < Analytics.id e)%N /\
     (forall x, In x (analytics s) -> (Analytics.id x < Analytics.id e)%N) /\
     analytics_seq s' = Analytics.id e /\
     exists r, In r (urls s) /\ Urls.id r = RedirectReq.id req) /\
  ((forall r, In r (urls s) -> Urls.id r <> RedirectReq.id req) -> s' = s).
Proof.
  intros s s'. unfold s', s. clear s s'.
  unfold redirect_to, redirect_finish, bind, send. simpl.
  destruct (down env (length (sent w))); simpl; [auto |].
  destruct (Sql.url_by_id (RedirectReq.id req) (db w)) as [r |] eqn:F; simpl; [| auto].
  apply url_by_id_some in F. destruct F as [Ir Er].
  destruct (down env (length (sent w ++ [SelectOriginalUrlById (RedirectReq.id req)])));
    simpl; [auto |].
  split; [reflexivity |]. split.
  - right. eexists. split; [reflexivity |]. simpl.
    assert (B : forall (l : list N) (b : N),
              (b <= fold_right N.max b l)%N /\
              forall y, In y l -> (y <= fold_right N.max b l)%N).
    { induction l as [| a l IH]; intros b; simpl.
      - split; [lia | intros y []].
      - destruct (IH b) as [B1 B2]. split; [lia |].
        intros y [<- | Iy]; [lia | specialize (B2 y Iy); lia]. }
    destruct (B (map Analytics.id (analytics (db w))) (analytics_seq (db w)))
      as [B1 B2].
    unfold Sql.next_id. repeat split; try lia.
    + intros x Ix. specialize (B2 (Analytics.id x) (in_map _ _ _ Ix)). lia.
    + eauto.
  - intros N. destruct (N r Ir Er).
Qed.

(* ===================================================================== *)
(** ** The ids of the events                                             *)
(* ===================================================================== *)

Lemma reachable_invariant_witness :
  let s := store_after (redirect_to {| RedirectReq.id := "abc1234";
                                       RedirectReq.cf_connecting_ip := None;
                                       RedirectReq.user_agent := None;
                                       RedirectReq.cf_ipcountry := None;
                                       RedirectReq.referer := None |})
             Sample.env
             (store_after (@create Sample.runtime
                             (Sample.create_req "https://example.com" None))
                Sample.env empty_store) in
  map Analytics.short_id (analytics s) = ["abc1234"] /\
  well_formed s /\ every_click_has_record s.
Proof.
  intros s. split; [reflexivity |].
  apply (@reachable_invariant Sample.runtime s).
  unfold s. eapply reachable_served; [| apply served_redirect].
  eapply reachable_served; [apply reachable_empty | apply served_create].
Defined.

Lemma transact_closed (I : Store -> Prop) :
  (forall env q s s', effect env q s = inr s' -> I s -> I s') ->
  forall env qs n s s', transact env n qs s = inr s' -> I s -> I s'.
Proof.
  intros C env qs. induction qs as [| q qs IH]; simpl; intros n s s' E K.
  - injection E as <-. exact K.
  - destruct (down env n); [discriminate |].
    destruct (effect env q s) as [e | s1] eqn:Q; [discriminate |].
    eapply IH; [exact E |]. eapply C; eassumption.
Qed.

(** A property that no single statement breaks is kept by every
    handler. *)
Lemma served_closed `{Runtime} (I : Store -> Prop) :
  (forall env q s s', effect env q s = inr s' -> I s -> I s') ->
  forall s s', served s s' -> I s -> I s'.
Proof.
  intros C.
  assert (S : forall A q (result : Store -> A), keeps I (send q result))
    by (intros A q result; apply keeps_send; intros env s s'; apply C).
  assert (B : forall qs, keeps I (batch qs)).
  { intros qs. apply keeps_batch. intros env n. apply (transact_closed I C). }
  intros s s' V K. destruct V as [req env s | req env s | req env s | req env s | req env s];
    apply keeps_store_after; try exact K.
  - unfold create.
    assert (Ins : forall c u, keeps I (create_insert (CreateReq.origin req) u c)).
    { intros c u. unfold create_insert. repeat keeps_step. apply S. }
    destruct (Js.truthy (CreateReq.url req)) as [u |]; [| keeps_step].
    destruct (negb (isValidUrl u)); [keeps_step |].
    destruct (Js.truthy (CreateReq.custom_id req)); keeps_step;
      try apply S; destruct a; first [apply Ins | keeps_step].
  - apply list_keeps.
  - unfold purge. keeps_step; [keeps_step |].
    destruct (check_auth _ _); [keeps_step |].
    destruct (PurgeReq.ids req) as [[| i ids] |]; repeat keeps_step. apply B.
  - apply detail_keeps.
  - unfold redirect_to. keeps_step; [apply S |].
    unfold redirect_finish. destruct a; repeat keeps_step. apply S.
Qed.

Lemma StronglySorted_snoc {A : Type} (R : A -> A -> Prop) (l : list A) (n : A) :
  StronglySorted R l -> Forall (fun x => R x n) l -> StronglySorted R (l ++ [n]).
Proof.
  induction 1 as [| a l S IH F]; simpl; intros K.
  - repeat constructor.
  - inversion K as [| ? ? Ra Kl]; subst. constructor; [auto |].
    apply Forall_app. split; [exact F | repeat constructor; exact Ra].
Qed.

Lemma StronglySorted_map_filter {A B : Type} (R : B -> B -> Prop) (g : A -> B)
    (f : A -> bool) (l : list A) :
  StronglySorted R (map g l) -> StronglySorted R (map g (filter f l)).
Proof.
  induction l as [| a l IH]; simpl; intros S; [constructor |].
  inversion S as [| ? ? S' F]; subst.
  destruct (f a); simpl; [| auto].
  constructor; [auto |].
  rewrite Forall_forall in *. intros y Iy. apply F.
  apply in_map_iff in Iy. destruct Iy as (x & <- & Ix).
  apply filter_In in Ix. apply in_map, Ix.
Qed.

Lemma next_id_above (s : Store) :
  (analytics_seq s < Sql.next_id s)%N /\
  forall x, In x (analytics s) -> (Analytics.id x < Sql.next_id s)%N.
Proof.
  unfold Sql.next_id.
  assert (B : forall (l : list N) (b : N),
            (b <= fold_right N.max b l)%N /\
            forall y, In y l -> (y <= fold_right N.max b l)%N).
  { induction l as [| a l IH]; intros b; simpl.
    - split; [lia | intros y []].
    - destruct (IH b) as [B1 B2]. split; [lia |].
      intros y [<- | Iy]; [lia | specialize (B2 y Iy); lia]. }
  destruct (B (map Analytics.id (analytics s)) (analytics_seq s)) as [B1 B2].
  split; [lia |]. intros x Ix.
  specialize (B2 (Analytics.id x) (in_map _ _ _ Ix)). lia.
Qed.

Lemma effect_click_ids (env : Env) (q : Stmt) (s s' : Store) :
  effect env q s = inr s' -> click_ids_in_order s -> click_ids_in_order s'.
Proof.
  intros E [S F]. destruct q; cbn [effect] in E;
    try (injection E as <-; split; assumption).
  - unfold Sql.insert_url in E.
    destruct (existsb _ (urls s)); [discriminate |].
    injection E as <-. split; assumption.
  - injection E as <-. destruct (next_id_above s) as [N1 N2].
    split; simpl.
    + rewrite map_app. simpl. apply StronglySorted_snoc; [exact S |].
      apply Forall_map. rewrite Forall_forall. intros x Ix. simpl. apply N2, Ix.
    + apply Forall_app. split.
      * rewrite Forall_forall in *. intros x Ix. specialize (N2 x Ix). lia.
      * repeat constructor. simpl. lia.
  - destruct (Sql.select_summary sort limit offset s); [discriminate |].
    injection E as <-. split; assumption.
  - destruct (length ids <=? Sql.MAX_BOUND_PARAMETERS)%nat; [| discriminate].
    injection E as <-. split; simpl.
    + apply StronglySorted_map_filter, S.
    + rewrite Forall_forall in *. intros x Ix. apply filter_In in Ix. apply F, Ix.
  - destruct (length ids <=? Sql.MAX_BOUND_PARAMETERS)%nat; [| discriminate].
    injection E as <-. split; assumption.
Qed.

Lemma effect_fresh_ids (s0 : Store) (env : Env) (q : Stmt) (s s' : Store) :
  effect env q s = inr s' ->
  ((analytics_seq s0 <= analytics_seq s)%N /\
   forall e, In e (analytics s) ->
     In e (analytics s0) \/ (analytics_seq s0 < Analytics.id e)%N) ->
  (analytics_seq s0 <= analytics_seq s')%N /\
  forall e, In e (analytics s') ->
    In e (analytics s0) \/ (analytics_seq s0 < Analytics.id e)%N.
Proof.
  intros E [M K]. destruct q; cbn [effect] in E;
    try (injection E as <-; split; assumption).
  - unfold Sql.insert_url in E.
    destruct (existsb _ (urls s)); [discriminate |].
    injection E as <-. split; assumption.
  - injection E as <-. destruct (next_id_above s) as [N1 _]. simpl. split; [lia |].
    intros e Ie. apply in_app_or in Ie. destruct Ie as [Ie | [<- | []]]; [auto |].
    right. simpl. lia.
  - destruct (Sql.select_summary sort limit offset s); [discriminate |].
    injection E as <-. split; assumption.
  - destruct (length ids <=? Sql.MAX_BOUND_PARAMETERS)%nat; [| discriminate].
    injection E as <-. simpl. split; [exact M |].
    intros e Ie. apply filter_In in Ie. apply K, Ie.
  - destruct (length ids <=? Sql.MAX_BOUND_PARAMETERS)%nat; [| discriminate].
    injection E as <-. split; assumption.
Qed.

(** X9. The ids of the events: in every database the application
    reaches by serving requests, they grow strictly along the table, so
    no two events share one, and none exceeds the AUTOINCREMENT
    counter; and after one more request the counter is no lower and
    every event is one that was there or has an id above the old
    counter. A purge does not lower the counter, so the id of a purged
    event is never handed out again. *)
Theorem click_ids_never_reused `{Runtime} (s : Store) :
  reachable s ->
  click_ids_in_order s /\
  NoDup (map Analytics.id (analytics s)) /\
  forall s', served s s' ->
    (analytics_seq s <= analytics_seq s')%N /\
    forall e, In e (analytics s') ->
      In e (analytics s) \/
      ((analytics_seq s < Analytics.id e)%N /\
       forall x, In x (analytics s) -> (Analytics.id x < Analytics.id e)%N).
Proof.
  intros R.
  assert (O : click_ids_in_order s).
  { induction R as [| s s' R IH V].
    - split; constructor.
    - exact (served_closed click_ids_in_order effect_click_ids s s' V IH). }
  split; [exact O |]. split.
  - destruct O as [S _]. clear R. induction S as [| a l S IH F]; constructor; [| exact IH].
    intros I. rewrite Forall_forall in F. specialize (F a I). lia.
  - intros s' V.
    destruct (served_closed
                (fun t => (analytics_seq s <= analytics_seq t)%N /\
                          forall e, In e (analytics t) ->
                            In e (analytics s) \/ (analytics_seq s < Analytics.id e)%N)
                (effect_fresh_ids s) s s' V) as [M K].
    + split; [lia | auto].
    + split; [exact M |]. intros e Ie.
      destruct (K e Ie) as [Old | New]; [auto |].
      right. split; [exact New |].
      destruct O as [_ F]. rewrite Forall_forall in F.
      intros x Ix. specialize (F x Ix). lia.
Qed.

Lemma click_ids_never_reused_witness :
  let visit := {| RedirectReq.id := "abc1234"; RedirectReq.cf_connecting_ip := None;
                  RedirectReq.user_agent := None; RedirectReq.cf_ipcountry := None;
                  RedirectReq.referer := None |} in
  let wipe := {| PurgeReq.authorization := Sample.bearer;
                 PurgeReq.ids := Some ["abc1234"] |} in
  let s1 := store_after (redirect_to visit) Sample.env
              (store_after (@create Sample.runtime
                              (Sample.create_req "https://example.com" None))
                 Sample.env empty_store) in
  let s2 := store_after (@create Sample.runtime
                           (Sample.create_req "https://example.com" None))
              Sample.env (store_after (purge wipe) Sample.env s1) in
  let s3 := store_after (redirect_to visit) Sample.env s2 in
  map Analytics.id (analytics s1) = [1%N] /\
  map Analytics.id (analytics s3) = [2%N] /\
  click_ids_in_order s3.
Proof.
  intros visit wipe s1 s2 s3. split; [reflexivity |]. split; [reflexivity |].
  apply (@click_ids_never_reused Sample.runtime s3).
  unfold s3. eapply reachable_served; [| apply served_redirect].
  unfold s2. eapply reachable_served; [| apply served_create].
  eapply reachable_served; [| apply served_purge].
  unfold s1. eapply reachable_served; [| apply served_redirect].
  eapply reachable_served; [apply reachable_empty | apply served_create].
Defined.

(* ===================================================================== *)
(** ** After a purge                                                     *)
(* ===================================================================== *)

Lemma filter_idempotent {A : Type} (f : A -> bool) (l : list A) :
  filter f (filter f l) = filter f l.
Proof.
  apply filter_keeps_all. intros x I. apply filter_In in I. apply I.
Qed.

Lemma both_deleted_twice (ids : list string) (s : Store) :
  both_deleted ids (both_deleted ids s) = both_deleted ids s.
Proof.
  unfold both_deleted, Sql.delete_urls, Sql.delete_clicks. simpl.
  rewrite !filter_idempotent. reflexivity.
Qed.

Lemma both_deleted_forgets (ids : list string) (s : Store) (i : string) :
  In i ids ->
  Sql.url_by_id i (both_deleted ids s) = None /\
  Sql.clicks_of i (both_deleted ids s) = [].
Proof.
  intros I. split.
  - apply url_by_id_none. intros r Ir E. simpl in Ir.
    apply filter_In in Ir. destruct Ir as [_ N].
    apply not_mem_In in N. apply N. rewrite E. exact I.
  - unfold Sql.clicks_of. simpl. apply filter_drops_all.
    intros e Ie. apply filter_In in Ie. destruct Ie as [_ N].
    apply not_mem_In in N. apply String.eqb_neq. intros E. apply N.
    rewrite E. exact I.
Qed.

Lemma purge_done (req : PurgeReq.t) (env : Env) (s : Store) (ids : list string) :
  authorized env (PurgeReq.authorization req) ->
  healthy env ->
  PurgeReq.ids req = Some ids -> ids <> [] -> (length ids <= 100)%nat ->
  response_of (purge req) env s = json (Purged true ids) 200 /\
  store_after (purge req) env s = both_deleted ids s.
Proof.
  intros A Up I NE L.
  pose proof (purge_run req env s ids A I NE) as X.
  rewrite (transact_purge_up env 0 ids s Up L) in X.
  destruct (run_parts _ _ _ _ _ X) as (R & S & _). auto.
Qed.

(** X10. After a purge of at most 100 identifiers served by a store
    that is up, every identifier of the request is unknown to the other
    operations: no record and no event of it is left, a redirect to it
    is answered 404 and writes nothing, and its detail is answered 200
    with a null destination, a click count of 0 and no events. *)
Theorem purged_ids_are_unknown (req : PurgeReq.t) (env : Env) (s : Store)
    (ids : list string) :
  authorized env (PurgeReq.authorization req) ->
  healthy env ->
  PurgeReq.ids req = Some ids -> ids <> [] -> (length ids <= 100)%nat ->
  let s' := store_after (purge req) env s in
  forall i, In i ids ->
    (forall r, In r (urls s') -> Urls.id r <> i) /\
    click_count i s' = 0%nat /\
    (forall visit env2, healthy env2 -> RedirectReq.id visit = i ->
       response_of (redirect_to visit) env2 s' = text "Not found" 404 /\
       store_after (redirect_to visit) env2 s' = s') /\
    (forall ask env2,
       authorized env2 (DetailReq.authorization ask) -> healthy env2 ->
       DetailReq.id ask = i ->
       response_of (detail ask) env2 s' = json (Detail i None 0 []) 200).
Proof.
  intros A Up I NE L s' i Ii.
  destruct (purge_done req env s ids A Up I NE L) as [_ S].
  unfold s'. rewrite S.
  destruct (both_deleted_forgets ids s i Ii) as [U C].
  split; [apply url_by_id_none, U |].
  split; [unfold click_count; rewrite C; reflexivity |].
  split.
  - intros visit env2 Up2 V.
    pose proof (redirect_unknown visit env2 (both_deleted ids s) (Up2 0%nat)) as X.
    rewrite V in X. specialize (X U).
    destruct (run_parts _ _ _ _ _ X) as (R & T & _). auto.
  - intros ask env2 A2 Up2 V.
    pose proof (detail_run ask env2 (both_deleted ids s) A2 Up2) as X.
    rewrite V in X. unfold Sql.select_clicks in X. rewrite U, C in X.
    destruct (run_parts _ _ _ _ _ X) as (R & _). rewrite R. reflexivity.
Qed.

Lemma purged_ids_are_unknown_witness :
  let req := {| PurgeReq.authorization := Sample.bearer;
                PurgeReq.ids := Some ["abc1234"; "gone"] |} in
  let s' := store_after (purge req) Sample.env Sample.store in
  click_count "abc1234" Sample.store = 3%nat /\
  click_count "abc1234" s' = 0%nat /\
  response_of (detail {| DetailReq.authorization := Sample.bearer;
                         DetailReq.id := "abc1234" |}) Sample.env s'
  = json (Detail "abc1234" None 0 []) 200.
Proof.
  intros req s'.
  destruct (purged_ids_are_unknown req Sample.env Sample.store ["abc1234"; "gone"]
              (authorized_sample _) (sample_healthy _) eq_refl
              ltac:(discriminate) ltac:(simpl; lia) "abc1234" (or_introl eq_refl))
    as (_ & C & _ & D).
  split; [reflexivity |]. split; [exact C |].
  apply D; [apply authorized_sample | apply sample_healthy | reflexivity].
Defined.

(** X11. Purging is idempotent: a second purge of the same identifiers,
    at most 100 of them, served by a store that is up, is answered with
    the same success and leaves the database exactly as the first one
    left it. *)
Theorem purge_twice (req : PurgeReq.t) (env env2 : Env) (s : Store)
    (ids : list string) :
  authorized env (PurgeReq.authorization req) ->
  authorized env2 (PurgeReq.authorization req) ->
  healthy env -> healthy env2 ->
  PurgeReq.ids req = Some ids -> ids <> [] -> (length ids <= 100)%nat ->
  let s' := store_after (purge req) env s in
  response_of (purge req) env2 s' = response_of (purge req) env s /\
  response_of (purge req) env2 s' = json (Purged true ids) 200 /\
  store_after (purge req) env2 s' = s'.
Proof.
  intros A A2 Up Up2 I NE L s'.
  destruct (purge_done req env s ids A Up I NE L) as [R S].
  destruct (purge_done req env2 s' ids A2 Up2 I NE L) as [R2 S2].
  rewrite R, R2, S2. unfold s'. rewrite S.
  repeat split. apply both_deleted_twice.
Qed.

Lemma purge_twice_witness :
  let req := {| PurgeReq.authorization := Sample.bearer;
                PurgeReq.ids := Some ["docs"] |} in
  let s' := store_after (purge req) Sample.env Sample.store in
  map Urls.id (urls s') = ["abc1234"] /\
  store_after (purge req) Sample.env s' = s'.
Proof.
  intros req s'. split; [reflexivity |].
  apply (purge_twice req Sample.env Sample.env Sample.store ["docs"]
           (authorized_sample _) (authorized_sample _)
           (sample_healthy _) (sample_healthy _) eq_refl ltac:(discriminate)
           ltac:(simpl; lia)).
Defined.

(* ===================================================================== *)
(** ** The list against the detail, the pages, and the total             *)
(* ===================================================================== *)

Lemma timestamps_of_clicks (l : list Analytics.row) :
  map Click.timestamp (map Sql.to_click l) = map Analytics.timestamp l.
Proof. rewrite map_map. reflexivity. Qed.

(** X12. The list and the detail agree on an identifier. For a summary
    row of the list, the detail of its identifier carries the same
    destination, a click count that is the row's click count capped at
    1000, and as first event the one at the row's [last_clicked]. *)
Theorem detail_agrees_with_list (req : DetailReq.t) (env : Env) (s : Store)
    (row : Summary.row) :
  authorized env (DetailReq.authorization req) ->
  healthy env ->
  well_formed s ->
  In row (Sql.summary_rows s) ->
  Summary.short_id row = DetailReq.id req ->
  exists rows,
    response_of (detail req) env s
    = json (Detail (DetailReq.id req) (Some (Summary.original_url row))
              (Nat.min 1000 (Summary.click_count row)) rows) 200 /\
    option_map Click.timestamp (hd_error rows) = Summary.last_clicked row.
Proof.
  intros A Up [PK NE] I Id.
  pose proof (detail_run req env s A Up) as X.
  destruct (run_parts _ _ _ _ _ X) as (R & _).
  destruct (summary_row_spec s PK row I)
    as (NEv & Cnt & (t & Lt & Gt & _) & _ & _ & (u & Iu & Eu & Ou)).
  rewrite Id in *.
  destruct (select_clicks_spec (DetailReq.id req) s) as (L & O & rest & Pm & Older).
  exists (Sql.select_clicks (DetailReq.id req) s). split.
  - rewrite R, L. unfold click_count. rewrite <- Cnt.
    rewrite (url_by_id_unique (DetailReq.id req) s u PK Iu Eu). simpl.
    rewrite Forall_forall in NE.
    destruct (String.eqb_spec (Urls.original_url u) "") as [Z | Z];
      [destruct (NE u Iu Z) | rewrite Ou; reflexivity].
  - rewrite Lt.
    destruct (Sql.select_clicks (DetailReq.id req) s) as [| r0 rows] eqn:Q.
    + exfalso. simpl in L. unfold click_count in L.
      destruct (Sql.clicks_of (DetailReq.id req) s); [congruence | discriminate].
    + simpl. f_equal. apply (greatest_unique (map Analytics.timestamp
                                                (Sql.clicks_of (DetailReq.id req) s)));
        [| exact Gt].
      rewrite <- timestamps_of_clicks. split.
      * apply in_map. eapply Permutation_in; [apply Permutation_sym, Pm |].
        left. reflexivity.
      * intros x Ix. apply in_map_iff in Ix. destruct Ix as (c & <- & Ic).
        apply (Permutation_in _ Pm) in Ic. simpl in Ic.
        destruct Ic as [<- | Ic]; [apply text_le_refl |].
        apply in_app_or in Ic. destruct Ic as [Ic | Ic].
        -- unfold newest_first in O. inversion O as [| ? ? _ F]; subst.
           rewrite Forall_forall in F. apply F, Ic.
        -- apply Older; [left; reflexivity | exact Ic].
Qed.

Lemma detail_agrees_with_list_witness :
  let req := {| DetailReq.authorization := Sample.bearer; DetailReq.id := "abc1234" |} in
  exists row rows,
    In row (Sql.summary_rows Sample.store) /\
    Summary.last_clicked row = Some "2025-04-04 08:00:00" /\
    response_of (detail req) Sample.env Sample.store
    = json (Detail "abc1234" (Some "https://example.com") 3 rows) 200 /\
    option_map Click.timestamp (hd_error rows) = Some "2025-04-04 08:00:00".
Proof.
  intros req.
  exists (Sql.summarize Sample.store ("abc1234", "https://example.com")).
  destruct (detail_agrees_with_list req Sample.env Sample.store
              (Sql.summarize Sample.store ("abc1234", "https://example.com"))
              (authorized_sample _) (sample_healthy _) sample_well_formed)
    as (rows & R & T).
  - vm_compute. auto.
  - reflexivity.
  - exists rows. split; [vm_compute; auto |]. split; [reflexivity |].
    split; [exact R | exact T].
Defined.

Lemma nth_error_slice {A : Type} (n m j : nat) (l : list A) :
  nth_error (firstn n (skipn m l)) j
  = if (j <? n)%nat then nth_error l (m + j) else None.
Proof.
  rewrite nth_error_firstn, nth_error_skipn. reflexivity.
Qed.

(** X14. The [total] of a list answer against its rows, for a request
    whose page and limit read as integers with a safe offset: the page
    never has more rows than there are summary rows, and there are never
    more summary rows than [total]; the two are equal exactly when no
    event is without its record. An identifier whose record is gone is
    counted in [total] and has no row. *)
Theorem total_bounds_rows `{Runtime} (req : ListReq.t) (env : Env) (s : Store)
    (p l : Z) :
  authorized env (ListReq.authorization req) ->
  healthy env ->
  parseInt (Js.or (ListReq.page req) "1") = Js.Int p ->
  parseInt (Js.or (ListReq.limit req) "50") = Js.Int l ->
  ((Z.max 1 p - 1) * Z.max 1 (Z.min l 500) <= Js.MAX_SAFE_INTEGER)%Z ->
  NoDup (map Urls.id (urls s)) ->
  exists page limit sort total data,
    response_of (list_analytics req) env s
    = json (Page page limit sort total data) 200 /\
    (length data <= length (Sql.summary_rows s) <= total)%nat /\
    (length (Sql.summary_rows s) = total <-> every_click_has_record s).
Proof.
  intros A Up Hp Hl Safe PK.
  pose proof (list_run req p l Hp Hl Safe env s A Up) as E.
  destruct (run_parts _ _ _ _ _ E) as (R & _).
  do 5 eexists. split; [exact R |].
  set (ids := map Summary.short_id (Sql.summary_rows s)).
  set (all := nodup string_dec (map Analytics.short_id (analytics s))).
  assert (ND : NoDup ids) by (apply summary_ids_NoDup, PK).
  assert (Inc : incl ids all).
  { intros x Ix. apply summary_ids_In in Ix. destruct Ix as [(e & Ie & Ee) _].
    apply nodup_In, in_map_iff. eauto. }
  assert (Len : length (Sql.summary_rows s) = length ids)
    by (unfold ids; rewrite length_map; reflexivity).
  unfold Sql.count_distinct_short_id. fold all. split; [split |].
  - rewrite length_firstn, length_skipn.
    rewrite (Permutation_length (order_by_perm _ _ _)). lia.
  - rewrite Len. apply NoDup_incl_length; assumption.
  - split.
    + intros Eq e Ie.
      assert (Back : incl all ids).
      { apply NoDup_length_incl; [exact ND | rewrite <- Len, Eq; lia | exact Inc]. }
      assert (J : In (Analytics.short_id e) ids).
      { apply Back, nodup_In, in_map, Ie. }
      apply summary_ids_In in J. destruct J as [_ (u & Iu & Eu)]. eauto.
    + intros K. symmetry.
      apply (proj2 (summary_covers_clicked_ids s PK K)).
Qed.

Lemma total_bounds_rows_witness :
  let req := {| ListReq.authorization := Sample.bearer; ListReq.page := None;
                ListReq.limit := None; ListReq.sort := None |} in
  exists data,
    response_of (@list_analytics Sample.runtime req) Sample.env Sample.store
    = json (Page (Js.Int 1) (Js.Int 50) Sql.DESC 3 data) 200 /\
    length (Sql.summary_rows Sample.store) = 2%nat /\
    ~ every_click_has_record Sample.store.
Proof.
  intros req.
  destruct (@total_bounds_rows Sample.runtime req Sample.env Sample.store 1 50
              (authorized_sample _) (sample_healthy _) eq_refl eq_refl
              ltac:(vm_compute; discriminate) sample_primary_key)
    as (page & limit & sort & total & data & R & _ & Iff).
  assert (C : exists d,
            response_of (@list_analytics Sample.runtime req) Sample.env Sample.store
            = json (Page (Js.Int 1) (Js.Int 50) Sql.DESC 3 d) 200)
    by (eexists; reflexivity).
  destruct C as (d & C). rewrite C in R. unfold json in R.
  injection R as _ _ _ Et _.
  exists d. split; [exact C |]. split; [reflexivity |].
  intros K. apply Iff in K. rewrite <- Et in K. discriminate K.
Defined.

(* ===================================================================== *)
(** ** The statuses the description documents                            *)
(* ===================================================================== *)

Lemma check_auth_status (key : string) (hdr : option string) (r : Response) :
  check_auth key hdr = Some r -> status r = 401%nat.
Proof.
  unfold check_auth.
  destruct (Js.truthy hdr) as [h |]; [| intros E; injection E as <-; reflexivity].
  destruct (negb (Text.startsWith "Bearer " h)); [intros E; injection E as <-; reflexivity |].
  destruct (nth_error (Text.split " " h) 1) as [k |];
    [| intros E; injection E as <-; reflexivity].
  destruct (k =? key)%string; [discriminate | intros E; injection E as <-; reflexivity].
Qed.

Ltac split_run E :=
  repeat (simpl in E;
          match type of E with
          | context [down ?e ?n] => destruct (down e n)
          | context [Js.truthy ?o] => destruct (Js.truthy o)
          | context [isValidUrl ?u] => destruct (isValidUrl u)
          | context [Sql.url_by_id ?i ?s] => destruct (Sql.url_by_id i s)
          | context [Sql.url_by_original_url ?i ?s] =>
              destruct (Sql.url_by_original_url i s)
          | context [Sql.insert_url ?a ?b ?c ?d] => destruct (Sql.insert_url a b c d)
          | context [Sql.select_summary ?a ?b ?c ?d] =>
              destruct (Sql.select_summary a b c d)
          | context [PurgeReq.ids ?r] => destruct (PurgeReq.ids r) as [[| ? ?] |]
          | context [find ?f ?l] => destruct (find f l)
          | context [existsb ?f ?l] => destruct (existsb f l)
          end);
  simpl in E.

Ltac returned_status E :=
  split_run E; first [discriminate E | injection E as <- _; simpl; auto 10].

(** X15. Every response a handler returns carries a status that the
    description of its route documents: for create, list, purge and
    detail the codes listed in [spec], served at [/]; for the redirect
    the codes listed for [/:id] in [swaggerSpec]. This holds for every
    request and every condition of the store. *)
Theorem returned_statuses_are_documented `{Runtime} (env : Env) (w w' : World)
    (r : Response) :
  (forall req, create req env w = (Returned r, w') ->
     In (status r) (documented spec "/create" "post")) /\
  (forall req, list_analytics req env w = (Returned r, w') ->
     In (status r) (documented spec "/analytics" "get")) /\
  (forall req, purge req env w = (Returned r, w') ->
     In (status r) (documented spec "/analytics" "delete")) /\
  (forall req, detail req env w = (Returned r, w') ->
     In (status r) (documented spec "/analytics/{id}" "get")) /\
  (forall req, redirect_to req env w = (Returned r, w') ->
     In (status r) (documented swaggerSpec "/:id" "get")).
Proof.
  repeat split; intros req E.
  - unfold create, create_insert, bind, ask, try_catch, send, ret in E.
    returned_status E.
  - unfold list_analytics, bind, ask, ret in E.
    destruct (check_auth (API_KEY env) (ListReq.authorization req)) as [x |] eqn:A.
    + injection E as <- _. rewrite (check_auth_status _ _ _ A). simpl. auto.
    + unfold send in E. returned_status E.
  - unfold purge, bind, ask, ret in E.
    destruct (check_auth (API_KEY env) (PurgeReq.authorization req)) as [x |] eqn:A.
    + injection E as <- _. rewrite (check_auth_status _ _ _ A). simpl. auto.
    + destruct (PurgeReq.ids req) as [[| i ids] |].
      * injection E as <- _. simpl. auto.
      * unfold batch in E.
        destruct (transact env (length (sent w))
                    [DeleteClicks (i :: ids); DeleteUrls (i :: ids)] (db w));
          [discriminate E | injection E as <- _; simpl; auto].
      * injection E as <- _. simpl. auto.
  - unfold detail, bind, ask, ret in E.
    destruct (check_auth (API_KEY env) (DetailReq.authorization req)) as [x |] eqn:A.
    + injection E as <- _. rewrite (check_auth_status _ _ _ A). simpl. auto.
    + unfold send in E. returned_status E.
  - unfold redirect_to, redirect_finish, bind, send, ret in E.
    returned_status E.
Qed.

(* ===================================================================== *)
(** ** The earlier handlers                                              *)
(* ===================================================================== *)

(** X16. The first version of create, for a request with a valid URL
    and a custom id: the one statement it sends is the INSERT, with no
    lookup before it. When the id is taken, or the store fails, its
    [catch] answers 409 "Conflict or error" and the database is as it
    was; when the id is free and the store is up, the answer is 200
    with the short URL alone and the record is appended, also when the
    destination is stored already. *)
Theorem v1_create_conflict_from_catch `{Runtime} (req : CreateReq.t) (env : Env)
    (s : Store) (u c : string) :
  CreateReq.url req = Some u -> u <> "" -> url_parses u = true ->
  CreateReq.custom_id req = Some c -> c <> "" ->
  let run := V1.create req env (start s) in
  sent (snd run) = [InsertUrl c u] /\
  ((down env 0 = true \/ exists r, In r (urls s) /\ Urls.id r = c) ->
   fst run = Returned {| V1.status := 409; V1.body := V1.Text "Conflict or error" |} /\
   db (snd run) = s) /\
  (down env 0 = false -> (forall r, In r (urls s) -> Urls.id r <> c) ->
   fst run = Returned {| V1.status := 200;
                         V1.body := V1.Short (CreateReq.origin req ++ "/" ++ c) None |} /\
   urls (db (snd run))
   = (urls s ++ [ {| Urls.id := c; Urls.original_url := u;
                     Urls.created_at := now env |} ])%list /\
   analytics (db (snd run)) = analytics s).
Proof.
  intros U NE P C CNE run.
  assert (T : Js.truthy (CreateReq.custom_id req) = Some c)
    by (rewrite C; apply truthy_some, CNE).
  assert (E : run = V1.create_insert (CreateReq.origin req) u (CreateReq.custom_id req)
                      env (start s)).
  { unfold run, V1.create. rewrite U, (truthy_some u NE).
    unfold isValidUrl. rewrite P, T. reflexivity. }
  rewrite E. unfold V1.create_insert, bind, ask, try_catch, send.
  rewrite (chosen_id_custom _ env c T). simpl.
  destruct (down env 0) eqn:D; simpl.
  - split; [reflexivity |]. split; [auto | discriminate].
  - destruct (Sql.insert_url c u (now env) s) as [e | s1] eqn:Q; simpl.
    + split; [reflexivity |]. split; [auto |].
      intros _ Free. rewrite (insert_url_free c u (now env) s Free) in Q. discriminate.
    + split; [reflexivity |]. split.
      * intros [K | K]; [discriminate |].
        apply (insert_url_taken c u (now env)) in K. congruence.
      * intros _ Free. rewrite (insert_url_free c u (now env) s Free) in Q.
        injection Q as <-. simpl. auto.
Qed.

Lemma v1_create_conflict_from_catch_witness :
  let req := Sample.create_req "https://example.net/x" (Some "docs") in
  @V1.create Sample.runtime req Sample.env (start Sample.store)
  = (Returned {| V1.status := 409; V1.body := V1.Text "Conflict or error" |},
     {| db := Sample.store; sent := [InsertUrl "docs" "https://example.net/x"] |}).
Proof.
  intros req.
  destruct (@v1_create_conflict_from_catch Sample.runtime req Sample.env Sample.store
              "https://example.net/x" "docs")
    as (S & K & _).
  - reflexivity.
  - discriminate.
  - reflexivity.
  - reflexivity.
  - discriminate.
  - destruct K as [R D].
    + right. exists (Sample.record "docs" "https://example.org/docs"). simpl. auto.
    + destruct (@V1.create Sample.runtime req Sample.env (start Sample.store))
        as [o [d t]]. simpl in *. subst. reflexivity.
Defined.

Lemma v2_summary_ids (s : Store) :
  map V2.Summary.short_id (V2.summary_rows s) = V2.group_keys s.
Proof.
  unfold V2.summary_rows. rewrite map_map. simpl. apply map_id.
Qed.

(** X17. The second version of the list operation, which groups the
    events without joining them with [urls]. For a request whose
    [x-api-key] is the configured key and whose page and limit read as
    integers with a safe offset, on a store that answers: the rows are a
    slice, of at most limit rows, of the summary rows ordered by
    [last_clicked], and there is exactly one summary row for every
    identifier that has an event, whether or not a UrlRecord with that
    identifier is stored, with the number of its events as
    [click_count]. *)
Theorem v2_list_covers_every_clicked_id `{Runtime} (req : V2.ListReq.t) (env : Env)
    (s : Store) (p l : Z) :
  V2.ListReq.x_api_key req = Some (API_KEY env) ->
  down env 0 = false ->
  parseInt (Js.or (V2.ListReq.page req) "1") = Js.Int p ->
  parseInt (Js.or (V2.ListReq.limit req) "50") = Js.Int l ->
  let page := Z.max 1 p in
  let limit := Z.max 1 (Z.min l 500) in
  ((page - 1) * limit <= Js.MAX_SAFE_INTEGER)%Z ->
  exists sort data all_rows,
    V2.list_analytics req env s = Returned (V2.Page (Js.Int page) (Js.Int limit) sort data) /\
    Permutation all_rows (V2.summary_rows s) /\
    ordered V2.Summary.last_clicked sort all_rows /\
    data = firstn (Z.to_nat limit) (skipn (Z.to_nat ((page - 1) * limit)) all_rows) /\
    NoDup (map V2.Summary.short_id (V2.summary_rows s)) /\
    (forall sid,
       In sid (map V2.Summary.short_id (V2.summary_rows s)) <->
       exists e, In e (analytics s) /\ Analytics.short_id e = sid) /\
    (forall row, In row (V2.summary_rows s) ->
       V2.Summary.click_count row = click_count (V2.Summary.short_id row) s /\
       (0 < V2.Summary.click_count row)%nat).
Proof.
  intros K Up Hp Hl page limit Safe.
  unfold V2.list_analytics. rewrite K, String.eqb_refl, Hp, Hl, Up.
  cbn [negb Js.max Js.min]. fold page limit. unfold Js.sub, Js.mul.
  rewrite (double_safe (page - 1))
    by (unfold page, limit, Js.MAX_SAFE_INTEGER in *; nia).
  rewrite (double_safe ((page - 1) * limit))
    by (unfold page, limit, Js.MAX_SAFE_INTEGER in *; nia).
  unfold V2.select_summary.
  rewrite !int64_safe by (unfold page, limit, Js.MAX_SAFE_INTEGER in *; nia).
  cbn [andb].
  rewrite limit_offset_eq by (unfold limit; lia).
  do 3 eexists. split; [reflexivity |].
  split; [apply order_by_perm |].
  split; [apply order_by_ordered |].
  split; [reflexivity |].
  rewrite v2_summary_ids. unfold V2.group_keys.
  split; [apply NoDup_nodup |]. split.
  - intros sid. rewrite nodup_In, in_map_iff. split.
    + intros (e & E & I). eauto.
    + intros (e & I & E). eauto.
  - intros row I. unfold V2.summary_rows in I. apply in_map_iff in I.
    destruct I as (sid & <- & I). simpl. split; [reflexivity |].
    unfold V2.group_keys in I. apply nodup_In, in_map_iff in I.
    destruct I as (e & E & Ie).
    assert (J : In e (Sql.clicks_of sid s)).
    { apply filter_In. split; [exact Ie | apply String.eqb_eq, E]. }
    destruct (Sql.clicks_of sid s); [destruct J | simpl; lia].
Qed.

Lemma v2_list_covers_every_clicked_id_witness :
  let req := {| V2.ListReq.x_api_key := Some "secret"; V2.ListReq.page := None;
                V2.ListReq.limit := None; V2.ListReq.sort := None |} in
  exists data,
    @V2.list_analytics Sample.runtime req Sample.env Sample.store
    = Returned (V2.Page (Js.Int 1) (Js.Int 50) Sql.DESC data) /\
    map V2.Summary.short_id data = ["gone"; "abc1234"; "docs"].
Proof.
  intros req.
  destruct (@v2_list_covers_every_clicked_id Sample.runtime req Sample.env
              Sample.store 1 50 eq_refl eq_refl eq_refl eq_refl
              ltac:(vm_compute; discriminate))
    as (sort & data & all_rows & R & _).
  assert (C : exists d,
            @V2.list_analytics Sample.runtime req Sample.env Sample.store
            = Returned (V2.Page (Js.Int 1) (Js.Int 50) Sql.DESC d) /\
            map V2.Summary.short_id d = ["gone"; "abc1234"; "docs"])
    by (eexists; split; reflexivity).
  destruct C as (d & C & M). exists d. split; [exact C | exact M].
Defined.

(* ===================================================================== *)
(** ** isBot                                                             *)
(* ===================================================================== *)

Lemma contains_cons (p : string) (a : ascii) (s : string) :
  contains p (String a s) = String.prefix p (String a s) || contains p s.
Proof. reflexivity. Qed.

Lemma contains_spec (p s : string) :
  contains p s = true <-> exists pre post, s = (pre ++ p ++ post)%string.
Proof.
  induction s as [| a s IH].
  - change (contains p "") with (String.prefix p ""). rewrite prefix_app. split.
    + intros (t & E). exists "", t. exact E.
    + intros (pre & post & E). destruct pre; [eauto | discriminate].
  - rewrite contains_cons, orb_true_iff, IH, prefix_app. split.
    + intros [(t & E) | (pre & post & E)].
      * exists "", t. exact E.
      * exists (String a pre), post. simpl. rewrite E. reflexivity.
    + intros (pre & post & E). destruct pre as [| b pre]; simpl in E.
      * left. eauto.
      * right. injection E as _ E. eauto.
Qed.

(** X18. [isBot] holds of a user agent exactly when, letter case of the
    ASCII letters aside, it contains "bot", "crawl" or "spider"; the
    fourth alternative of the pattern, "robot", adds nothing, since it
    contains "bot". *)
Theorem isBot_spec (userAgent : string) :
  isBot userAgent = true <->
  exists word pre post,
    In word ["bot"; "crawl"; "spider"] /\
    Text.toLowerCase userAgent = (pre ++ word ++ post)%string.
Proof.
  unfold isBot. rewrite !orb_true_iff, !contains_spec. split.
  - intros [[[(pre & post & E) | (pre & post & E)] | (pre & post & E)]
           | (pre & post & E)].
    + exists "bot", pre, post. simpl. auto.
    + exists "crawl", pre, post. simpl. auto.
    + exists "spider", pre, post. simpl. auto.
    + exists "bot", (pre ++ "ro")%string, post. split; [simpl; auto |].
      rewrite E, append_assoc. reflexivity.
  - intros (word & pre & post & [<- | [<- | [<- | []]]] & E); eauto 10.
Qed.

(* ===================================================================== *)
(** ** Ascending against descending                                      *)
(* ===================================================================== *)

Lemma sql_le_antisym (a b : option string) :
  Sql.le a b = true -> Sql.le b a = true -> a = b.
Proof.
  destruct a as [x |], b as [y |]; simpl; try discriminate; auto.
  intros L1 L2. f_equal. apply text_le_antisym; assumption.
Qed.

(** Two sorted arrangements of the same rows are the same list, when no
    two different rows are each before the other. *)
Lemma sorted_arrangement_unique {A : Type} (R : A -> A -> Prop) (l1 l2 : list A) :
  (forall x y, In x l1 -> In y l1 -> R x y -> R y x -> x = y) ->
  StronglySorted R l1 -> StronglySorted R l2 -> Permutation l1 l2 -> l1 = l2.
Proof.
  revert l2. induction l1 as [| a l1 IH]; intros l2 Anti S1 S2 P.
  - apply Permutation_nil in P. congruence.
  - destruct l2 as [| b l2]; [apply Permutation_sym, Permutation_nil in P; discriminate |].
    inversion S1 as [| ? ? S1' F1]; subst. inversion S2 as [| ? ? S2' F2]; subst.
    rewrite Forall_forall in F1, F2.
    assert (E : a = b).
    { assert (Ia : In a (b :: l2)) by (apply (Permutation_in _ P); left; reflexivity).
      assert (Ib : In b (a :: l1))
        by (apply (Permutation_in _ (Permutation_sym P)); left; reflexivity).
      destruct Ia as [-> | Ia]; [reflexivity |].
      destruct Ib as [-> | Ib]; [reflexivity |].
      apply Anti; [left; reflexivity | right; exact Ib | apply F1, Ib | apply F2, Ia]. }
    subst b. f_equal. apply IH; auto.
    + intros x y Ix Iy. apply Anti; right; assumption.
    + eapply Permutation_cons_inv. exact P.
Qed.

Lemma StronglySorted_rev {A : Type} (R : A -> A -> Prop) (l : list A) :
  StronglySorted R l -> StronglySorted (fun x y => R y x) (rev l).
Proof.
  induction 1 as [| a l S IH F]; simpl; [constructor |].
  apply StronglySorted_snoc; [exact IH |].
  rewrite Forall_forall in *. intros x Ix. apply F, in_rev, Ix.
Qed.

Lemma ascending_is_reversed_descending {A : Type} (key : A -> option string)
    (l : list A) :
  NoDup (map key l) ->
  Sql.order_by key Sql.ASC l = rev (Sql.order_by key Sql.DESC l).
Proof.
  intros ND.
  apply sorted_arrangement_unique with (R := in_order key Sql.ASC).
  - intros x y Ix Iy L1 L2. simpl in L1, L2.
    pose proof (sql_le_antisym _ _ L1 L2) as E.
    apply (Permutation_in _ (order_by_perm key Sql.ASC l)) in Ix, Iy.
    clear L1 L2. induction l as [| a l IH]; [destruct Ix |].
    simpl in ND. inversion ND as [| ? ? N ND']; subst.
    destruct Ix as [-> | Ix], Iy as [-> | Iy]; auto.
    + exfalso. apply N. rewrite E. apply in_map, Iy.
    + exfalso. apply N. rewrite <- E. apply in_map, Ix.
  - apply order_by_ordered.
  - apply (StronglySorted_rev (in_order key Sql.DESC)). apply order_by_ordered.
  - eapply Permutation_trans; [apply order_by_perm |].
    eapply Permutation_trans; [| apply Permutation_rev].
    apply Permutation_sym, order_by_perm.
Qed.

(** X19. When no two summary rows share their [last_clicked], a list
    request for the first page with [sort=asc] and a limit that takes in
    every row returns the rows of the same request with [sort=desc] in
    reverse order. *)
Theorem ascending_reverses_descending `{Runtime} (oldest newest : ListReq.t) (env : Env)
    (s : Store) (p l : Z) :
  authorized env (ListReq.authorization oldest) ->
  authorized env (ListReq.authorization newest) ->
  healthy env ->
  parseInt (Js.or (ListReq.page oldest) "1") = Js.Int p ->
  parseInt (Js.or (ListReq.page newest) "1") = Js.Int p ->
  parseInt (Js.or (ListReq.limit oldest) "50") = Js.Int l ->
  parseInt (Js.or (ListReq.limit newest) "50") = Js.Int l ->
  (p <= 1)%Z ->
  (Z.of_nat (length (Sql.summary_rows s)) <= Z.max 1 (Z.min l 500))%Z ->
  effective_sort oldest = Sql.ASC ->
  effective_sort newest = Sql.DESC ->
  NoDup (map Summary.last_clicked (Sql.summary_rows s)) ->
  exists total rows,
    response_of (list_analytics newest) env s
    = json (Page (Js.Int 1) (Js.Int (Z.max 1 (Z.min l 500))) Sql.DESC total rows) 200 /\
    response_of (list_analytics oldest) env s
    = json (Page (Js.Int 1) (Js.Int (Z.max 1 (Z.min l 500))) Sql.ASC total (rev rows)) 200 /\
    Permutation rows (Sql.summary_rows s).
Proof.
  intros Au Ad Up Pu Pd Lu Ld P1 Fit Su Sd ND.
  assert (Safe : ((Z.max 1 p - 1) * Z.max 1 (Z.min l 500) <= Js.MAX_SAFE_INTEGER)%Z)
    by (replace (Z.max 1 p) with 1%Z by lia; unfold Js.MAX_SAFE_INTEGER; lia).
  pose proof (list_run oldest p l Pu Lu Safe env s Au Up) as Eu.
  pose proof (list_run newest p l Pd Ld Safe env s Ad Up) as Ed.
  destruct (run_parts _ _ _ _ _ Eu) as (Ru & _).
  destruct (run_parts _ _ _ _ _ Ed) as (Rd & _).
  rewrite Su in Ru. rewrite Sd in Rd.
  replace (Z.max 1 p) with 1%Z in * by lia.
  change (Z.to_nat ((1 - 1) * Z.max 1 (Z.min l 500))) with 0%nat in *.
  cbn [skipn] in Ru, Rd.
  assert (All : forall o,
            firstn (Z.to_nat (Z.max 1 (Z.min l 500)))
              (Sql.order_by Summary.last_clicked o (Sql.summary_rows s))
            = Sql.order_by Summary.last_clicked o (Sql.summary_rows s)).
  { intros o. apply firstn_all2.
    rewrite (Permutation_length (order_by_perm _ _ _)). lia. }
  rewrite All in Ru, Rd.
  exists (Sql.count_distinct_short_id s),
         (Sql.order_by Summary.last_clicked Sql.DESC (Sql.summary_rows s)).
  split; [exact Rd |]. split; [| apply order_by_perm].
  rewrite Ru, (ascending_is_reversed_descending _ _ ND). reflexivity.
Qed.

Lemma ascending_reverses_descending_witness :
  let ask o := {| ListReq.authorization := Sample.bearer; ListReq.page := None;
                  ListReq.limit := None; ListReq.sort := Some o |} in
  exists total rows,
    response_of (@list_analytics Sample.runtime (ask "desc")) Sample.env Sample.store
    = json (Page (Js.Int 1) (Js.Int 50) Sql.DESC total rows) 200 /\
    response_of (@list_analytics Sample.runtime (ask "asc")) Sample.env Sample.store
    = json (Page (Js.Int 1) (Js.Int 50) Sql.ASC total (rev rows)) 200.
Proof.
  intros ask.
  destruct (@ascending_reverses_descending Sample.runtime (ask "asc") (ask "desc")
              Sample.env Sample.store 1 50)
    as (total & rows & D & U & _); try reflexivity.
  - apply sample_healthy.
  - vm_compute. discriminate.
  - vm_compute. repeat constructor; simpl; intuition discriminate.
  - exists total, rows. split; [exact D | exact U].
Defined.

(* ===================================================================== *)
(** ** The pages of the list                                             *)
(* ===================================================================== *)

(** When no two rows share their key, the rows have one sorted
    arrangement, in either direction. *)
Lemma sorted_rows_unique {A : Type} (key : A -> option string) (o : Sql.Order)
    (l all : list A) :
  NoDup (map key l) ->
  Permutation all l -> ordered key o all ->
  all = Sql.order_by key o l.
Proof.
  intros ND P S.
  apply sorted_arrangement_unique with (R := in_order key o).
  - intros x y Ix Iy L1 L2.
    assert (E : key x = key y).
    { destruct o; simpl in L1, L2;
        [exact (sql_le_antisym _ _ L1 L2) | exact (sql_le_antisym _ _ L2 L1)]. }
    apply (Permutation_in _ P) in Ix, Iy.
    clear L1 L2 P S. induction l as [| a l IH]; [destruct Ix |].
    simpl in ND. inversion ND as [| ? ? N ND']; subst.
    destruct Ix as [-> | Ix], Iy as [-> | Iy]; auto.
    + exfalso. apply N. rewrite E. apply in_map, Iy.
    + exfalso. apply N. rewrite <- E. apply in_map, Ix.
  - exact S.
  - apply order_by_ordered.
  - eapply Permutation_trans; [exact P |]. apply Permutation_sym, order_by_perm.
Qed.

(** X13. When no two summary rows share their [last_clicked], the pages
    of the list are consecutive slices of the one ordered arrangement
    of the summary rows, which does not depend on [page] or [limit]:
    for a request whose page and limit read as integers with a safe
    offset, the row at position j of the page numbered [page] is the
    row at position (page - 1) * limit + j of that arrangement when j is
    below the limit, and there is none otherwise. So the pages of one
    limit neither skip nor repeat a row, and a page past the last row is
    empty, not an error. *)
Theorem list_pages_are_slices `{Runtime} (req : ListReq.t) (env : Env) (s : Store)
    (p l : Z) (all_rows : list Summary.row) :
  authorized env (ListReq.authorization req) ->
  healthy env ->
  parseInt (Js.or (ListReq.page req) "1") = Js.Int p ->
  parseInt (Js.or (ListReq.limit req) "50") = Js.Int l ->
  ((Z.max 1 p - 1) * Z.max 1 (Z.min l 500) <= Js.MAX_SAFE_INTEGER)%Z ->
  NoDup (map Summary.last_clicked (Sql.summary_rows s)) ->
  Permutation all_rows (Sql.summary_rows s) ->
  ordered Summary.last_clicked (effective_sort req) all_rows ->
  let page := Z.to_nat (Z.max 1 p) in
  let limit := Z.to_nat (Z.max 1 (Z.min l 500)) in
  exists total data,
    response_of (list_analytics req) env s
    = json (Page (Js.Int (Z.max 1 p)) (Js.Int (Z.max 1 (Z.min l 500)))
              (effective_sort req) total data) 200 /\
    (forall j,
       nth_error data j
       = if (j <? limit)%nat then nth_error all_rows ((page - 1) * limit + j) else None) /\
    (length all_rows <= (page - 1) * limit -> data = [])%nat.
Proof.
  intros A Up Hp Hl Safe ND P S page limit.
  rewrite (sorted_rows_unique Summary.last_clicked (effective_sort req)
             (Sql.summary_rows s) all_rows ND P S).
  pose proof (list_run req p l Hp Hl Safe env s A Up) as E.
  destruct (run_parts _ _ _ _ _ E) as (R & _).
  do 2 eexists. split; [exact R |].
  assert (O : Z.to_nat ((Z.max 1 p - 1) * Z.max 1 (Z.min l 500))
              = ((page - 1) * limit)%nat).
  { unfold page, limit. rewrite Z2Nat.inj_mul by lia.
    rewrite Z2Nat.inj_sub by lia. reflexivity. }
  rewrite O. fold limit. split.
  - intros j. apply nth_error_slice.
  - intros Past. rewrite skipn_all2 by exact Past. apply firstn_nil.
Qed.

Lemma list_pages_are_slices_witness :
  let req := {| ListReq.authorization := Sample.bearer; ListReq.page := Some "3";
                ListReq.limit := Some "1"; ListReq.sort := None |} in
  exists total,
    response_of (@list_analytics Sample.runtime req) Sample.env Sample.store
    = json (Page (Js.Int 3) (Js.Int 1) Sql.DESC total []) 200.
Proof.
  intros req.
  destruct (@list_pages_are_slices Sample.runtime req Sample.env Sample.store 3 1
              (Sql.order_by Summary.last_clicked Sql.DESC
                 (Sql.summary_rows Sample.store))
              (authorized_sample _) (sample_healthy _) eq_refl eq_refl)
    as (total & data & R & _ & Past).
  - vm_compute. discriminate.
  - vm_compute. repeat constructor; simpl; intuition discriminate.
  - apply order_by_perm.
  - apply order_by_ordered.
  - exists total. rewrite R. rewrite Past; [reflexivity |].
    vm_compute. repeat constructor.
Defined.

(* ===================================================================== *)
(** ** Requests the handlers do not guard against                        *)
(* ===================================================================== *)

Section Unguarded.
Context `{Runtime}.

Lemma not_a_number_is_refused (req : ListReq.t) (s : Store) :
  parseInt (Js.or (ListReq.page req) "1") = Js.NaN \/
  parseInt (Js.or (ListReq.limit req) "50") = Js.NaN ->
  Sql.select_summary (effective_sort req) (effective_limit req)
    (effective_offset req) s = inl Sql.DatatypeMismatch.
Proof.
  intros [E | E].
  - unfold effective_offset, effective_page. rewrite E.
    cbn [Js.max Js.sub Js.mul]. unfold Sql.select_summary.
    destruct (effective_limit req); reflexivity.
  - unfold effective_limit. rewrite E. reflexivity.
Qed.

End Unguarded.

(** X20. A list request with the credential whose [page] or [limit]
    reads as no number is not clamped to the defaults: NaN reaches the
    store as LIMIT or OFFSET, the query is refused, and the handler,
    which has no [catch], throws. The answer is 500, the status of
    Internal, and the database is as it was. *)
Theorem list_not_a_number_is_internal `{Runtime} (req : ListReq.t) (env : Env)
    (s : Store) :
  authorized env (ListReq.authorization req) ->
  parseInt (Js.or (ListReq.page req) "1") = Js.NaN \/
  parseInt (Js.or (ListReq.limit req) "50") = Js.NaN ->
  (exists e, fst (list_analytics req env (start s)) = Thrown e) /\
  response_of (list_analytics req) env s = text "Internal Server Error" 500 /\
  error_kind (response_of (list_analytics req) env s) = Some Internal /\
  store_after (list_analytics req) env s = s /\
  (healthy env ->
   fst (list_analytics req env (start s)) = Thrown Sql.DatatypeMismatch /\
   statements_of (list_analytics req) env s
   = [CountDistinctShortId;
      SelectSummary (effective_sort req) (effective_limit req) (effective_offset req)]).
Proof.
  intros A N. pose proof (not_a_number_is_refused req s N) as Q.
  unfold response_of, store_after, statements_of, list_analytics, bind, ask.
  unfold authorized in A. rewrite A.
  unfold send. cbn [start db sent length app effect].
  destruct (down env 0) eqn:D0.
  - cbn [fst snd db respond].
    split; [eauto |]. split; [reflexivity |]. split; [reflexivity |].
    split; [reflexivity |].
    intros Up. rewrite (Up 0%nat) in D0. discriminate D0.
  - cbn [fst snd db sent length app effect]. rewrite Q.
    destruct (down env 1) eqn:D1.
    + cbn [fst snd db respond].
      split; [eauto |]. split; [reflexivity |]. split; [reflexivity |].
      split; [reflexivity |].
      intros Up. rewrite (Up 1%nat) in D1. discriminate D1.
    + cbn [fst snd db sent respond].
      split; [eauto |]. split; [reflexivity |]. split; [reflexivity |].
      split; [reflexivity |].
      intros _. split; reflexivity.
Qed.

Lemma list_not_a_number_is_internal_witness :
  let req := {| ListReq.authorization := Sample.bearer; ListReq.page := Some "x1";
                ListReq.limit := None; ListReq.sort := None |} in
  response_of (@list_analytics Sample.runtime req) Sample.env Sample.store
  = text "Internal Server Error" 500 /\
  store_after (@list_analytics Sample.runtime req) Sample.env Sample.store
  = Sample.store.
Proof.
  intros req.
  destruct (@list_not_a_number_is_internal Sample.runtime req Sample.env Sample.store
              (authorized_sample _) (or_introl eq_refl))
    as (_ & R & _ & S & _).
  split; [exact R | exact S].
Defined.

(** X21. A purge request whose body cannot be read. The credential is
    checked first, so without it the answer is the 401 of the check;
    with it, reading the body throws, the answer is 500, the status of
    Internal, and not the 400 of a request without ids. Either way
    nothing is sent to the store. With a body that is read, the handler
    goes on with its [ids], whatever they are. *)
Theorem purge_without_readable_body (authorization : option string) (env : Env)
    (w : World) :
  let run := delete_analytics authorization Unreadable env w in
  snd run = w /\
  (forall rejection,
     check_auth (API_KEY env) authorization = Some rejection ->
     fst run = Returned rejection /\ status rejection = 401%nat) /\
  (check_auth (API_KEY env) authorization = None ->
   fst run = Thrown Sql.BodyUnreadable /\
   respond (fst run) = text "Internal Server Error" 500 /\
   error_kind (respond (fst run)) = Some Internal) /\
  (forall ids,
     delete_analytics authorization (Json ids)
     = purge {| PurgeReq.authorization := authorization; PurgeReq.ids := ids |}).
Proof.
  intros run. unfold run, delete_analytics, bind, ask, ret, throw.
  destruct (check_auth (API_KEY env) authorization) as [r |] eqn:C.
  - split; [reflexivity |]. split; [| split].
    + intros rejection E. injection E as <-.
      split; [reflexivity | exact (check_auth_status _ _ _ C)].
    + discriminate.
    + reflexivity.
  - split; [reflexivity |]. split; [| split].
    + discriminate.
    + intros _. repeat split.
    + reflexivity.
Qed.
